(** * Sean's Hub backend: the post API of [server.js]

    The repository holds two revisions of the Express server: the current one
    ([src/server.js]), which keeps the posts in a PostgreSQL table reached
    through [pool.query], and an earlier one ([src/unnamed/part_000]), which
    keeps them in a JSON file ([posts.json]).  Both are embedded here, each in
    its own module ([PgServer], [FileServer]), on top of a small model of the
    JavaScript platform functions they call ([Js]) and of the multer disk
    storage they share ([ImageStore]).  [DeleteBody] follows the JSON body
    of a DELETE request from the admin page to the handler. *)

From Stdlib Require Import List String Ascii Bool ZArith NArith Lia.
From Stdlib Require Import Permutation Sorted DecimalString DecimalN.
Import ListNotations.

#[local] Set Warnings "-register-all".

Local Open Scope list_scope.
Local Open Scope string_scope.

(* ================================================================== *)
(** * Stable sorting under a comparator                                *)
(* ================================================================== *)

(** [cmp a b > 0] puts [a] after [b]; elements the comparator does not
    separate keep the order they came in.  This is what
    [Array.prototype.sort] returns for a consistent comparator, and one of
    the orders an SQL [ORDER BY] may return. *)
Fixpoint sort_insert {A : Type} (cmp : A -> A -> Z) (x : A) (l : list A) : list A :=
  match l with
  | [] => [x]
  | y :: r => if (0 <? cmp x y)%Z then y :: sort_insert cmp x r else x :: l
  end.

Definition sort_by {A : Type} (cmp : A -> A -> Z) (l : list A) : list A :=
  fold_right (sort_insert cmp) [] l.

(* ================================================================== *)
(** * JavaScript values and the platform functions the server calls   *)
(* ================================================================== *)

Module Js.

(** A JavaScript string is held as the [string] of the bytes of its UTF-8
    text.  Every string the server builds itself is ASCII. *)

(** A JSON number is kept as the exact decimal [(-1)^neg * mant * 10^exp10]
    its literal denotes.  The only observation the server makes of a number
    is its truthiness, which is decided exactly by [number_is_zero]. *)
Record number : Type := Number { neg : bool; mant : N; exp10 : Z }.

(** The values [JSON.parse] can produce.  [undefined] is not one of them: it
    is the [None] of an [option]. *)
Inductive jsval : Type :=
| JNull
| JBool (b : bool)
| JNum (d : number)
| JStr (s : string)
| JArr (l : list jsval)
| JObj (kv : list (string * jsval)).

Definition char (n : N) : ascii := ascii_of_N n.
Definition code (c : ascii) : N := N_of_ascii c.

(** The quotation mark, as a string, and the backslash. *)
Definition quot : string := String (char 34) "".
Definition bslash : ascii := char 92.

Definition cons_str (c : ascii) (r : option (string * string))
  : option (string * string) :=
  match r with
  | Some (s, rest) => Some (String c s, rest)
  | None => None
  end.

Definition app_str (p : string) (r : option (string * string))
  : option (string * string) :=
  match r with
  | Some (s, rest) => Some (p ++ s, rest)
  | None => None
  end.

Fixpoint strip_prefix (p s : string) : option string :=
  match p, s with
  | EmptyString, _ => Some s
  | String a p', String b s' => if Ascii.eqb a b then strip_prefix p' s' else None
  | String _ _, EmptyString => None
  end.

(** ** Number to string, for the non-negative integers the server prints
       ([Date.now()], [Math.round(Math.random() * 1e9)]). *)
Definition dec (n : N) : string := NilZero.string_of_uint (N.to_uint n).

Definition dec_Z (z : Z) : string :=
  match z with
  | Zneg p => "-" ++ dec (Npos p)
  | _ => dec (Z.to_N z)
  end.

(** ** Truthiness, as [!x], [x || y] and [x ? a : b] observe it. *)

(** A double is zero when the decimal is at most [2^-1075] in magnitude
    (round to nearest, ties to even). *)
Definition number_is_zero (d : number) : bool :=
  (mant d =? 0)%N
  || ((exp10 d <? 0)%Z
      && (mant d * 2 ^ 1075 <=? 10 ^ Z.to_N (- exp10 d))%N).

Definition truthy (v : jsval) : bool :=
  match v with
  | JNull => false
  | JBool b => b
  | JNum d => negb (number_is_zero d)
  | JStr s => negb (s =? "")
  | JArr _ => true
  | JObj _ => true
  end.

(** Truthiness of a value that is a string or [undefined] (a form field, an
    environment variable, a nullable text column). *)
Definition truthy_str (o : option string) : bool :=
  match o with
  | Some s => negb (s =? "")
  | None => false
  end.

(** [x || ""] for such a value. *)
Definition or_empty (o : option string) : string :=
  if truthy_str o then match o with Some s => s | None => "" end else "".

(** ** [String.prototype.trim]: the server only compares the result with
       the empty string, which holds exactly when the string consists of
       white space and line terminators (given here by their UTF-8 bytes). *)
Fixpoint blank (s : string) : bool :=
  match s with
  | EmptyString => true
  | String c r =>
    let n := code c in
    if ((9 <=? n) && (n <=? 13) || (n =? 32))%N then blank r
    else
      match r with
      | String c1 r1 =>
        if ((n =? 194) && (code c1 =? 160))%N then blank r1       (* U+00A0 *)
        else
          match r1 with
          | String c2 r2 =>
            let u := (n * 65536 + code c1 * 256 + code c2)%N in
            if ((u =? 14785152)                                   (* U+1680 *)
                || ((14844032 <=? u) && (u <=? 14844042))         (* U+2000..200A *)
                || (u =? 14844072) || (u =? 14844073)             (* U+2028, U+2029 *)
                || (u =? 14844079)                                (* U+202F *)
                || (u =? 14844319)                                (* U+205F *)
                || (u =? 14909568)                                (* U+3000 *)
                || (u =? 15711167))%N                             (* U+FEFF *)
            then blank r2 else false
          | EmptyString => false
          end
      | EmptyString => false
      end
  end.

(** [s.trim() !== ""] *)
Definition trim_nonempty (s : string) : bool := negb (blank s).

(** ** [JSON.parse] *)

Definition is_json_ws (c : ascii) : bool :=
  let n := code c in ((n =? 32) || (n =? 9) || (n =? 10) || (n =? 13))%N.

Fixpoint skip_ws (s : string) : string :=
  match s with
  | String c r => if is_json_ws c then skip_ws r else s
  | EmptyString => s
  end.

Definition digit_val (c : ascii) : option N :=
  let n := code c in
  if ((48 <=? n) && (n <=? 57))%N then Some (n - 48)%N else None.

Definition hex_val (c : ascii) : option N :=
  let n := code c in
  if ((48 <=? n) && (n <=? 57))%N then Some (n - 48)%N
  else if ((97 <=? n) && (n <=? 102))%N then Some (n - 87)%N
  else if ((65 <=? n) && (n <=? 70))%N then Some (n - 55)%N
  else None.

Definition hex4 (a b c d : ascii) : option N :=
  match hex_val a, hex_val b, hex_val c, hex_val d with
  | Some x, Some y, Some z, Some w => Some (((x * 16 + y) * 16 + z) * 16 + w)%N
  | _, _, _, _ => None
  end.

(** UTF-8 bytes of a code point below [0x110000] (a lone surrogate is
    written with the three-byte pattern, like any other unit of that range). *)
Definition utf8 (n : N) : string :=
  if (n <? 128)%N then String (char n) ""
  else if (n <? 2048)%N then
    String (char (192 + n / 64)) (String (char (128 + n mod 64)) "")
  else if (n <? 65536)%N then
    String (char (224 + n / 4096))
      (String (char (128 + (n / 64) mod 64)) (String (char (128 + n mod 64)) ""))
  else
    String (char (240 + n / 262144))
      (String (char (128 + (n / 4096) mod 64))
         (String (char (128 + (n / 64) mod 64)) (String (char (128 + n mod 64)) ""))).

Definition is_high_surrogate (n : N) : bool := ((55296 <=? n) && (n <=? 56319))%N.
Definition is_low_surrogate (n : N) : bool := ((56320 <=? n) && (n <=? 57343))%N.

(** The character a two-character escape stands for. *)
Definition simple_escape (e : ascii) : option ascii :=
  let n := code e in
  if (n =? 34)%N then Some (char 34)            (* quotation mark *)
  else if (n =? 92)%N then Some (char 92)       (* \\ *)
  else if (n =? 47)%N then Some (char 47)       (* \/ *)
  else if (n =? 98)%N then Some (char 8)        (* \b *)
  else if (n =? 102)%N then Some (char 12)      (* \f *)
  else if (n =? 110)%N then Some (char 10)      (* \n *)
  else if (n =? 114)%N then Some (char 13)      (* \r *)
  else if (n =? 116)%N then Some (char 9)       (* \t *)
  else None.

(** The low surrogate that follows at the head of [s], if one does. *)
Definition low_escape (s : string) : option N :=
  match s with
  | String b (String u (String e (String f (String g (String h _))))) =>
    if ((code b =? 92) && (code u =? 117))%N then
      match hex4 e f g h with
      | Some m => if is_low_surrogate m then Some m else None
      | None => None
      end
    else None
  | _ => None
  end.

(** The characters of a string literal after its opening quote, up to and
    including the closing quote; returns the string and the rest. *)
Fixpoint parse_string_body (s : string) : option (string * string) :=
  match s with
  | EmptyString => None
  | String c r =>
    if (code c =? 34)%N then Some ("", r)
    else if (code c =? 92)%N then
      match r with
      | EmptyString => None
      | String e r1 =>
        match simple_escape e with
        | Some x => cons_str x (parse_string_body r1)
        | None =>
          if (code e =? 117)%N then
            match r1 with
            | String a (String b (String c' (String d r2))) =>
              match hex4 a b c' d with
              | None => None
              | Some n =>
                match (if is_high_surrogate n then low_escape r2 else None), r2 with
                | Some m, String _ (String _ (String _ (String _ (String _ (String _ r3))))) =>
                  app_str (utf8 (65536 + (n - 55296) * 1024 + (m - 56320))%N)
                          (parse_string_body r3)
                | _, _ => app_str (utf8 n) (parse_string_body r2)
                end
              end
            | _ => None
            end
          else None
        end
      end
    else if (code c <? 32)%N then None
    else cons_str c (parse_string_body r)
  end.

(** A run of decimal digits: their value, how many there were, the rest. *)
Fixpoint parse_digits (s : string) (acc : N) (count : nat) : N * nat * string :=
  match s with
  | String c r =>
    match digit_val c with
    | Some d => parse_digits r (acc * 10 + d)%N (S count)
    | None => (acc, count, s)
    end
  | EmptyString => (acc, count, s)
  end.

(** The integer part: a single [0], or a digit run that does not start
    with [0]. *)
Definition parse_int (s : string) : option (N * string) :=
  match s with
  | String c r =>
    match digit_val c with
    | Some d =>
      if (d =? 0)%N then Some (0%N, r)
      else let '(n, _, rest) := parse_digits r d 1 in Some (n, rest)
    | None => None
    end
  | EmptyString => None
  end.

(** The optional fraction: extends the mantissa, returns the digit count. *)
Definition parse_frac (m : N) (s : string) : option (N * nat * string) :=
  match s with
  | String c r =>
    if (code c =? 46)%N then
      let '(n, k, rest) := parse_digits r m 0 in
      match k with O => None | S _ => Some (n, k, rest) end
    else Some (m, O, s)
  | EmptyString => Some (m, O, s)
  end.

(** The optional exponent. *)
Definition parse_exp (s : string) : option (Z * string) :=
  match s with
  | String c r =>
    if ((code c =? 101) || (code c =? 69))%N then
      let '(sgn, r1) :=
        match r with
        | String c1 r' =>
          if (code c1 =? 45)%N then (true, r')
          else if (code c1 =? 43)%N then (false, r')
          else (false, r)
        | EmptyString => (false, r)
        end in
      let '(n, k, rest) := parse_digits r1 0 0 in
      match k with
      | O => None
      | S _ => Some ((if sgn then - Z.of_N n else Z.of_N n)%Z, rest)
      end
    else Some (0%Z, s)
  | EmptyString => Some (0%Z, s)
  end.

Definition parse_number (s : string) : option (number * string) :=
  let '(sgn, s1) :=
    match s with
    | String c r => if (code c =? 45)%N then (true, r) else (false, s)
    | EmptyString => (false, s)
    end in
  match parse_int s1 with
  | None => None
  | Some (i, s2) =>
    match parse_frac i s2 with
    | None => None
    | Some (m, k, s3) =>
      match parse_exp s3 with
      | None => None
      | Some (e, s4) => Some (Number sgn m (e - Z.of_nat k), s4)
      end
    end
  end.

(** The recursive descent proper.  [fuel] bounds the depth of the calls;
    [JSON_parse] below starts it above what any text of that length needs. *)
Fixpoint parse_value (fuel : nat) (s : string) {struct fuel}
  : option (jsval * string) :=
  match fuel with
  | O => None
  | S f =>
    let t := skip_ws s in
    match t with
    | EmptyString => None
    | String c r =>
      if (code c =? 91)%N then                                    (* [ *)
        match strip_prefix "]" (skip_ws r) with
        | Some r' => Some (JArr [], r')
        | None =>
          match parse_elements f r with
          | Some (l, r') => Some (JArr l, r')
          | None => None
          end
        end
      else if (code c =? 123)%N then                              (* { *)
        match strip_prefix "}" (skip_ws r) with
        | Some r' => Some (JObj [], r')
        | None =>
          match parse_members f r with
          | Some (kv, r') => Some (JObj kv, r')
          | None => None
          end
        end
      else if (code c =? 34)%N then                               (* quotation mark *)
        match parse_string_body r with
        | Some (str, r') => Some (JStr str, r')
        | None => None
        end
      else
        match strip_prefix "null" t with
        | Some r' => Some (JNull, r')
        | None =>
          match strip_prefix "true" t with
          | Some r' => Some (JBool true, r')
          | None =>
            match strip_prefix "false" t with
            | Some r' => Some (JBool false, r')
            | None =>
              match parse_number t with
              | Some (d, r') => Some (JNum d, r')
              | None => None
              end
            end
          end
        end
    end
  end

with parse_elements (fuel : nat) (s : string) {struct fuel}
  : option (list jsval * string) :=
  match fuel with
  | O => None
  | S f =>
    match parse_value f s with
    | None => None
    | Some (v, r) =>
      match skip_ws r with
      | EmptyString => None
      | String c r' =>
        if (code c =? 44)%N then                                  (* , *)
          match parse_elements f r' with
          | Some (l, r'') => Some (v :: l, r'')
          | None => None
          end
        else if (code c =? 93)%N then Some ([v], r')              (* ] *)
        else None
      end
    end
  end

with parse_members (fuel : nat) (s : string) {struct fuel}
  : option (list (string * jsval) * string) :=
  match fuel with
  | O => None
  | S f =>
    match strip_prefix quot (skip_ws s) with
    | None => None
    | Some r0 =>
      match parse_string_body r0 with
      | None => None
      | Some (k, r1) =>
        match strip_prefix ":" (skip_ws r1) with
        | None => None
        | Some r2 =>
          match parse_value f r2 with
          | None => None
          | Some (v, r3) =>
            match skip_ws r3 with
            | EmptyString => None
            | String c r' =>
              if (code c =? 44)%N then
                match parse_members f r' with
                | Some (kv, r'') => Some ((k, v) :: kv, r'')
                | None => None
                end
              else if (code c =? 125)%N then Some ([(k, v)], r')  (* } *)
              else None
            end
          end
        end
      end
    end
  end.

(** [JSON.parse(text)]; [None] stands for the [SyntaxError] it throws. *)
Definition JSON_parse (text : string) : option jsval :=
  match parse_value (2 * String.length text + 2) text with
  | Some (v, r) =>
    match skip_ws r with
    | EmptyString => Some v
    | String _ _ => None
    end
  | None => None
  end.

(** ** [JSON.stringify] *)

Definition hex_digit (n : N) : ascii :=
  if (n <? 10)%N then char (48 + n) else char (87 + n).

(** One character of a string literal, as [QuoteJSONString] writes it. *)
Definition quote_char (c : ascii) : string :=
  let n := code c in
  if (n =? 34)%N then String bslash quot
  else if (n =? 92)%N then "\\"
  else if (n =? 8)%N then "\b"
  else if (n =? 12)%N then "\f"
  else if (n =? 10)%N then "\n"
  else if (n =? 13)%N then "\r"
  else if (n =? 9)%N then "\t"
  else if (n <? 32)%N then
    "\u00" ++ String (hex_digit (n / 16)) (String (hex_digit (n mod 16)) "")
  else String c "".

Fixpoint quote_body (s : string) : string :=
  match s with
  | EmptyString => ""
  | String c r => quote_char c ++ quote_body r
  end.

Definition quote (s : string) : string := quot ++ quote_body s ++ quot.

Fixpoint join (sep : string) (l : list string) : string :=
  match l with
  | [] => ""
  | [x] => x
  | x :: r => x ++ sep ++ join sep r
  end.

(** A number prints as its mantissa and decimal exponent.  (JavaScript
    prints the shortest decimal that reads back as the same double, and
    [null] for a literal beyond the range of doubles; the server never
    serialises a number of its own.) *)
Definition number_to_string (d : number) : string :=
  (if neg d then "-" else "") ++ dec (mant d)
  ++ (if (exp10 d =? 0)%Z then "" else "e" ++ dec_Z (exp10 d)).

Fixpoint JSON_stringify (v : jsval) : string :=
  match v with
  | JNull => "null"
  | JBool true => "true"
  | JBool false => "false"
  | JNum d => number_to_string d
  | JStr s => quote s
  | JArr l => "[" ++ join "," (map JSON_stringify l) ++ "]"
  | JObj kv =>
    "{" ++ join "," (map (fun p => quote (fst p) ++ ":" ++ JSON_stringify (snd p)) kv)
        ++ "}"
  end.

(** The array of strings the handlers build from the uploaded files. *)
Definition strings (l : list string) : jsval := JArr (map JStr l).

(** ** Property access [v[0]] *)

Inductive access : Type :=
| Value (v : jsval)
| Undefined
| TypeError.

(** The first UTF-16 unit of a string, as a string: the first UTF-8
    sequence (one to three bytes; of a four-byte sequence, its high
    surrogate). *)
Definition first_unit (s : string) : option string :=
  match s with
  | EmptyString => None
  | String c r =>
    let n := code c in
    if (n <? 192)%N then Some (String c "")
    else if (n <? 224)%N then Some (String c (substring 0 1 r))
    else if (n <? 240)%N then Some (String c (substring 0 2 r))
    else
      match r with
      | String c1 (String c2 _) =>
        let cp := ((n mod 8) * 262144 + (code c1 mod 64) * 4096
                   + (code c2 mod 64) * 64)%N in
        Some (utf8 (55296 + (cp - 65536) / 1024)%N)
      | _ => Some (String c r)
      end
  end.

Fixpoint lookup_last (k : string) (kv : list (string * jsval)) : option jsval :=
  match kv with
  | [] => None
  | (k', v) :: r =>
    match lookup_last k r with
    | Some w => Some w
    | None => if k' =? k then Some v else None
    end
  end.

Definition index0 (v : jsval) : access :=
  match v with
  | JNull => TypeError
  | JArr l => match l with x :: _ => Value x | [] => Undefined end
  | JStr s => match first_unit s with Some u => Value (JStr u) | None => Undefined end
  | JObj kv => match lookup_last "0" kv with Some x => Value x | None => Undefined end
  | JBool _ | JNum _ => Undefined
  end.

End Js.

(* ================================================================== *)
(** * The image store: multer's disk storage                           *)
(* ================================================================== *)

Module ImageStore.
Import Js.

(** ** [path.extname] (Node, POSIX flavour)

    The loop of [extname] walks the path from its last character down to
    its first; [i] is the index of the head of [rpath], the characters not
    yet visited in that order. *)
Record scan : Type := Scan {
  startDot : option nat;       (* -1 is None *)
  startPart : nat;
  end_ : option nat;           (* -1 is None *)
  matchedSlash : bool;
  preDotState : Z
}.

Definition scan0 : scan := Scan None 0 None true 0.

Fixpoint extname_loop (rpath : list ascii) (i : nat) (st : scan) : scan :=
  match rpath with
  | [] => st
  | c :: rest =>
    if (code c =? 47)%N then                                      (* slash *)
      if negb (matchedSlash st)
      then Scan (startDot st) (i + 1) (end_ st) (matchedSlash st) (preDotState st)
      else extname_loop rest (pred i) st
    else
      let st1 :=
        match end_ st with
        | None => Scan (startDot st) (startPart st) (Some (i + 1)) false (preDotState st)
        | Some _ => st
        end in
      let st2 :=
        if (code c =? 46)%N then                                  (* dot *)
          match startDot st1 with
          | None => Scan (Some i) (startPart st1) (end_ st1) (matchedSlash st1)
                         (preDotState st1)
          | Some _ =>
            if negb (preDotState st1 =? 1)%Z
            then Scan (startDot st1) (startPart st1) (end_ st1) (matchedSlash st1) 1
            else st1
          end
        else
          match startDot st1 with
          | Some _ => Scan (startDot st1) (startPart st1) (end_ st1) (matchedSlash st1)
                           (-1)
          | None => st1
          end in
      extname_loop rest (pred i) st2
  end.

Definition extname (path : string) : string :=
  let st := extname_loop (rev (list_ascii_of_string path))
                         (String.length path - 1) scan0 in
  match startDot st, end_ st with
  | Some sd, Some e =>
    if (preDotState st =? 0)%Z
       || ((preDotState st =? 1)%Z && (sd =? e - 1)%nat && (sd =? startPart st + 1)%nat)
    then ""
    else substring sd (e - sd) path
  | _, _ => ""
  end.

(** ** [storage.filename]

    [now] is the value [Date.now()] returns and [rnd] the value of
    [Math.round(Math.random() * 1e9)], an integer between 0 and 10^9. *)
Definition filename (now rnd : N) (fieldname originalname : string) : string :=
  let uniqueSuffix := dec now ++ "-" ++ dec rnd in
  let ext := extname originalname in
  fieldname ++ "-" ++ uniqueSuffix ++ ext.

(** A part of the multipart body that carries a file, with the clock and
    the random draw multer's [filename] callback sees for it. *)
Record part : Type := Part {
  part_originalname : string;
  part_now : N;
  part_rnd : N
}.

(** An entry of [req.files]. *)
Record file : Type := File {
  file_fieldname : string;
  file_originalname : string;
  file_filename : string
}.

(** [upload.array(name, 10)]: every file part of field [name] is stored
    under its generated name.  A request multer refuses (more than ten
    files, a file under another field) does not reach the handler. *)
Definition upload_array (name : string) (parts : list part) : list file :=
  map (fun p => File name (part_originalname p)
                     (filename (part_now p) (part_rnd p) name (part_originalname p)))
      parts.

(** [`/uploads/${file.filename}`] *)
Definition upload_url (f : file) : string := "/uploads/" ++ file_filename f.

(** [(req.files || []).map((file) => `/uploads/${file.filename}`)] *)
Definition image_urls (files : option (list file)) : list string :=
  map upload_url (match files with Some l => l | None => [] end).

End ImageStore.

(* ================================================================== *)
(** * What both revisions share: requests and the admin gate          *)
(* ================================================================== *)

Module Http.
Import Js ImageStore.

(** The text fields of the multipart form, each a string or absent. *)
Record body : Type := Body {
  adminPassword : option string;
  title : option string;
  category : option string;
  content : option string;
  affiliateLink : option string
}.

(** A request as the POST and PUT handlers see it, after [upload.array]. *)
Record request : Type := Request {
  req_body : body;
  req_files : option (list file)
}.

(** [a !== b] for two values that are strings or [undefined]. *)
Definition strict_neq (a b : option string) : bool :=
  match a, b with
  | Some x, Some y => negb (x =? y)
  | None, None => false
  | _, _ => true
  end.

(** [a !== b] for a value of a JSON body (or [undefined]) against a string
    (or [undefined]). *)
Definition strict_neq_val (a : option jsval) (b : option string) : bool :=
  match a, b with
  | Some (JStr x), Some y => negb (x =? y)
  | None, None => false
  | _, _ => true
  end.

(** [!title || !content] *)
Definition missing_required (b : body) : bool :=
  negb (truthy_str (title b)) || negb (truthy_str (content b)).

(** [x || ""] where [x] is [l[0]]. *)
Definition first_or_empty (l : list string) : string :=
  match l with
  | x :: _ => if truthy (JStr x) then x else ""
  | [] => ""
  end.

End Http.

(** The JSON bodies the handlers answer with, and the status they set
    ([res.json] alone leaves it at 200). *)
Module Reply.

Inductive payload (post : Type) : Type :=
| Posts (l : list post)                 (* the array of posts *)
| SuccessPost (p : post)                (* {success: true, post} *)
| Success                               (* {success: true} *)
| Error (msg : string).                 (* {error: msg} *)

Arguments Posts {post} l.
Arguments SuccessPost {post} p.
Arguments Success {post}.
Arguments Error {post} msg.

Record response (post : Type) : Type := Res {
  status : nat;
  json : payload post
}.

Arguments Res {post} status json.
Arguments status {post} r.
Arguments json {post} r.

(** The posts a response returns. *)
Definition posts_of {post : Type} (r : response post) : list post :=
  match json r with
  | Posts l => l
  | SuccessPost p => [p]
  | Success => []
  | Error _ => []
  end.

End Reply.

(* ================================================================== *)
(** * The earlier revision: posts kept in [posts.json]                 *)
(* ================================================================== *)

Module FileServer.
Import Js ImageStore Http Reply.

(** A post object of [posts.json].  A key is [None] when the object does
    not have it (a key whose value is [undefined] is not written by
    [JSON.stringify]).  A date is held as the instant its ISO 8601 text
    denotes, in milliseconds. *)
Record post : Type := Post {
  id : Z;
  post_title : option string;
  post_category : option string;
  post_content : option string;
  images : option (list string);
  imageUrl : option string;
  post_affiliateLink : option string;
  date : Z;
  updatedAt : option Z
}.

(** The rule of the data model: [imageUrl] is the first of [images], and
    the empty string when [images] is empty. *)
Definition first_image_rule (p : post) : Prop :=
  exists l, images p = Some l
            /\ imageUrl p = Some (match l with x :: _ => x | [] => "" end).

(** [POSTS_FILE]: [None] while the file does not exist (or is empty);
    otherwise the array its JSON text encodes. *)
Definition posts_file : Type := option (list post).

Definition readPosts (f : posts_file) : list post :=
  match f with
  | None => []
  | Some posts => posts
  end.

Definition writePosts (posts : list post) : posts_file := Some posts.

(** [(a, b) => new Date(b.date) - new Date(a.date)] *)
Definition newest_first (a b : post) : Z := (date b - date a)%Z.

(** [posts.findIndex((p) => p.id === postId)], together with [posts[idx]]
    for the index found; [None] is the -1 of no match. *)
Fixpoint findIndex (postId : Z) (posts : list post) : option (nat * post) :=
  match posts with
  | [] => None
  | p :: r =>
    if (id p =? postId)%Z then Some (O, p)
    else match findIndex postId r with
         | Some (i, q) => Some (S i, q)
         | None => None
         end
  end.

(** [posts[idx] = p] for an index inside the array. *)
Fixpoint assign (idx : nat) (p : post) (posts : list post) : list post :=
  match posts, idx with
  | [], _ => []
  | _ :: r, O => p :: r
  | q :: r, S i => q :: assign i p r
  end.

Section Handlers.

(** [process.env.ADMIN_PASSWORD]: a string, or [undefined] when the
    variable is not set. *)
Variable ADMIN_PASSWORD : option string.

(** GET /api/posts *)
Definition get_posts (f : posts_file) : response post :=
  let posts := readPosts f in
  Res 200 (Posts (sort_by newest_first posts)).

(** POST /api/posts.  [now_id] is the value of [Date.now()], [now_date] the
    instant [new Date()] reads right after it. *)
Definition post_posts (now_id now_date : Z) (req : request) (f : posts_file)
  : posts_file * response post :=
  let b := req_body req in
  if strict_neq (adminPassword b) ADMIN_PASSWORD then
    (f, Res 401 (Error "Unauthorized"))
  else if missing_required b then
    (f, Res 400 (Error "Title and content are required"))
  else
    let posts := readPosts f in
    let imageUrls := image_urls (req_files req) in
    let newPost := {|
      id := now_id;
      post_title := title b;
      post_category := Some (or_empty (category b));
      post_content := content b;
      images := Some imageUrls;
      imageUrl := Some (first_or_empty imageUrls);
      post_affiliateLink := Some (or_empty (affiliateLink b));
      date := now_date;
      updatedAt := None
    |} in
    (writePosts (posts ++ [newPost])%list, Res 200 (SuccessPost newPost)).

(** PUT /api/posts/:id.  [postId] is [Number(req.params.id)], [now] the
    instant [new Date()] reads. *)
Definition put_post (now : Z) (postId : Z) (req : request) (f : posts_file)
  : posts_file * response post :=
  let b := req_body req in
  if strict_neq (adminPassword b) ADMIN_PASSWORD then
    (f, Res 401 (Error "Unauthorized"))
  else if missing_required b then
    (f, Res 400 (Error "Title and content are required"))
  else
    let posts := readPosts f in
    match findIndex postId posts with
    | None => (f, Res 404 (Error "Post not found"))
    | Some (idx, existingPost) =>
      let newImageUrls := image_urls (req_files req) in
      let finalImages :=
        match newImageUrls with
        | _ :: _ => newImageUrls
        | [] => match images existingPost with Some l => l | None => [] end
        end in
      let finalImageUrl :=
        match newImageUrls with
        | first :: _ => first
        | [] =>
          if truthy_str (imageUrl existingPost)
          then or_empty (imageUrl existingPost)
          else match images existingPost with
               | Some l => first_or_empty l
               | None => ""
               end
        end in
      let updated := {|
        id := id existingPost;
        post_title := title b;
        post_category := category b;
        post_content := content b;
        images := Some finalImages;
        imageUrl := Some finalImageUrl;
        post_affiliateLink := affiliateLink b;
        date := date existingPost;
        updatedAt := Some now
      |} in
      (writePosts (assign idx updated posts), Res 200 (SuccessPost updated))
    end.

(** DELETE /api/posts/:id, with its JSON body's [adminPassword]. *)
Definition delete_post (postId : Z) (password : option jsval) (f : posts_file)
  : posts_file * response post :=
  if strict_neq_val password ADMIN_PASSWORD then
    (f, Res 401 (Error "Unauthorized"))
  else
    let posts := readPosts f in
    let originalLength := List.length posts in
    let posts' := filter (fun p => negb (id p =? postId)%Z) posts in
    if (List.length posts' =? originalLength)%nat then
      (f, Res 404 (Error "Post not found"))
    else
      (writePosts posts', Res 200 Success).

(** ** The server as a machine *)

Inductive event : Type :=
| GetPosts
| PostPosts (now_id now_date : Z) (req : request)
| PutPost (now : Z) (postId : Z) (req : request)
| DeletePost (postId : Z) (password : option jsval).

(** Each event carries what the clock reads while it is handled.  A world
    is the file, the time of the last request, and (for the statement of
    properties only) every id a create has answered with so far. *)
Record world : Type := World {
  file_of : posts_file;
  clock : Z;
  issued : list Z
}.

Definition initial : world := World None 0 [].

(** Ids a response hands out: that of the post of a successful create. *)
Definition created_id (e : event) (r : response post) : list Z :=
  match e, json r with
  | PostPosts _ _ _, SuccessPost p => [id p]
  | _, _ => []
  end.

Definition exec (w : world) (e : event) : world * response post :=
  match e with
  | GetPosts => (w, get_posts (file_of w))
  | PostPosts now_id now_date req =>
    let '(f, r) := post_posts now_id now_date req (file_of w) in
    (World f now_date (issued w ++ created_id e r)%list, r)
  | PutPost now postId req =>
    let '(f, r) := put_post now postId req (file_of w) in
    (World f now (issued w), r)
  | DeletePost postId password =>
    let '(f, r) := delete_post postId password (file_of w) in
    (World f (clock w) (issued w), r)
  end.

(** The clock does not run backwards. *)
Definition timely (w : world) (e : event) : Prop :=
  match e with
  | GetPosts => True
  | PostPosts now_id now_date _ => (clock w <= now_id /\ now_id <= now_date)%Z
  | PutPost now _ _ => (clock w <= now)%Z
  | DeletePost _ _ => True
  end.

Inductive reachable : world -> Prop :=
| reach_initial : reachable initial
| reach_step w e : reachable w -> reachable (fst (exec w e)).

(** The worlds reached while the clock never ran backwards. *)
Inductive on_time : world -> Prop :=
| on_time_initial : on_time initial
| on_time_step w e : on_time w -> timely w e -> on_time (fst (exec w e)).

End Handlers.

End FileServer.

(* ================================================================== *)
(** * The current revision: posts kept in a PostgreSQL table           *)
(* ================================================================== *)

Module PgServer.
Import Js ImageStore Http Reply.

(** A row of [posts] as the [pg] driver hands it over: one field per
    column the queries select.  A text column reads as a string or as
    [null] ([None]); the [images] column, of type [jsonb], as the value
    of its JSON document ([JNull] for SQL NULL as well); a timestamp
    column as the instant, in milliseconds, or as [null]. *)
Record row : Type := Row {
  row_id : Z;
  row_title : option string;
  row_category : option string;
  row_content : option string;
  row_images : jsval;
  image_url : option string;
  affiliate_link : option string;
  created_at : option Z;
  updated_at : option Z
}.

(** A post in API form. *)
Record post : Type := Post {
  id : Z;
  post_title : option string;
  post_category : string;
  post_content : option string;
  images : jsval;
  imageUrl : jsval;
  post_affiliateLink : string;
  date : option Z;
  updatedAt : option Z
}.

(** The rule of the data model: [imageUrl] is the first of [images], and
    the empty string when [images] is empty. *)
Definition first_image_rule (p : post) : Prop :=
  match images p with
  | JArr [] => imageUrl p = JStr ""
  | JArr (x :: _) => imageUrl p = x
  | _ => False
  end.

(** Newest first: [p] may stand before [q].  A post without a creation
    time stands before all others, as PostgreSQL puts nulls first in a
    descending order. *)
Definition newest_first (p q : post) : Prop :=
  match date p, date q with
  | Some x, Some y => (y <= x)%Z
  | None, _ => True
  | Some _, None => False
  end.

(** The normalisation of [row.images] that opens [mapDbPost], and that the
    PUT handler repeats word for word on [existing.images]:
    an array is taken as it is; a string that is not blank is parsed, and
    gives [[]] when [JSON.parse] throws; anything else gives [[]]. *)
Definition normalize (v : jsval) : jsval :=
  match v with
  | JArr _ => v
  | JStr s =>
    if trim_nonempty s then
      match JSON_parse s with
      | Some parsed => parsed
      | None => JArr []
      end
    else JArr []
  | _ => JArr []
  end.

(** A row as the handlers write it: [images] is an array of strings and
    [image_url] its first element, or the empty string. *)
Definition row_rule (r : row) : Prop :=
  exists l, row_images r = strings l
            /\ image_url r = Some (match l with x :: _ => x | [] => "" end).

(** [image_url || (images[0] || "")]; [None] when [images[0]] throws. *)
Definition url_or_first (url : option string) (imgs : jsval) : option jsval :=
  if truthy_str url then Some (JStr (or_empty url))
  else
    match index0 imgs with
    | TypeError => None
    | Value x => Some (if truthy x then x else JStr "")
    | Undefined => Some (JStr "")
    end.

(** [mapDbPost(row)]; [None] when it throws.  The queries select no [date]
    column, so [row.created_at || row.date] is [row.created_at] or
    [undefined]. *)
Definition mapDbPost (r : row) : option post :=
  let imgs := normalize (row_images r) in
  let createdAt := created_at r in
  let updatedAt := updated_at r in
  match url_or_first (image_url r) imgs with
  | None => None
  | Some url =>
    Some {|
      id := row_id r;
      post_title := row_title r;
      post_category := or_empty (row_category r);
      post_content := row_content r;
      images := imgs;
      imageUrl := url;
      post_affiliateLink := or_empty (affiliate_link r);
      date := createdAt;
      updatedAt := updatedAt
    |}
  end.

(** [rows.map(mapDbPost)]: throws as soon as one call does. *)
Fixpoint map_mapDbPost (rows : list row) : option (list post) :=
  match rows with
  | [] => Some []
  | r :: rest =>
    match mapDbPost r with
    | None => None
    | Some p =>
      match map_mapDbPost rest with
      | None => None
      | Some ps => Some (p :: ps)
      end
    end
  end.

(** ** The database *)

(** Modelled from the spec: the schema of [posts] (its CREATE TABLE) is not
    among the sources.  Following section 6 of the specification, [id] is a
    primary key that the storage assigns from a sequence, [images] holds a
    JSON document, the created timestamp is set by the storage when the row
    is inserted, and the updated timestamp is null until an update sets it.
    The database is its table, in insertion order, and the next value of
    the sequence. *)
Record database : Type := Db {
  table : list row;
  posts_id_seq : Z
}.

(** How [pg] writes a query parameter as text ([prepareValue]); [None] is
    SQL NULL. *)
Definition escapeElement (s : string) : string :=
  let fix esc (s : string) : string :=
    match s with
    | EmptyString => ""
    | String c r =>
      if ((code c =? 92) || (code c =? 34))%N
      then String bslash (String c (esc r))
      else String c (esc r)
    end in
  quot ++ esc s ++ quot.

(** One element of an array literal ([arrayString] writes a nested array
    by a call to itself). *)
Fixpoint arrayElement (v : jsval) : string :=
  match v with
  | JNull => "NULL"
  | JArr l => "{" ++ join "," (map arrayElement l) ++ "}"
  | JStr s => escapeElement s
  | JBool true => escapeElement "true"
  | JBool false => escapeElement "false"
  | JNum d => escapeElement (number_to_string d)
  | JObj _ => escapeElement (JSON_stringify v)
  end.

Definition arrayString (l : list jsval) : string :=
  "{" ++ join "," (map arrayElement l) ++ "}".

Definition prepareValue (v : jsval) : option string :=
  match v with
  | JNull => None
  | JStr s => Some s
  | JBool true => Some "true"
  | JBool false => Some "false"
  | JNum d => Some (number_to_string d)
  | JArr l => Some (arrayString l)
  | JObj _ => Some (JSON_stringify v)
  end.

(** [ORDER BY created_at DESC]: nulls come first. *)
Definition created_at_desc (a b : row) : Z :=
  match created_at a, created_at b with
  | None, None => 0
  | None, Some _ => -1
  | Some _, None => 1
  | Some x, Some y => y - x
  end%Z.

(** SELECT ... FROM posts ORDER BY created_at DESC *)
Definition select_posts (d : database) : list row :=
  sort_by created_at_desc (table d).

(** INSERT INTO posts (title, category, content, images, image_url,
    affiliate_link) VALUES ($1 .. $6) RETURNING ...  The columns the
    statement does not list take their defaults, as the schema modelled
    above gives them: [id] the next value of the sequence, the created
    timestamp the clock of the database ([db_now]), the updated timestamp
    null.  The statement fails ([None]) when [$4] is not JSON text. *)
Definition insert_post (db_now : Z) (p1 : option string) (p2 : string)
    (p3 : option string) (p4 : string) (p5 p6 : string) (d : database)
  : option (database * list row) :=
  match JSON_parse p4 with
  | None => None
  | Some doc =>
    let r := Row (posts_id_seq d) p1 (Some p2) p3 doc (Some p5) (Some p6)
                 (Some db_now) None in
    Some (Db (table d ++ [r])%list (posts_id_seq d + 1), [r])
  end.

(** SELECT ... FROM posts WHERE id = $1 *)
Definition select_post (postId : Z) (d : database) : list row :=
  filter (fun r => (row_id r =? postId)%Z) (table d).

(** UPDATE posts SET title = $1, category = $2, content = $3,
    affiliate_link = $4, images = $5, image_url = $6, updated_at = $7
    WHERE id = $8 RETURNING ... *)
Definition update_post (p1 : option string) (p2 : string) (p3 : option string)
    (p4 : string) (p5 : string) (p6 : option string) (p7 : Z) (p8 : Z)
    (d : database) : option (database * list row) :=
  match JSON_parse p5 with
  | None => None
  | Some doc =>
    let set (r : row) : row :=
      Row (row_id r) p1 (Some p2) p3 doc p6 (Some p4) (created_at r) (Some p7) in
    let hit (r : row) : bool := (row_id r =? p8)%Z in
    Some (Db (map (fun r => if hit r then set r else r) (table d)) (posts_id_seq d),
          map set (filter hit (table d)))
  end.

(** DELETE FROM posts WHERE id = $1 RETURNING id *)
Definition delete_from_posts (postId : Z) (d : database) : database * list Z :=
  (Db (filter (fun r => negb (row_id r =? postId)%Z) (table d)) (posts_id_seq d),
   map row_id (filter (fun r => (row_id r =? postId)%Z) (table d))).

Section Handlers.

Variable ADMIN_PASSWORD : option string.

(** Every handler takes, for each [pool.query] it awaits, whether the pool
    serves it ([true]) or rejects it ([false]).  The pool rejects a query
    when the storage is unavailable, and when PostgreSQL refuses the
    statement for a value it carries: a text that holds a NUL byte, an id
    that is not an integer the id column can hold (what [Number] makes of
    abc or of 1.5; 3000000000 in a 32-bit column), a value that breaks a
    constraint of the table.  Which values those are depends on the schema,
    which is not among the sources: the flag stands for the outcome, and a
    property stated for a served query is a property of the requests the
    database accepts. *)

(** GET /api/posts *)
Definition get_posts (up : bool) (d : database) : response post :=
  if up then
    match map_mapDbPost (select_posts d) with
    | Some posts => Res 200 (Posts posts)
    | None => Res 500 (Error "Failed to fetch posts")
    end
  else Res 500 (Error "Failed to fetch posts").

(** POST /api/posts *)
Definition post_posts (db_now : Z) (up : bool) (req : request) (d : database)
  : database * response post :=
  let b := req_body req in
  if strict_neq (adminPassword b) ADMIN_PASSWORD then
    (d, Res 401 (Error "Unauthorized"))
  else if missing_required b then
    (d, Res 400 (Error "Title and content are required"))
  else
    let failed := Res 500 (Error "Failed to create post") in
    let imageUrls := image_urls (req_files req) in
    let imagesJson := JSON_stringify (strings imageUrls) in
    let mainImage := first_or_empty imageUrls in
    match (if up
           then insert_post db_now (title b) (or_empty (category b)) (content b)
                            imagesJson mainImage (or_empty (affiliateLink b)) d
           else None) with
    | None => (d, failed)
    | Some (d', rows) =>
      match rows with
      | [] => (d', failed)
      | r :: _ =>
        match mapDbPost r with
        | Some p => (d', Res 200 (SuccessPost p))
        | None => (d', failed)
        end
      end
    end.

(** PUT /api/posts/:id; [now] is what [new Date()] reads. *)
Definition put_post (now : Z) (up1 up2 : bool) (postId : Z) (req : request)
    (d : database) : database * response post :=
  let b := req_body req in
  if strict_neq (adminPassword b) ADMIN_PASSWORD then
    (d, Res 401 (Error "Unauthorized"))
  else if missing_required b then
    (d, Res 400 (Error "Title and content are required"))
  else
    let failed := Res 500 (Error "Failed to update post") in
    if negb up1 then (d, failed)
    else
      match select_post postId d with
      | [] => (d, Res 404 (Error "Post not found"))
      | existing :: _ =>
        let existingImages := normalize (row_images existing) in
        let newImageUrls := image_urls (req_files req) in
        let finalImages :=
          match newImageUrls with
          | _ :: _ => strings newImageUrls
          | [] => existingImages
          end in
        match (match newImageUrls with
               | first :: _ => Some (JStr first)
               | [] => url_or_first (image_url existing) existingImages
               end) with
        | None => (d, failed)
        | Some finalImageUrl =>
          let updatedAt := now in
          let imagesJson := JSON_stringify finalImages in
          match (if up2
                 then update_post (title b) (or_empty (category b)) (content b)
                                  (or_empty (affiliateLink b)) imagesJson
                                  (prepareValue finalImageUrl) updatedAt postId d
                 else None) with
          | None => (d, failed)
          | Some (d', rows) =>
            match rows with
            | [] => (d', failed)
            | r :: _ =>
              match mapDbPost r with
              | Some p => (d', Res 200 (SuccessPost p))
              | None => (d', failed)
              end
            end
          end
        end
      end.

(** DELETE /api/posts/:id *)
Definition delete_post (up : bool) (postId : Z) (password : option jsval)
    (d : database) : database * response post :=
  if strict_neq_val password ADMIN_PASSWORD then
    (d, Res 401 (Error "Unauthorized"))
  else if negb up then (d, Res 500 (Error "Failed to delete post"))
  else
    let '(d', rows) := delete_from_posts postId d in
    match rows with
    | [] => (d', Res 404 (Error "Post not found"))
    | _ :: _ => (d', Res 200 Success)
    end.

(** ** The server as a machine *)

Inductive event : Type :=
| GetPosts (up : bool)
| PostPosts (db_now : Z) (up : bool) (req : request)
| PutPost (now : Z) (up1 up2 : bool) (postId : Z) (req : request)
| DeletePost (up : bool) (postId : Z) (password : option jsval).

(** The database and (for the statement of properties only) every id a
    create has answered with so far. *)
Record world : Type := World {
  db_of : database;
  issued : list Z
}.

Definition initial : world := World (Db [] 1) [].

Definition created_id (e : event) (r : response post) : list Z :=
  match e, json r with
  | PostPosts _ _ _, SuccessPost p => [id p]
  | _, _ => []
  end.

Definition exec (w : world) (e : event) : world * response post :=
  match e with
  | GetPosts up => (w, get_posts up (db_of w))
  | PostPosts db_now up req =>
    let '(d, r) := post_posts db_now up req (db_of w) in
    (World d (issued w ++ created_id e r)%list, r)
  | PutPost now up1 up2 postId req =>
    let '(d, r) := put_post now up1 up2 postId req (db_of w) in
    (World d (issued w), r)
  | DeletePost up postId password =>
    let '(d, r) := delete_post up postId password (db_of w) in
    (World d (issued w), r)
  end.

Inductive reachable : world -> Prop :=
| reach_initial : reachable initial
| reach_step w e : reachable w -> reachable (fst (exec w e)).

End Handlers.

End PgServer.

(* ================================================================== *)
(** * Sample requests                                                  *)
(* ================================================================== *)

Module Sample.
Import Js ImageStore Http.

Definition secret : option string := Some "s3cret".

(** Two files, stored in the same millisecond. *)
Definition two_images : list file :=
  upload_array "images" [Part "x.png" 1000 5; Part "y.png" 1000 6].

(** Title and content, the right secret, no file. *)
Definition create_AB : request :=
  Request (Body (Some "s3cret") (Some "A") None (Some "B") None) None.

(** The same with a category and two files. *)
Definition create_with_images : request :=
  Request (Body (Some "s3cret") (Some "A") (Some "Gear") (Some "B") None)
          (Some two_images).

(** An update that sends title and content only. *)
Definition update_New : request :=
  Request (Body (Some "s3cret") (Some "New") None (Some "C") None) None.

(** Title and content, but no [adminPassword] at all. *)
Definition create_anonymous : request :=
  Request (Body None (Some "A") None (Some "B") None) None.

(** The right secret and an empty title. *)
Definition untitled : request :=
  Request (Body (Some "s3cret") (Some "") None (Some "B") None) None.

(** A wrong secret and no content. *)
Definition intruder : request :=
  Request (Body (Some "guess") (Some "A") None None None) None.

End Sample.

(* ================================================================== *)
(** * The JSON body of a DELETE request                                *)
(* ================================================================== *)

Module DeleteBody.
Import Js.

(** [JSON.stringify({ adminPassword })]: the body the admin page sends
    with its DELETE request ([public/admin.js]), as the bytes of its UTF-8
    encoding. *)
Definition body_text (adminPassword : string) : string :=
  JSON_stringify (JObj [("adminPassword", JStr adminPassword)]).

(** The limit [express.json()] puts on a body when it is given none:
    100kb, in bytes. *)
Definition limit : N := 102400.

(** The byte order mark, as UTF-8. *)
Definition bom : string := String (char 239) (String (char 187) (String (char 191) "")).

(** [express.json()]: what the body of a request of type application/json
    (in UTF-8, not compressed) reads as in [req.body]; [None] when the
    request is answered before it reaches the handler.  A body above the
    limit is answered 413.  The bytes are decoded, which drops a byte
    order mark at their head.  An empty text reads as the empty object.
    In strict mode, the default, a text whose first character past the
    white space is neither a brace nor a bracket is answered 400, and so
    is a text [JSON.parse] throws on. *)
Definition express_json (raw : string) : option jsval :=
  if (limit <? N.of_nat (String.length raw))%N then None
  else
    let text := match strip_prefix bom raw with
                | Some rest => rest
                | None => raw
                end in
    if text =? "" then Some (JObj [])
    else
      match skip_ws text with
      | String c _ =>
        if ((code c =? 123) || (code c =? 91))%N then JSON_parse text else None
      | EmptyString => None
      end.

(** [const { adminPassword } = req.body] *)
Definition adminPassword_of (body : jsval) : option jsval :=
  match body with
  | JObj kv => lookup_last "adminPassword" kv
  | _ => None
  end.

End DeleteBody.

(* ================================================================== *)
(** * Facts about strings                                              *)
(* ================================================================== *)

Section StringFacts.

Lemma append_assoc (a b c : string) : (a ++ b) ++ c = a ++ (b ++ c).
Proof.
  induction a as [|x a IH]; simpl; [reflexivity | now rewrite IH].
Qed.

Lemma append_nil_r (a : string) : a ++ "" = a.
Proof.
  induction a as [|x a IH]; simpl; [reflexivity | now rewrite IH].
Qed.

Lemma length_append (a b : string) :
  String.length (a ++ b) = String.length a + String.length b.
Proof.
  induction a as [|x a IH]; simpl; [reflexivity | now rewrite IH].
Qed.

Lemma append_inv_head (a b c : string) : a ++ b = a ++ c -> b = c.
Proof.
  induction a as [|x a IH]; simpl; intros H; [exact H|].
  injection H as H. auto.
Qed.

End StringFacts.

(* ================================================================== *)
(** * The sort is a stable rearrangement into comparator order          *)
(* ================================================================== *)

Section SortFacts.

Context {A : Type} (cmp : A -> A -> Z).

Lemma sort_insert_perm (x : A) (l : list A) :
  Permutation (x :: l) (sort_insert cmp x l).
Proof.
  induction l as [|y l IH]; simpl.
  - apply Permutation_refl.
  - destruct (0 <? cmp x y)%Z.
    + eapply perm_trans; [apply perm_swap|]. now apply perm_skip.
    + apply Permutation_refl.
Qed.

Lemma sort_by_perm (l : list A) : Permutation l (sort_by cmp l).
Proof.
  induction l as [|x l IH]; simpl.
  - apply perm_nil.
  - eapply perm_trans; [apply perm_skip, IH|]. apply sort_insert_perm.
Qed.

Lemma sort_by_In (l : list A) (x : A) : In x (sort_by cmp l) <-> In x l.
Proof.
  split; apply Permutation_in;
    [apply Permutation_sym|]; apply sort_by_perm.
Qed.

(** [a] may stand before [b]. *)
Let before (a b : A) : Prop := (cmp a b <= 0)%Z.

Hypothesis cmp_asym : forall a b, (0 < cmp a b -> cmp b a <= 0)%Z.

Lemma sort_insert_sorted (x : A) (l : list A) :
  Sorted before l -> Sorted before (sort_insert cmp x l).
Proof.
  induction l as [|y l IH]; simpl; intros Hs.
  - repeat constructor.
  - destruct (Z.ltb_spec 0 (cmp x y)) as [Hlt|Hge].
    + inversion Hs as [|? ? Hs' Hhd]; subst.
      constructor; [now apply IH|].
      destruct l as [|z l]; simpl.
      * constructor. now apply cmp_asym.
      * destruct (0 <? cmp x z)%Z.
        -- inversion Hhd; subst. now constructor.
        -- constructor. now apply cmp_asym.
    + constructor; [exact Hs|]. constructor. exact Hge.
Qed.

Lemma sort_by_sorted (l : list A) : Sorted before (sort_by cmp l).
Proof.
  induction l as [|x l IH]; simpl.
  - constructor.
  - now apply sort_insert_sorted.
Qed.

Hypothesis cmp_trans :
  forall a b c, (cmp a b <= 0 -> cmp b c <= 0 -> cmp a c <= 0)%Z.

Lemma sort_by_strongly_sorted (l : list A) :
  StronglySorted (fun a b => (cmp a b <= 0)%Z) (sort_by cmp l).
Proof.
  apply Sorted_StronglySorted.
  - intros a b c. apply cmp_trans.
  - apply sort_by_sorted.
Qed.

End SortFacts.

(* ================================================================== *)
(** * [JSON.parse] reads back what [JSON.stringify] writes for an
      array of strings                                                 *)
(* ================================================================== *)

Section JsonRoundTrip.
Import Js.

Lemma parse_quote_char (c : ascii) (r : string) :
  parse_string_body (quote_char c ++ r) = cons_str c (parse_string_body r).
Proof.
  destruct c as [[] [] [] [] [] [] [] []];
    cbn; destruct (parse_string_body r) as [[s rest]|]; reflexivity.
Qed.

Lemma parse_quote_body (s rest : string) :
  parse_string_body (quote_body s ++ quot ++ rest) = Some (s, rest).
Proof.
  induction s as [|c s IH]; simpl quote_body.
  - reflexivity.
  - rewrite append_assoc, parse_quote_char, IH. reflexivity.
Qed.

Lemma parse_value_quote (f : nat) (s rest : string) :
  parse_value (S f) (quote s ++ rest) = Some (JStr s, rest).
Proof.
  unfold quote. rewrite !append_assoc.
  change (quot ++ quote_body s ++ quot ++ rest)
    with (String (char 34) (quote_body s ++ quot ++ rest)).
  cbn -[parse_string_body quote_body append].
  rewrite parse_quote_body. reflexivity.
Qed.


Lemma parse_elements_S (f : nat) (s : string) :
  parse_elements (S f) s =
  match parse_value f s with
  | None => None
  | Some (v, r) =>
    match skip_ws r with
    | EmptyString => None
    | String c r' =>
      if (code c =? 44)%N then
        match parse_elements f r' with
        | Some (l, r'') => Some (v :: l, r'')
        | None => None
        end
      else if (code c =? 93)%N then Some ([v], r')
      else None
    end
  end.
Proof. reflexivity. Qed.

Lemma parse_elements_quotes (l : list string) :
  forall (x : string) (f : nat) (rest : string),
    List.length l < f ->
    parse_elements (S f) (join "," (map quote (x :: l)) ++ "]" ++ rest)
    = Some (map JStr (x :: l), rest).
Proof.
  induction l as [|y l IH]; intros x f rest Hf;
    (destruct f as [|f]; [simpl in Hf; lia|]); rewrite parse_elements_S.
  - cbn [map join]. rewrite parse_value_quote. reflexivity.
  - change (join "," (map quote (x :: y :: l)))
      with (quote x ++ "," ++ join "," (map quote (y :: l))).
    rewrite !append_assoc, parse_value_quote.
    change ("," ++ join "," (map quote (y :: l)) ++ "]" ++ rest)
      with (String "," (join "," (map quote (y :: l)) ++ "]" ++ rest)).
    cbn [skip_ws]. change (is_json_ws ",") with false. cbv iota.
    change (code "," =? 44)%N with true. cbv iota.
    rewrite IH by (simpl in Hf; lia). reflexivity.
Qed.

Lemma length_join_quotes (l : list string) :
  List.length l <= String.length (join "," (map quote l)).
Proof.
  induction l as [|x l IH]; [simpl; lia|].
  destruct l as [|y l].
  - cbn [map join]. unfold quote. rewrite !length_append. simpl. lia.
  - change (join "," (map quote (x :: y :: l)))
      with (quote x ++ "," ++ join "," (map quote (y :: l))).
    rewrite !length_append. simpl List.length in *. simpl String.length at 2. lia.
Qed.

Lemma stringify_strings (l : list string) :
  JSON_stringify (strings l) = "[" ++ join "," (map quote l) ++ "]".
Proof.
  unfold strings. cbn [JSON_stringify]. rewrite map_map. reflexivity.
Qed.

Lemma parse_value_S_bracket (f : nat) (r : string) :
  parse_value (S f) (String "[" r) =
  match strip_prefix "]" (skip_ws r) with
  | Some r' => Some (JArr [], r')
  | None =>
    match parse_elements f r with
    | Some (l, r') => Some (JArr l, r')
    | None => None
    end
  end.
Proof. reflexivity. Qed.

Lemma skip_ws_quote (s : string) : skip_ws (quot ++ s) = quot ++ s.
Proof. reflexivity. Qed.

(** Whatever array of strings a handler serialises, the text parses, and
    parses to that array. *)
Lemma parse_stringify_strings (l : list string) :
  JSON_parse (JSON_stringify (strings l)) = Some (strings l).
Proof.
  rewrite stringify_strings. unfold JSON_parse.
  set (text := "[" ++ join "," (map quote l) ++ "]").
  assert (Hlen : List.length l <= String.length text).
  { subst text. rewrite !length_append. pose proof (length_join_quotes l). simpl. lia. }
  remember (2 * String.length text + 2) as fuel eqn:Hfuel.
  destruct fuel as [|f]; [lia|].
  destruct l as [|x l].
  - subst text. reflexivity.
  - assert (Hp : parse_value (S f) text = Some (strings (x :: l), "")).
    { subst text.
      change ("[" ++ join "," (map quote (x :: l)) ++ "]")
        with (String "[" (join "," (map quote (x :: l)) ++ "]" ++ "")).
      rewrite parse_value_S_bracket.
      assert (Hq : exists t, join "," (map quote (x :: l)) ++ "]" ++ "" = quot ++ t).
      { destruct l; cbn [map join]; unfold quote; rewrite ?append_assoc; eauto. }
      destruct Hq as [t Hq]. rewrite Hq at 1. rewrite skip_ws_quote.
      change (strip_prefix "]" (quot ++ t)) with (@None string).
      destruct f as [|f]; [simpl in *; lia|].
      rewrite parse_elements_quotes by (simpl in *; lia). reflexivity. }
    rewrite Hp. reflexivity.
Qed.

End JsonRoundTrip.

(* ================================================================== *)
(** * The fuel of [JSON.parse] never runs out                           *)
(* ================================================================== *)

Section JsonFuel.
Import Js.

Lemma skip_ws_length (s : string) : String.length (skip_ws s) <= String.length s.
Proof.
  induction s as [|c s IH]; simpl; [lia|].
  destruct (is_json_ws c); simpl; lia.
Qed.

Lemma strip_prefix_length (p : string) :
  forall s r, strip_prefix p s = Some r ->
              String.length s = String.length p + String.length r.
Proof.
  induction p as [|a p IH]; intros [|b s] r; simpl; try discriminate.
  - now intros [= <-].
  - now intros [= <-].
  - destruct (Ascii.eqb a b); [|discriminate]. intros H. now rewrite (IH _ _ H).
Qed.

Lemma cons_str_Some (c : ascii) (o : option (string * string)) (str r : string) :
  cons_str c o = Some (str, r) -> exists str', o = Some (str', r).
Proof. destruct o as [[a b]|]; simpl; [|discriminate]. intros [= <- <-]. eauto. Qed.

Lemma app_str_Some (p : string) (o : option (string * string)) (str r : string) :
  app_str p o = Some (str, r) -> exists str', o = Some (str', r).
Proof. destruct o as [[a b]|]; simpl; [|discriminate]. intros [= <- <-]. eauto. Qed.

Lemma parse_string_body_length (n : nat) :
  forall s str r, String.length s <= n -> parse_string_body s = Some (str, r) ->
                  String.length r < String.length s.
Proof.
  induction n as [|n IH]; intros [|c s] str r Hn; simpl; try discriminate.
  - simpl in Hn. lia.
  - simpl in Hn.
    destruct (code c =? 34)%N; [intros [= <- <-]; lia|].
    destruct (code c =? 92)%N.
    + destruct s as [|e r1]; [discriminate|].
      destruct (simple_escape e).
      * intros H. apply cons_str_Some in H as [str' H].
        apply IH in H; simpl in *; lia.
      * destruct (code e =? 117)%N; [|discriminate].
        destruct r1 as [|a [|b [|c' [|d r2]]]]; try discriminate.
        destruct (hex4 a b c' d) as [m|]; [|discriminate].
        destruct (if is_high_surrogate m then low_escape r2 else None) as [lo|].
        -- destruct r2 as [|x1 [|x2 [|x3 [|x4 [|x5 [|x6 r3]]]]]];
             intros H; apply app_str_Some in H as [str' H];
             apply IH in H; simpl in *; lia.
        -- intros H; apply app_str_Some in H as [str' H];
             apply IH in H; simpl in *; lia.
    + destruct (code c <? 32)%N; [discriminate|].
      intros H. apply cons_str_Some in H as [str' H].
      apply IH in H; simpl in *; lia.
Qed.

Lemma parse_digits_length (s : string) :
  forall acc count n k r,
    parse_digits s acc count = (n, k, r) ->
    String.length r + k = String.length s + count /\ count <= k.
Proof.
  induction s as [|c s IH]; intros acc count n k r; simpl.
  - intros [= <- <- <-]. simpl. lia.
  - destruct (digit_val c).
    + intros H. apply IH in H. lia.
    + intros [= <- <- <-]. simpl. lia.
Qed.

Lemma parse_number_length (s : string) (d : number) (r : string) :
  parse_number s = Some (d, r) -> String.length r < String.length s.
Proof.
  unfold parse_number.
  set (p := match s with
            | String c r0 => if (code c =? 45)%N then (true, r0) else (false, s)
            | EmptyString => (false, s)
            end).
  assert (Hp : String.length (snd p) <= String.length s).
  { subst p. destruct s as [|c s']; simpl; [lia|].
    destruct (code c =? 45)%N; simpl; lia. }
  destruct p as [sgn s1]. simpl in Hp.
  destruct (parse_int s1) as [[i s2]|] eqn:Hi; [|discriminate].
  assert (H2 : String.length s2 < String.length s1).
  { unfold parse_int in Hi. destruct s1 as [|c s1']; [discriminate|].
    destruct (digit_val c) as [dv|]; [|discriminate].
    destruct (dv =? 0)%N.
    - injection Hi as <- <-. simpl. lia.
    - destruct (parse_digits s1' dv 1) as [[n k] rest] eqn:Hd.
      injection Hi as <- <-. apply parse_digits_length in Hd. simpl. lia. }
  destruct (parse_frac i s2) as [[[m k] s3]|] eqn:Hf; [|discriminate].
  assert (H3 : String.length s3 <= String.length s2).
  { unfold parse_frac in Hf. destruct s2 as [|c s2']; [injection Hf as <- <- <-; simpl; lia|].
    destruct (code c =? 46)%N.
    - destruct (parse_digits s2' i 0) as [[n k'] rest] eqn:Hd.
      destruct k'; [discriminate|]. injection Hf as <- <- <-.
      apply parse_digits_length in Hd. simpl. lia.
    - injection Hf as <- <- <-. simpl. lia. }
  destruct (parse_exp s3) as [[e s4]|] eqn:He; [|discriminate].
  assert (H4 : String.length s4 <= String.length s3).
  { unfold parse_exp in He. destruct s3 as [|c s3']; [injection He as <- <-; simpl; lia|].
    destruct (_ || _).
    - set (q := match s3' with
                | String c1 r' =>
                  if (code c1 =? 45)%N then (true, r')
                  else if (code c1 =? 43)%N then (false, r') else (false, s3')
                | EmptyString => (false, s3')
                end) in He.
      assert (Hq : String.length (snd q) <= String.length s3').
      { subst q. destruct s3' as [|c1 r']; simpl; [lia|].
        destruct (code c1 =? 45)%N; simpl; [lia|].
        destruct (code c1 =? 43)%N; simpl; lia. }
      destruct q as [sg r1]. simpl in Hq.
      destruct (parse_digits r1 0 0) as [[n k'] rest] eqn:Hd.
      destruct k'; [discriminate|]. injection He as <- <-.
      apply parse_digits_length in Hd. simpl. lia.
    - injection He as <- <-. simpl. lia. }
  intros [= <- <-]. lia.
Qed.


Lemma parse_value_S (f : nat) (s : string) :
  parse_value (S f) s =
  match skip_ws s with
  | EmptyString => None
  | String c r =>
    if (code c =? 91)%N then
      match strip_prefix "]" (skip_ws r) with
      | Some r' => Some (JArr [], r')
      | None =>
        match parse_elements f r with
        | Some (l, r') => Some (JArr l, r')
        | None => None
        end
      end
    else if (code c =? 123)%N then
      match strip_prefix "}" (skip_ws r) with
      | Some r' => Some (JObj [], r')
      | None =>
        match parse_members f r with
        | Some (kv, r') => Some (JObj kv, r')
        | None => None
        end
      end
    else if (code c =? 34)%N then
      match parse_string_body r with
      | Some (str, r') => Some (JStr str, r')
      | None => None
      end
    else
      match strip_prefix "null" (String c r) with
      | Some r' => Some (JNull, r')
      | None =>
        match strip_prefix "true" (String c r) with
        | Some r' => Some (JBool true, r')
        | None =>
          match strip_prefix "false" (String c r) with
          | Some r' => Some (JBool false, r')
          | None =>
            match parse_number (String c r) with
            | Some (d, r') => Some (JNum d, r')
            | None => None
            end
          end
        end
      end
  end.
Proof.
  cbn [parse_value]. destruct (skip_ws s); reflexivity.
Qed.

Lemma parse_members_S (f : nat) (s : string) :
  parse_members (S f) s =
  match strip_prefix quot (skip_ws s) with
  | None => None
  | Some r0 =>
    match parse_string_body r0 with
    | None => None
    | Some (k, r1) =>
      match strip_prefix ":" (skip_ws r1) with
      | None => None
      | Some r2 =>
        match parse_value f r2 with
        | None => None
        | Some (v, r3) =>
          match skip_ws r3 with
          | EmptyString => None
          | String c r' =>
            if (code c =? 44)%N then
              match parse_members f r' with
              | Some (kv, r'') => Some ((k, v) :: kv, r'')
              | None => None
              end
            else if (code c =? 125)%N then Some ([(k, v)], r')
            else None
          end
        end
      end
    end
  end.
Proof. reflexivity. Qed.

(** A parse that succeeds with some fuel consumes at least one character
    and succeeds, with the same result, with any fuel above twice the number
    of characters it consumes. *)
Lemma parse_fuel (f : nat) :
  (forall s v r, parse_value f s = Some (v, r) ->
     String.length r < String.length s
     /\ forall g, 2 * (String.length s - String.length r) <= g + 2 ->
                  parse_value (S g) s = Some (v, r))
  /\ (forall s l r, parse_elements f s = Some (l, r) ->
     String.length r + 1 < String.length s
     /\ forall g, 2 * (String.length s - String.length r) <= g + 3 ->
                  parse_elements (S g) s = Some (l, r))
  /\ (forall s kv r, parse_members f s = Some (kv, r) ->
     String.length r + 1 < String.length s
     /\ forall g, 2 * (String.length s - String.length r) <= g + 3 ->
                  parse_members (S g) s = Some (kv, r)).
Proof.
  induction f as [|f (IHv & IHe & IHm)]; [repeat split; discriminate|].
  split; [|split].
  - intros s v r. rewrite parse_value_S.
    pose proof (skip_ws_length s) as Hs.
    destruct (skip_ws s) as [|c t] eqn:Hws; [discriminate|]. simpl in Hs.
    destruct (code c =? 91)%N eqn:H91.
    { pose proof (skip_ws_length t) as Ht.
      destruct (strip_prefix "]" (skip_ws t)) as [r'|] eqn:Hsp.
      - intros [= <- <-]. pose proof (strip_prefix_length _ _ _ Hsp) as Hl.
        simpl in Hl. split; [lia|]. intros g Hg.
        rewrite parse_value_S, Hws, H91, Hsp. reflexivity.
      - destruct (parse_elements f t) as [[l r']|] eqn:He; [|discriminate].
        intros [= <- <-]. destruct (IHe _ _ _ He) as [Hlen Hfuel].
        split; [lia|]. intros g Hg.
        rewrite parse_value_S, Hws, H91, Hsp.
        destruct g as [|g]; [lia|]. rewrite Hfuel by lia. reflexivity. }
    destruct (code c =? 123)%N eqn:H123.
    { pose proof (skip_ws_length t) as Ht.
      destruct (strip_prefix "}" (skip_ws t)) as [r'|] eqn:Hsp.
      - intros [= <- <-]. pose proof (strip_prefix_length _ _ _ Hsp) as Hl.
        simpl in Hl. split; [lia|]. intros g Hg.
        rewrite parse_value_S, Hws, H91, H123, Hsp. reflexivity.
      - destruct (parse_members f t) as [[l r']|] eqn:He; [|discriminate].
        intros [= <- <-]. destruct (IHm _ _ _ He) as [Hlen Hfuel].
        split; [lia|]. intros g Hg.
        rewrite parse_value_S, Hws, H91, H123, Hsp.
        destruct g as [|g]; [lia|]. rewrite Hfuel by lia. reflexivity. }
    destruct (code c =? 34)%N eqn:H34.
    { destruct (parse_string_body t) as [[str r']|] eqn:Hb; [|discriminate].
      intros [= <- <-].
      pose proof (parse_string_body_length _ _ _ _ (le_n _) Hb) as Hlen.
      split; [lia|]. intros g Hg.
      rewrite parse_value_S, Hws, H91, H123, H34, Hb. reflexivity. }
    destruct (strip_prefix "null" (String c t)) as [r'|] eqn:Hnull.
    { intros [= <- <-]. pose proof (strip_prefix_length _ _ _ Hnull) as Hlen.
      simpl in Hlen. split; [lia|]. intros g Hg.
      rewrite parse_value_S, Hws, H91, H123, H34, Hnull. reflexivity. }
    destruct (strip_prefix "true" (String c t)) as [r'|] eqn:Htrue.
    { intros [= <- <-]. pose proof (strip_prefix_length _ _ _ Htrue) as Hlen.
      simpl in Hlen. split; [lia|]. intros g Hg.
      rewrite parse_value_S, Hws, H91, H123, H34, Hnull, Htrue. reflexivity. }
    destruct (strip_prefix "false" (String c t)) as [r'|] eqn:Hfalse.
    { intros [= <- <-]. pose proof (strip_prefix_length _ _ _ Hfalse) as Hlen.
      simpl in Hlen. split; [lia|]. intros g Hg.
      rewrite parse_value_S, Hws, H91, H123, H34, Hnull, Htrue, Hfalse. reflexivity. }
    destruct (parse_number (String c t)) as [[d r']|] eqn:Hnum; [|discriminate].
    intros [= <- <-]. pose proof (parse_number_length _ _ _ Hnum) as Hlen.
    simpl in Hlen. split; [lia|]. intros g Hg.
    rewrite parse_value_S, Hws, H91, H123, H34, Hnull, Htrue, Hfalse, Hnum.
    reflexivity.
  - intros s l r. rewrite parse_elements_S.
    destruct (parse_value f s) as [[v r1]|] eqn:Hv; [|discriminate].
    destruct (IHv _ _ _ Hv) as [Hlen1 Hfuel1].
    pose proof (skip_ws_length r1) as Hr1.
    destruct (skip_ws r1) as [|c r'] eqn:Hws; [discriminate|]. simpl in Hr1.
    destruct (code c =? 44)%N eqn:H44.
    + destruct (parse_elements f r') as [[l' r'']|] eqn:He; [|discriminate].
      intros [= <- <-]. destruct (IHe _ _ _ He) as [Hlen2 Hfuel2].
      split; [lia|]. intros g Hg.
      rewrite parse_elements_S.
      destruct g as [|g]; [lia|].
      rewrite Hfuel1 by lia. rewrite Hws, H44. rewrite Hfuel2 by lia. reflexivity.
    + destruct (code c =? 93)%N eqn:H93; [|discriminate].
      intros [= <- <-]. split; [lia|]. intros g Hg.
      rewrite parse_elements_S.
      destruct g as [|g]; [lia|].
      rewrite Hfuel1 by lia. rewrite Hws, H44, H93. reflexivity.
  - intros s kv r. rewrite parse_members_S.
    pose proof (skip_ws_length s) as Hs.
    destruct (strip_prefix quot (skip_ws s)) as [r0|] eqn:Hq; [|discriminate].
    pose proof (strip_prefix_length _ _ _ Hq) as Hlen0. simpl in Hlen0.
    destruct (parse_string_body r0) as [[k r1]|] eqn:Hk; [|discriminate].
    pose proof (parse_string_body_length _ _ _ _ (le_n _) Hk) as Hlen1.
    pose proof (skip_ws_length r1) as Hr1.
    destruct (strip_prefix ":" (skip_ws r1)) as [r2|] eqn:Hc; [|discriminate].
    pose proof (strip_prefix_length _ _ _ Hc) as Hlen2. simpl in Hlen2.
    destruct (parse_value f r2) as [[v r3]|] eqn:Hv; [|discriminate].
    destruct (IHv _ _ _ Hv) as [Hlen3 Hfuel3].
    pose proof (skip_ws_length r3) as Hr3.
    destruct (skip_ws r3) as [|c r'] eqn:Hws; [discriminate|]. simpl in Hr3.
    destruct (code c =? 44)%N eqn:H44.
    + destruct (parse_members f r') as [[kv' r'']|] eqn:He; [|discriminate].
      intros [= <- <-]. destruct (IHm _ _ _ He) as [Hlen4 Hfuel4].
      split; [lia|]. intros g Hg.
      rewrite parse_members_S, Hq, Hk, Hc.
      destruct g as [|g]; [lia|].
      rewrite Hfuel3 by lia. rewrite Hws, H44. rewrite Hfuel4 by lia. reflexivity.
    + destruct (code c =? 125)%N eqn:H125; [|discriminate].
      intros [= <- <-]. split; [lia|]. intros g Hg.
      rewrite parse_members_S, Hq, Hk, Hc.
      destruct g as [|g]; [lia|].
      rewrite Hfuel3 by lia. rewrite Hws, H44, H125. reflexivity.
Qed.

(** The fuel [JSON_parse] starts with is enough: a text that the descent
    reads with any fuel at all, up to trailing white space, is read by
    [JSON_parse], with the same result. *)
Lemma JSON_parse_complete (f : nat) (text : string) (v : jsval) (r : string) :
  parse_value f text = Some (v, r) -> skip_ws r = "" -> JSON_parse text = Some v.
Proof.
  intros Hp Hr. destruct (proj1 (parse_fuel f) _ _ _ Hp) as [Hlen Hfuel].
  unfold JSON_parse.
  replace (2 * String.length text + 2) with (S (2 * String.length text + 1)) by lia.
  rewrite Hfuel by lia. now rewrite Hr.
Qed.

End JsonFuel.

(* ================================================================== *)
(** * Blank texts are not JSON                                          *)
(* ================================================================== *)

Section BlankText.
Import Js.

(** What a blank text leaves once the JSON white space at its head is
    skipped: nothing, or a text that starts with a vertical tab, a form
    feed, or the first byte of a white-space character beyond ASCII. *)
Lemma skip_ws_blank (s : string) :
  blank s = true ->
  skip_ws s = ""
  \/ exists c r, skip_ws s = String c r
                 /\ (code c = 11 \/ code c = 12 \/ code c = 194 \/ code c = 225
                     \/ code c = 226 \/ code c = 227 \/ code c = 239)%N.
Proof.
  induction s as [|c r IH]; [now left|].
  cbn [blank skip_ws]. unfold is_json_ws.
  destruct (((9 <=? code c) && (code c <=? 13) || (code c =? 32))%N) eqn:Hws.
  - intros Hb.
    destruct (((code c =? 32) || (code c =? 9) || (code c =? 10)
               || (code c =? 13))%N) eqn:Hj; [now apply IH|].
    right. exists c, r. split; [reflexivity|].
    apply Bool.orb_false_iff in Hj as [Hj H13].
    apply Bool.orb_false_iff in Hj as [Hj H10].
    apply Bool.orb_false_iff in Hj as [H32 H9].
    apply N.eqb_neq in H13, H10, H32, H9.
    apply Bool.orb_true_iff in Hws as [Hws|Hws].
    + apply Bool.andb_true_iff in Hws as [Hlo Hhi].
      apply N.leb_le in Hlo, Hhi. lia.
    + apply N.eqb_eq in Hws. lia.
  - intros Hb.
    assert (Hj : ((code c =? 32) || (code c =? 9) || (code c =? 10)
                  || (code c =? 13))%N = false).
    { apply Bool.orb_false_iff in Hws as [Hr H32].
      apply N.eqb_neq in H32.
      apply Bool.andb_false_iff in Hr.
      repeat (apply Bool.orb_false_iff; split); apply N.eqb_neq;
        destruct Hr as [Hr|Hr]; apply N.leb_gt in Hr; lia. }
    rewrite Hj. right. exists c, r. split; [reflexivity|].
    destruct r as [|c1 r1]; [discriminate|].
    destruct (((code c =? 194) && (code c1 =? 160))%N) eqn:H194.
    + apply Bool.andb_true_iff in H194 as [H _]. apply N.eqb_eq in H. lia.
    + destruct r1 as [|c2 r2]; [discriminate|].
      pose proof (N_ascii_bounded c1) as B1. pose proof (N_ascii_bounded c2) as B2.
      fold (code c1) in B1. fold (code c2) in B2.
      match type of Hb with
      | (if ?t then _ else _) = true => destruct t eqn:Hu; [|discriminate]
      end.
      repeat (apply Bool.orb_true_iff in Hu as [Hu|Hu]);
        try (apply N.eqb_eq in Hu; lia).
      apply Bool.andb_true_iff in Hu as [Hlo Hhi].
      apply N.leb_le in Hlo, Hhi. lia.
Qed.

(** [JSON.parse] throws on every blank text, so that the test on
    [row.images.trim()] only spares a call that would end in the same
    [images = []]. *)
Lemma JSON_parse_blank (s : string) : blank s = true -> JSON_parse s = None.
Proof.
  intros Hb. unfold JSON_parse.
  replace (2 * String.length s + 2) with (S (2 * String.length s + 1)) by lia.
  rewrite parse_value_S.
  destruct (skip_ws_blank s Hb) as [->|(c & r & -> & Hc)]; [reflexivity|].
  assert (Hch : c = char (code c)) by (unfold char, code; now rewrite ascii_N_embedding).
  rewrite Hch.
  destruct Hc as [->|[->|[->|[->|[->|[->| ->]]]]]]; reflexivity.
Qed.

End BlankText.

(* ================================================================== *)
(** * The file-backed server                                            *)
(* ================================================================== *)

Section FileServerFacts.
Import Js ImageStore Http Reply FileServer.

Variable pw : option string.

Lemma first_or_empty_hd (l : list string) :
  first_or_empty l = match l with x :: _ => x | [] => "" end.
Proof.
  destruct l as [|x l]; simpl; [reflexivity|].
  destruct (String.eqb_spec x ""); simpl; congruence.
Qed.

Lemma findIndex_spec (postId : Z) (posts : list post) (idx : nat) (q : post) :
  findIndex postId posts = Some (idx, q) ->
  nth_error posts idx = Some q /\ id q = postId.
Proof.
  revert idx; induction posts as [|p r IH]; simpl; intros idx H; [discriminate|].
  destruct (Z.eqb_spec (id p) postId) as [He|Hne].
  - injection H as <- <-. auto.
  - destruct (findIndex postId r) as [[i q']|]; [|discriminate].
    injection H as <- <-. simpl. now apply IH.
Qed.

Lemma findIndex_none (postId : Z) (posts : list post) :
  findIndex postId posts = None <-> Forall (fun p => id p <> postId) posts.
Proof.
  induction posts as [|p r IH]; simpl.
  - split; [constructor | reflexivity].
  - destruct (Z.eqb_spec (id p) postId) as [He|Hne].
    + split; [discriminate|]. intros H; inversion H; contradiction.
    + destruct (findIndex postId r) as [[i q']|].
      * split; [discriminate|]. intros H; inversion H; subst.
        apply IH in H3. discriminate.
      * split; [|reflexivity]. intros _. constructor; [exact Hne|now apply IH].
Qed.

Lemma assign_In (idx : nat) (p x : post) (posts : list post) :
  In x (assign idx p posts) -> x = p \/ In x posts.
Proof.
  revert idx; induction posts as [|q r IH]; intros [|i]; simpl; try tauto.
  - intros [->|H]; auto.
  - intros [->|H]; auto. destruct (IH _ H); auto.
Qed.

Lemma assign_Forall (P : post -> Prop) (idx : nat) (p : post) (posts : list post) :
  P p -> Forall P posts -> Forall P (assign idx p posts).
Proof.
  intros Hp Hall. apply Forall_forall. intros x Hx.
  destruct (assign_In _ _ _ _ Hx) as [->|Hin]; [exact Hp|].
  rewrite Forall_forall in Hall. auto.
Qed.

Lemma nth_error_assign (idx : nat) (p q : post) (posts : list post) :
  nth_error posts idx = Some q -> nth_error (assign idx p posts) idx = Some p.
Proof.
  revert idx; induction posts as [|x r IH]; intros [|i]; simpl; try discriminate; auto.
Qed.

(** The post a create builds obeys the rule. *)
Lemma file_post_posts_rule (now_id now_date : Z) (req : request) (f : posts_file) (p : post) :
  In p (posts_of (snd (post_posts pw now_id now_date req f))) -> first_image_rule p.
Proof.
  unfold post_posts.
  destruct (strict_neq _ _); [simpl; tauto|].
  destruct (missing_required _); [simpl; tauto|].
  simpl. intros [<-|[]]. eexists; split; [reflexivity|].
  simpl. now rewrite first_or_empty_hd.
Qed.

(** The post an update builds obeys the rule as soon as the one it
    replaces does. *)
Lemma file_put_post_rule (now postId : Z) (req : request) (f : posts_file) (p : post) :
  Forall first_image_rule (readPosts f) ->
  In p (posts_of (snd (put_post pw now postId req f))) -> first_image_rule p.
Proof.
  intros Hall. unfold put_post.
  destruct (strict_neq _ _); [simpl; tauto|].
  destruct (missing_required _); [simpl; tauto|].
  destruct (findIndex postId (readPosts f)) as [[idx q]|] eqn:Hfind; [|simpl; tauto].
  apply findIndex_spec in Hfind as [Hnth _].
  apply nth_error_In in Hnth. rewrite Forall_forall in Hall.
  destruct (Hall _ Hnth) as (l & Hl & Hu).
  simpl. intros [<-|[]]. unfold first_image_rule. simpl.
  destruct (image_urls (req_files req)) as [|u us].
  - exists l. split; [now rewrite Hl|]. rewrite Hl, Hu.
    f_equal. unfold truthy_str, or_empty, truthy_str.
    destruct l as [|x l'].
    + reflexivity.
    + destruct (String.eqb_spec x ""); simpl.
      * subst x. reflexivity.
      * reflexivity.
  - eexists; split; reflexivity.
Qed.

Lemma file_post_posts_keeps_rule (now_id now_date : Z) (req : request) (f : posts_file) :
  Forall first_image_rule (readPosts f) ->
  Forall first_image_rule (readPosts (fst (post_posts pw now_id now_date req f))).
Proof.
  intros Hall.
  pose proof (file_post_posts_rule now_id now_date req f) as Hnew.
  unfold post_posts in *.
  destruct (strict_neq _ _); [exact Hall|].
  destruct (missing_required _); [exact Hall|].
  simpl in *. apply Forall_app. split; [exact Hall|].
  constructor; [|constructor]. apply Hnew. now left.
Qed.

Lemma file_put_post_keeps_rule (now postId : Z) (req : request) (f : posts_file) :
  Forall first_image_rule (readPosts f) ->
  Forall first_image_rule (readPosts (fst (put_post pw now postId req f))).
Proof.
  intros Hall.
  pose proof (file_put_post_rule now postId req f) as Hnew.
  specialize (fun p => Hnew p Hall).
  unfold put_post in *.
  destruct (strict_neq _ _); [exact Hall|].
  destruct (missing_required _); [exact Hall|].
  destruct (findIndex postId (readPosts f)) as [[idx q]|]; [|exact Hall].
  simpl in *. apply assign_Forall; [|exact Hall]. apply Hnew. now left.
Qed.

Lemma file_delete_post_keeps_rule (postId : Z) (password : option jsval) (f : posts_file) :
  Forall first_image_rule (readPosts f) ->
  Forall first_image_rule (readPosts (fst (delete_post pw postId password f))).
Proof.
  intros Hall. unfold delete_post.
  destruct (strict_neq_val _ _); [exact Hall|].
  destruct (_ =? _)%nat; [exact Hall|].
  simpl. rewrite Forall_forall in *. intros x Hx.
  apply filter_In in Hx as [Hx _]. auto.
Qed.

(** Every post of the file of a reachable world obeys the rule. *)
Lemma file_reachable_rule (w : world) :
  reachable pw w -> Forall first_image_rule (readPosts (file_of w)).
Proof.
  induction 1 as [|w e Hr IH].
  - constructor.
  - destruct e as [|now_id now_date req|now postId req|postId password]; simpl.
    + exact IH.
    + pose proof (file_post_posts_keeps_rule now_id now_date req _ IH) as H.
      destruct (post_posts _ _ _ _ _); exact H.
    + pose proof (file_put_post_keeps_rule now postId req _ IH) as H.
      destruct (put_post _ _ _ _ _); exact H.
    + pose proof (file_delete_post_keeps_rule postId password _ IH) as H.
      destruct (delete_post _ _ _ _); exact H.
Qed.

Lemma file_returned_posts_rule (w : world) (e : event) (p : post) :
  reachable pw w -> In p (posts_of (snd (exec pw w e))) -> first_image_rule p.
Proof.
  intros Hr. pose proof (file_reachable_rule w Hr) as Hall.
  destruct e as [|now_id now_date req|now postId req|postId password]; simpl.
  - intros Hin. apply sort_by_In in Hin. rewrite Forall_forall in Hall. auto.
  - pose proof (file_post_posts_rule now_id now_date req (file_of w) p) as H.
    destruct (post_posts _ _ _ _ _); exact H.
  - pose proof (file_put_post_rule now postId req (file_of w) p Hall) as H.
    destruct (put_post _ _ _ _ _); exact H.
  - unfold delete_post. destruct (strict_neq_val _ _); [simpl; tauto|].
    destruct (_ =? _)%nat; simpl; tauto.
Qed.

End FileServerFacts.

(* ================================================================== *)
(** * The database-backed server                                        *)
(* ================================================================== *)

Section PgServerFacts.
Import Js ImageStore Http Reply PgServer.

Variable pw : option string.

Lemma or_empty_idem (o : option string) : or_empty (Some (or_empty o)) = or_empty o.
Proof.
  destruct o as [s|]; unfold or_empty, truthy_str; [|reflexivity].
  destruct (String.eqb_spec s ""); simpl; [reflexivity|].
  destruct (String.eqb_spec s ""); simpl; congruence.
Qed.

Lemma url_or_first_strings (l : list string) :
  url_or_first (Some (match l with x :: _ => x | [] => "" end)) (strings l)
  = Some (JStr (match l with x :: _ => x | [] => "" end)).
Proof.
  unfold url_or_first, truthy_str, or_empty, truthy_str.
  destruct l as [|x l]; simpl; [reflexivity|].
  destruct (String.eqb_spec x ""); simpl; [subst x|]; reflexivity.
Qed.

(** A row written by the handlers maps to a post that obeys the rule. *)
Lemma mapDbPost_row_rule (r : row) (l : list string) :
  row_images r = strings l ->
  image_url r = Some (match l with x :: _ => x | [] => "" end) ->
  mapDbPost r = Some {|
    id := row_id r;
    post_title := row_title r;
    post_category := or_empty (row_category r);
    post_content := row_content r;
    images := strings l;
    imageUrl := JStr (match l with x :: _ => x | [] => "" end);
    post_affiliateLink := or_empty (affiliate_link r);
    date := created_at r;
    updatedAt := updated_at r
  |}.
Proof.
  intros Hi Hu. unfold mapDbPost. rewrite Hi, Hu.
  change (normalize (strings l)) with (strings l).
  rewrite url_or_first_strings. reflexivity.
Qed.

Lemma mapDbPost_rule (r : row) :
  row_rule r -> exists p, mapDbPost r = Some p /\ first_image_rule p.
Proof.
  intros (l & Hi & Hu). eexists. split; [apply (mapDbPost_row_rule r l Hi Hu)|].
  unfold first_image_rule. simpl. destruct l; reflexivity.
Qed.

Lemma map_mapDbPost_In (rows : list row) (ps : list post) (p : post) :
  map_mapDbPost rows = Some ps ->
  In p ps <-> exists r, In r rows /\ mapDbPost r = Some p.
Proof.
  revert ps; induction rows as [|r rows IH]; simpl; intros ps H.
  - injection H as <-. simpl. split; [tauto | intros (r & [] & _)].
  - destruct (mapDbPost r) as [q|] eqn:Hq; [|discriminate].
    destruct (map_mapDbPost rows) as [qs|]; [|discriminate].
    injection H as <-. simpl. rewrite (IH qs eq_refl). split.
    + intros [<-|(r' & Hin & Hr')]; eauto.
    + intros (r' & [<-|Hin] & Hr'); [left; congruence | right; eauto].
Qed.

Lemma map_mapDbPost_total (rows : list row) :
  Forall row_rule rows -> exists ps, map_mapDbPost rows = Some ps.
Proof.
  induction 1 as [|r rows Hr _ [ps IH]]; simpl; [eauto|].
  destruct (mapDbPost_rule r Hr) as (p & -> & _). rewrite IH. eauto.
Qed.

(** What a create does once it is let through and the insert is served. *)
Lemma pg_post_posts_served (db_now : Z) (req : request) (d : database) :
  strict_neq (adminPassword (req_body req)) pw = false ->
  missing_required (req_body req) = false ->
  let b := req_body req in
  let urls := image_urls (req_files req) in
  let r := Row (posts_id_seq d) (title b) (Some (or_empty (category b))) (content b)
               (strings urls) (Some (first_or_empty urls))
               (Some (or_empty (affiliateLink b))) (Some db_now) None in
  post_posts pw db_now true req d
  = (Db (table d ++ [r])%list (posts_id_seq d + 1),
     Res 200 (SuccessPost {|
       id := posts_id_seq d;
       post_title := title b;
       post_category := or_empty (category b);
       post_content := content b;
       images := strings urls;
       imageUrl := JStr (first_or_empty urls);
       post_affiliateLink := or_empty (affiliateLink b);
       date := Some db_now;
       updatedAt := None
     |})).
Proof.
  intros Hauth Hval b urls r. unfold post_posts. cbv zeta. rewrite Hauth, Hval.
  unfold insert_post. fold urls. rewrite parse_stringify_strings. fold b. fold r.
  rewrite (mapDbPost_row_rule r urls eq_refl).
  2:{ simpl. now rewrite first_or_empty_hd. }
  simpl. rewrite first_or_empty_hd.
  rewrite !or_empty_idem. reflexivity.
Qed.

(** Whatever happens, a create either leaves the database alone and
    answers with an error, or is the served create above. *)
Lemma pg_post_posts_cases (db_now : Z) (up : bool) (req : request) (d : database) :
  (exists s m, post_posts pw db_now up req d = (d, Res s (Error m)))
  \/ (up = true
      /\ strict_neq (adminPassword (req_body req)) pw = false
      /\ missing_required (req_body req) = false).
Proof.
  unfold post_posts.
  destruct (strict_neq _ _); [left; eauto|].
  destruct (missing_required _); [left; eauto|].
  destruct up; [right; auto | left; eauto].
Qed.


(** What an update does once it is let through, both queries are served and
    the row exists (as the handlers wrote it). *)
Lemma pg_put_post_served (now postId : Z) (req : request) (d : database)
    (existing : row) (more : list row) (l : list string) :
  strict_neq (adminPassword (req_body req)) pw = false ->
  missing_required (req_body req) = false ->
  select_post postId d = existing :: more ->
  row_images existing = strings l ->
  image_url existing = Some (match l with x :: _ => x | [] => "" end) ->
  let b := req_body req in
  let urls := image_urls (req_files req) in
  let final := match urls with _ :: _ => urls | [] => l end in
  let set (r : row) : row :=
    Row (row_id r) (title b) (Some (or_empty (category b))) (content b)
        (strings final) (Some (match final with x :: _ => x | [] => "" end))
        (Some (or_empty (affiliateLink b))) (created_at r) (Some now) in
  put_post pw now true true postId req d
  = (Db (map (fun r => if (row_id r =? postId)%Z then set r else r) (table d))
        (posts_id_seq d),
     Res 200 (SuccessPost {|
       id := row_id existing;
       post_title := title b;
       post_category := or_empty (category b);
       post_content := content b;
       images := strings final;
       imageUrl := JStr (match final with x :: _ => x | [] => "" end);
       post_affiliateLink := or_empty (affiliateLink b);
       date := created_at existing;
       updatedAt := Some now
     |})).
Proof.
  intros Hauth Hval Hsel Hi Hu b urls final set.
  unfold put_post. cbv zeta. rewrite Hauth, Hval, Hsel. cbn [negb].
  rewrite Hi, Hu. change (normalize (strings l)) with (strings l).
  rewrite url_or_first_strings. fold urls.
  assert (Hf : match urls with _ :: _ => strings urls | [] => strings l end
               = strings final) by (subst final; destruct urls; reflexivity).
  assert (Hg : match urls with
               | first :: _ => Some (JStr first)
               | [] => Some (JStr (match l with x :: _ => x | [] => "" end))
               end = Some (JStr (match final with x :: _ => x | [] => "" end)))
    by (subst final; destruct urls; reflexivity).
  rewrite Hf, Hg. cbn [prepareValue].
  unfold update_post. rewrite parse_stringify_strings.
  unfold select_post in Hsel. rewrite Hsel. cbn [map]. fold b.
  cbv beta.
  erewrite mapDbPost_row_rule; [|reflexivity|reflexivity].
  subst set.
  cbn [row_id row_title row_category row_content affiliate_link created_at updated_at].
  rewrite !or_empty_idem. reflexivity.
Qed.

Lemma pg_put_post_cases (now : Z) (up1 up2 : bool) (postId : Z) (req : request)
    (d : database) :
  Forall row_rule (table d) ->
  (exists s m, put_post pw now up1 up2 postId req d = (d, Res s (Error m)))
  \/ (up1 = true /\ up2 = true
      /\ strict_neq (adminPassword (req_body req)) pw = false
      /\ missing_required (req_body req) = false
      /\ exists existing more l,
           select_post postId d = existing :: more
           /\ row_images existing = strings l
           /\ image_url existing = Some (match l with x :: _ => x | [] => "" end)).
Proof.
  intros Hall. unfold put_post.
  destruct (strict_neq _ _) eqn:Hauth; [left; eauto|].
  destruct (missing_required _) eqn:Hval; [left; eauto|].
  destruct up1; [|left; simpl; eauto]. cbn [negb].
  destruct (select_post postId d) as [|existing more] eqn:Hsel; [left; eauto|].
  assert (Hin : In existing (table d)).
  { unfold select_post in Hsel.
    assert (H : In existing (existing :: more)) by now left.
    rewrite <- Hsel in H. now apply filter_In in H. }
  rewrite Forall_forall in Hall. destruct (Hall _ Hin) as (l & Hi & Hu).
  destruct up2.
  - right. repeat split; auto. exists existing, more, l. auto.
  - left. rewrite Hi, Hu. change (normalize (strings l)) with (strings l).
    rewrite url_or_first_strings.
    destruct (image_urls (req_files req)); eauto.
Qed.

Lemma pg_delete_post_table (up : bool) (postId : Z) (password : option jsval)
    (d : database) :
  let d' := fst (delete_post pw up postId password d) in
  posts_id_seq d' = posts_id_seq d
  /\ forall r, In r (table d') -> In r (table d).
Proof.
  unfold delete_post.
  destruct (strict_neq_val _ _); [simpl; auto|].
  destruct up; [|simpl; auto]. simpl.
  destruct (map row_id _); simpl; (split; [reflexivity|]);
    intros r Hr; now apply filter_In in Hr.
Qed.

(** ** What holds of every reachable world *)

Lemma pg_reachable_rows (w : world) :
  reachable pw w ->
  Forall row_rule (table (db_of w))
  /\ Forall (fun r => (row_id r < posts_id_seq (db_of w))%Z) (table (db_of w))
  /\ Forall (fun i => (i < posts_id_seq (db_of w))%Z) (issued w).
Proof.
  induction 1 as [|w e Hr (Hrule & Hids & Hiss)].
  - simpl. repeat split; constructor.
  - destruct e as [up|db_now up req|now up1 up2 postId req|up postId password];
      cbn [exec].
    + simpl. auto.
    + destruct (pg_post_posts_cases db_now up req (db_of w))
        as [(s & m & He)|(-> & Hauth & Hval)].
      * rewrite He. simpl. rewrite app_nil_r. auto.
      * rewrite (pg_post_posts_served db_now req _ Hauth Hval). simpl.
        repeat split.
        -- apply Forall_app. split; [exact Hrule|]. constructor; [|constructor].
           eexists. split; [reflexivity|]. simpl. now rewrite first_or_empty_hd.
        -- apply Forall_app. split.
           ++ eapply Forall_impl; [|exact Hids]. simpl. intros; lia.
           ++ constructor; [simpl; lia|constructor].
        -- apply Forall_app. split.
           ++ eapply Forall_impl; [|exact Hiss]. simpl. intros; lia.
           ++ constructor; [lia|constructor].
    + destruct (pg_put_post_cases now up1 up2 postId req (db_of w) Hrule)
        as [(s & m & He)|(-> & -> & Hauth & Hval & existing & more & l & Hsel & Hi & Hu)].
      * rewrite He. simpl. auto.
      * rewrite (pg_put_post_served now postId req _ existing more l Hauth Hval Hsel Hi Hu).
        simpl. repeat split; [| |exact Hiss].
        -- rewrite Forall_forall in *. intros r Hin.
           apply in_map_iff in Hin as (r0 & <- & Hin0).
           destruct (row_id r0 =? postId)%Z; [|auto].
           eexists. split; reflexivity.
        -- rewrite Forall_forall in *. intros r Hin.
           apply in_map_iff in Hin as (r0 & <- & Hin0).
           specialize (Hids _ Hin0).
           destruct (row_id r0 =? postId)%Z; simpl; exact Hids.
    + pose proof (pg_delete_post_table up postId password (db_of w)) as [Hseq Hsub].
      destruct (delete_post _ _ _ _ _) as [d' r]. simpl in *.
      rewrite Hseq. repeat split; [| |exact Hiss];
        rewrite Forall_forall in *; auto.
Qed.

Lemma pg_put_post_rule (now : Z) (up1 up2 : bool) (postId : Z) (req : request)
    (d : database) (p : post) :
  Forall row_rule (table d) ->
  In p (posts_of (snd (put_post pw now up1 up2 postId req d))) -> first_image_rule p.
Proof.
  intros Hrule.
  destruct (pg_put_post_cases now up1 up2 postId req d Hrule)
    as [(s & m & He)|(-> & -> & Hauth & Hval & existing & more & l & Hsel & Hi & Hu)].
  - rewrite He. simpl. tauto.
  - rewrite (pg_put_post_served now postId req _ existing more l Hauth Hval Hsel Hi Hu).
    simpl. intros [<-|[]]. unfold first_image_rule. simpl.
    destruct (match image_urls (req_files req) with _ :: _ => _ | [] => l end);
      reflexivity.
Qed.

Lemma pg_post_posts_rule (db_now : Z) (up : bool) (req : request) (d : database)
    (p : post) :
  In p (posts_of (snd (post_posts pw db_now up req d))) -> first_image_rule p.
Proof.
  destruct (pg_post_posts_cases db_now up req d) as [(s & m & He)|(-> & Hauth & Hval)].
  - rewrite He. simpl. tauto.
  - rewrite (pg_post_posts_served db_now req _ Hauth Hval). simpl.
    intros [<-|[]]. unfold first_image_rule. simpl. rewrite first_or_empty_hd.
    destruct (image_urls (req_files req)); reflexivity.
Qed.

Lemma pg_get_posts_rule (up : bool) (d : database) (p : post) :
  Forall row_rule (table d) ->
  In p (posts_of (get_posts up d)) -> first_image_rule p.
Proof.
  intros Hrule. unfold get_posts. destruct up; [|simpl; tauto].
  destruct (map_mapDbPost (select_posts d)) as [ps|] eqn:Hps; [|simpl; tauto].
  simpl. intros Hin.
  apply (map_mapDbPost_In _ _ p Hps) in Hin as (r & Hr & Hp).
  apply sort_by_In in Hr. rewrite Forall_forall in Hrule.
  destruct (mapDbPost_rule r (Hrule _ Hr)) as (q & Hq & Hfirst). congruence.
Qed.

Lemma pg_returned_posts_rule (w : world) (e : event) (p : post) :
  reachable pw w -> In p (posts_of (snd (exec pw w e))) -> first_image_rule p.
Proof.
  intros Hr. destruct (pg_reachable_rows w Hr) as (Hrule & _ & _).
  destruct e as [up|db_now up req|now up1 up2 postId req|up postId password];
    cbn [exec].
  - simpl. now apply pg_get_posts_rule.
  - pose proof (pg_post_posts_rule db_now up req (db_of w) p) as H.
    destruct (post_posts _ _ _ _ _); exact H.
  - pose proof (pg_put_post_rule now up1 up2 postId req (db_of w) p Hrule) as H.
    destruct (put_post _ _ _ _ _ _ _); exact H.
  - unfold delete_post. destruct (strict_neq_val _ _); [simpl; tauto|].
    destruct up; [|simpl; tauto]. simpl.
    destruct (map row_id _); simpl; tauto.
Qed.

End PgServerFacts.

(* ================================================================== *)
(** * The admin gate and the validation of the required fields         *)
(* ================================================================== *)

Section Gate.
Import Js ImageStore Http Reply.

Lemma strict_neq_true (a b : option string) : strict_neq a b = true <-> a <> b.
Proof.
  destruct a as [x|], b as [y|]; simpl.
  - destruct (String.eqb_spec x y); simpl; split; congruence.
  - split; congruence.
  - split; congruence.
  - split; congruence.
Qed.

Lemma strict_neq_false (a b : option string) : strict_neq a b = false <-> a = b.
Proof.
  destruct a as [x|], b as [y|]; simpl.
  - destruct (String.eqb_spec x y); simpl; split; congruence.
  - split; congruence.
  - split; congruence.
  - split; congruence.
Qed.

Lemma strict_neq_val_true (a : option jsval) (b : option string) :
  strict_neq_val a b = true <-> a <> option_map JStr b.
Proof.
  destruct a as [[| | |x| |]|], b as [y|]; simpl; try (split; congruence).
  destruct (String.eqb_spec x y); simpl; split; congruence.
Qed.

Lemma strict_neq_val_false (a : option jsval) (b : option string) :
  strict_neq_val a b = false <-> a = option_map JStr b.
Proof.
  destruct a as [[| | |x| |]|], b as [y|]; simpl; try (split; congruence).
  destruct (String.eqb_spec x y); simpl; split; congruence.
Qed.

(** [!title || !content] holds exactly when one of the two is absent or
    empty. *)
Lemma missing_required_true (b : body) :
  missing_required b = true <->
  (title b = None \/ title b = Some "" \/ content b = None \/ content b = Some "").
Proof.
  unfold missing_required, truthy_str.
  destruct (title b) as [t|], (content b) as [c|]; simpl;
    try destruct (String.eqb_spec t ""); try destruct (String.eqb_spec c "");
    subst; simpl; split; intros H; try discriminate; auto;
    try (destruct H as [H|[H|[H|H]]]; congruence).
Qed.

End Gate.

Section GateTheorems.
Import Js ImageStore Http Reply.

(** A create or update whose secret differs is answered 401, untouched. *)
Lemma mismatched_form_refused (pw : option string) (req : request) :
  adminPassword (req_body req) <> pw ->
  (forall now_id now_date f,
     FileServer.post_posts pw now_id now_date req f
     = (f, Res 401 (Error "Unauthorized")))
  /\ (forall now postId f,
     FileServer.put_post pw now postId req f
     = (f, Res 401 (Error "Unauthorized")))
  /\ (forall db_now up d,
     PgServer.post_posts pw db_now up req d
     = (d, Res 401 (Error "Unauthorized")))
  /\ (forall now up1 up2 postId d,
     PgServer.put_post pw now up1 up2 postId req d
     = (d, Res 401 (Error "Unauthorized"))).
Proof.
  intros H. apply strict_neq_true in H.
  repeat split; intros;
    unfold FileServer.post_posts, FileServer.put_post,
           PgServer.post_posts, PgServer.put_post;
    now rewrite H.
Qed.

(** C3 (as amended) -- For every mutating request (create, update, delete),
    in either revision, whose supplied admin secret differs from the
    configured one (wrong, or omitted while a secret is configured), the
    response is 401 and the stored collection is left exactly as it was; in
    particular, whenever a secret is configured, a POST that omits
    [adminPassword] is answered 401 and inserts nothing. *)
Theorem C3_mismatched_secret_is_refused (pw : option string) :
  (forall req, adminPassword (req_body req) <> pw ->
     (forall now_id now_date f,
        FileServer.post_posts pw now_id now_date req f
        = (f, Res 401 (Error "Unauthorized")))
     /\ (forall now postId f,
        FileServer.put_post pw now postId req f
        = (f, Res 401 (Error "Unauthorized")))
     /\ (forall db_now up d,
        PgServer.post_posts pw db_now up req d
        = (d, Res 401 (Error "Unauthorized")))
     /\ (forall now up1 up2 postId d,
        PgServer.put_post pw now up1 up2 postId req d
        = (d, Res 401 (Error "Unauthorized"))))
  /\ (forall password, password <> option_map JStr pw ->
     (forall postId f,
        FileServer.delete_post pw postId password f
        = (f, Res 401 (Error "Unauthorized")))
     /\ (forall up postId d,
        PgServer.delete_post pw up postId password d
        = (d, Res 401 (Error "Unauthorized"))))
  /\ (forall secret req, pw = Some secret -> adminPassword (req_body req) = None ->
     (forall now_id now_date f,
        FileServer.post_posts pw now_id now_date req f
        = (f, Res 401 (Error "Unauthorized")))
     /\ (forall db_now up d,
        PgServer.post_posts pw db_now up req d
        = (d, Res 401 (Error "Unauthorized")))).
Proof.
  split; [|split].
  - intros req H. now apply mismatched_form_refused.
  - intros password H. apply strict_neq_val_true in H.
    split; intros; unfold FileServer.delete_post, PgServer.delete_post;
      now rewrite H.
  - intros secret req -> Hnone.
    assert (H : adminPassword (req_body req) <> Some secret)
      by (rewrite Hnone; discriminate).
    destruct (mismatched_form_refused (Some secret) req H) as (H1 & _ & H3 & _).
    split; assumption.
Qed.

(** A create that omits the secret, sent to a server that has one. *)
Lemma C3_witness :
  adminPassword (req_body Sample.create_anonymous) <> Sample.secret
  /\ PgServer.post_posts Sample.secret 1000 true Sample.create_anonymous (PgServer.Db [] 1)
     = (PgServer.Db [] 1, Res 401 (Error "Unauthorized")).
Proof.
  assert (H : adminPassword (req_body Sample.create_anonymous) <> Sample.secret)
    by (simpl; discriminate).
  split; [exact H|].
  apply (proj1 (C3_mismatched_secret_is_refused Sample.secret)
               Sample.create_anonymous H).
Defined.

(** C3 (as stated) fails when no secret is configured: the environment
    variable is unset, the request omits [adminPassword], and the create
    goes through in both revisions. *)
Lemma C3_omitted_secret_passes_when_none_is_set :
  adminPassword (req_body Sample.create_anonymous) = None
  /\ FileServer.post_posts None 1000 1000 Sample.create_anonymous None
     = (Some [FileServer.Post 1000 (Some "A") (Some "") (Some "B") (Some [])
                              (Some "") (Some "") 1000 None],
        Res 200 (SuccessPost
                   (FileServer.Post 1000 (Some "A") (Some "") (Some "B") (Some [])
                                    (Some "") (Some "") 1000 None)))
  /\ status (snd (PgServer.post_posts None 1000 true Sample.create_anonymous
                                      (PgServer.Db [] 1))) = 200
  /\ List.length (PgServer.table
                    (fst (PgServer.post_posts None 1000 true Sample.create_anonymous
                                              (PgServer.Db [] 1)))) = 1.
Proof.
  repeat split; vm_compute; reflexivity.
Qed.

(** C9 -- For every create or update request, in either revision, that
    carries the configured admin secret and whose title or content is
    absent or empty, the response is 400 and the stored collection is left
    as it was: no insert, no update. *)
Theorem C9_missing_fields_are_refused (pw : option string) (req : request) :
  adminPassword (req_body req) = pw ->
  (title (req_body req) = None \/ title (req_body req) = Some ""
   \/ content (req_body req) = None \/ content (req_body req) = Some "") ->
  (forall now_id now_date f,
     FileServer.post_posts pw now_id now_date req f
     = (f, Res 400 (Error "Title and content are required")))
  /\ (forall now postId f,
     FileServer.put_post pw now postId req f
     = (f, Res 400 (Error "Title and content are required")))
  /\ (forall db_now up d,
     PgServer.post_posts pw db_now up req d
     = (d, Res 400 (Error "Title and content are required")))
  /\ (forall now up1 up2 postId d,
     PgServer.put_post pw now up1 up2 postId req d
     = (d, Res 400 (Error "Title and content are required"))).
Proof.
  intros Hauth Hmiss.
  apply strict_neq_false in Hauth. apply missing_required_true in Hmiss.
  repeat split; intros;
    unfold FileServer.post_posts, FileServer.put_post,
           PgServer.post_posts, PgServer.put_post;
    now rewrite Hauth, Hmiss.
Qed.

(** An update with the right secret and an empty title. *)
Lemma C9_witness :
  adminPassword (req_body Sample.untitled) = Sample.secret
  /\ title (req_body Sample.untitled) = Some ""
  /\ FileServer.put_post Sample.secret 2000 1000 Sample.untitled None
     = (None, Res 400 (Error "Title and content are required")).
Proof.
  split; [reflexivity|]. split; [reflexivity|].
  apply (C9_missing_fields_are_refused Sample.secret Sample.untitled).
  - reflexivity.
  - right; left; reflexivity.
Defined.

(** C10 -- The secret is checked before the fields: for every create or
    update request, in either revision, whose supplied admin secret differs
    from the configured one and whose title or content is absent or empty as
    well, the response is 401, not 400, and the stored collection is left as
    it was. *)
Theorem C10_gate_comes_before_validation (pw : option string) (req : request) :
  adminPassword (req_body req) <> pw ->
  (title (req_body req) = None \/ title (req_body req) = Some ""
   \/ content (req_body req) = None \/ content (req_body req) = Some "") ->
  (forall now_id now_date f,
     let out := FileServer.post_posts pw now_id now_date req f in
     status (snd out) = 401 /\ status (snd out) <> 400 /\ fst out = f)
  /\ (forall now postId f,
     let out := FileServer.put_post pw now postId req f in
     status (snd out) = 401 /\ status (snd out) <> 400 /\ fst out = f)
  /\ (forall db_now up d,
     let out := PgServer.post_posts pw db_now up req d in
     status (snd out) = 401 /\ status (snd out) <> 400 /\ fst out = d)
  /\ (forall now up1 up2 postId d,
     let out := PgServer.put_post pw now up1 up2 postId req d in
     status (snd out) = 401 /\ status (snd out) <> 400 /\ fst out = d).
Proof.
  intros Hauth _.
  destruct (mismatched_form_refused pw req Hauth) as (H1 & H2 & H3 & H4).
  repeat split; intros; rewrite ?H1, ?H2, ?H3, ?H4; simpl;
    try reflexivity; discriminate.
Qed.

(** A create with a wrong secret and no content. *)
Lemma C10_witness :
  adminPassword (req_body Sample.intruder) <> Sample.secret
  /\ content (req_body Sample.intruder) = None
  /\ status (snd (PgServer.post_posts Sample.secret 1000 true Sample.intruder
                                      (PgServer.Db [] 1))) = 401.
Proof.
  assert (H : adminPassword (req_body Sample.intruder) <> Sample.secret)
    by (simpl; discriminate).
  split; [exact H|]. split; [reflexivity|].
  apply (C10_gate_comes_before_validation Sample.secret Sample.intruder H).
  right; right; left; reflexivity.
Defined.

End GateTheorems.

(* ================================================================== *)
(** * Listing and deleting                                              *)
(* ================================================================== *)

Section ListAndDelete.
Import Js ImageStore Http Reply.

Lemma filter_length_same {A : Type} (keep : A -> bool) (l : list A) :
  List.length (filter keep l) = List.length l <-> Forall (fun x => keep x = true) l.
Proof.
  induction l as [|x l IH]; simpl.
  - split; [constructor | reflexivity].
  - pose proof (filter_length_le keep l) as Hle.
    destruct (keep x) eqn:Hx; simpl.
    + split.
      * intros H. constructor; [exact Hx|]. apply IH. lia.
      * intros H. inversion H; subst. f_equal. now apply IH.
    + split; [lia|]. intros H. inversion H; congruence.
Qed.

Lemma filter_all {A : Type} (keep : A -> bool) (l : list A) :
  Forall (fun x => keep x = true) l -> filter keep l = l.
Proof.
  induction 1 as [|x l Hx _ IH]; simpl; [reflexivity|].
  now rewrite Hx, IH.
Qed.

Lemma filter_none {A : Type} (keep : A -> bool) (l : list A) :
  Forall (fun x => keep x = false) l -> filter keep l = [].
Proof.
  induction 1 as [|x l Hx _ IH]; simpl; [reflexivity|].
  now rewrite Hx, IH.
Qed.

(** C7 (as amended) -- For every delete request that carries the configured
    secret, the id being the integer [Number(req.params.id)] yields: in the
    file-backed revision, and in the database-backed one when the DELETE
    statement is served, if no stored post has the id the response is 404
    and the collection is unchanged; if one has, the response is 200 with
    [{success: true}] and the collection becomes the old one without the
    posts of that id, every other post staying in place.  When the
    statement is rejected the response is 500 and the collection is
    unchanged, whether or not a post has the id. *)
Theorem C7_delete_removes_exactly_that_id
    (pw : option string) (postId : Z) (password : option jsval) :
  password = option_map JStr pw ->
  (forall f,
     (Forall (fun p => FileServer.id p <> postId)
             (match f with Some posts => posts | None => [] end) ->
      FileServer.delete_post pw postId password f
      = (f, Res 404 (Error "Post not found")))
     /\ (Exists (fun p => FileServer.id p = postId)
                (match f with Some posts => posts | None => [] end) ->
      FileServer.delete_post pw postId password f
      = (Some (filter (fun p => negb (FileServer.id p =? postId)%Z)
                      (match f with Some posts => posts | None => [] end)),
         Res 200 Success)))
  /\ (forall d,
     (Forall (fun r => PgServer.row_id r <> postId) (PgServer.table d) ->
      PgServer.delete_post pw true postId password d
      = (d, Res 404 (Error "Post not found")))
     /\ (Exists (fun r => PgServer.row_id r = postId) (PgServer.table d) ->
      PgServer.delete_post pw true postId password d
      = (PgServer.Db (filter (fun r => negb (PgServer.row_id r =? postId)%Z)
                             (PgServer.table d))
                     (PgServer.posts_id_seq d),
         Res 200 Success))
     /\ PgServer.delete_post pw false postId password d
        = (d, Res 500 (Error "Failed to delete post"))).
Proof.
  intros Hpw. apply strict_neq_val_false in Hpw.
  split.
  - intros f.
    change (match f with Some posts => posts | None => [] end)
      with (FileServer.readPosts f).
    unfold FileServer.delete_post. rewrite Hpw. split.
    + intros Hno.
      assert (Hkeep : Forall (fun p => negb (FileServer.id p =? postId)%Z = true)
                             (FileServer.readPosts f)).
      { eapply Forall_impl; [|exact Hno]. simpl. intros p Hp.
        now destruct (Z.eqb_spec (FileServer.id p) postId). }
      apply filter_length_same in Hkeep. rewrite Hkeep, Nat.eqb_refl. reflexivity.
    + intros Hsome.
      destruct (Nat.eqb_spec
                  (List.length (filter (fun p => negb (FileServer.id p =? postId)%Z)
                                       (FileServer.readPosts f)))
                  (List.length (FileServer.readPosts f))) as [He|Hne];
        [|reflexivity].
      exfalso. apply filter_length_same in He.
      apply Exists_exists in Hsome as (p & Hin & Hid).
      rewrite Forall_forall in He. specialize (He p Hin).
      rewrite Hid, Z.eqb_refl in He. discriminate.
  - intros d. unfold PgServer.delete_post, PgServer.delete_from_posts.
    rewrite Hpw. cbn [negb]. split; [|split; [|reflexivity]].
    + intros Hno.
      rewrite (filter_none (fun r => (PgServer.row_id r =? postId)%Z)).
      2:{ eapply Forall_impl; [|exact Hno]. simpl. intros r Hr.
          now destruct (Z.eqb_spec (PgServer.row_id r) postId). }
      rewrite filter_all; [destruct d; reflexivity|].
      eapply Forall_impl; [|exact Hno]. simpl. intros r Hr.
      now destruct (Z.eqb_spec (PgServer.row_id r) postId).
    + intros Hsome.
      apply Exists_exists in Hsome as (r & Hin & Hid).
      assert (Hhit : In r (filter (fun r => (PgServer.row_id r =? postId)%Z)
                                  (PgServer.table d))).
      { apply filter_In. split; [exact Hin|]. now rewrite Hid, Z.eqb_refl. }
      destruct (filter (fun r => (PgServer.row_id r =? postId)%Z) (PgServer.table d));
        [destruct Hhit | reflexivity].
Qed.

(** A file of three posts, the first and the last created in the same
    millisecond and sharing the id 1000, and a table of three rows.  The
    delete of 1000 from the file removes the two posts of that id and
    leaves the third; the delete of 2 from the table removes that row and
    leaves the two others where they were; the delete of 7, an id no post
    has, leaves all three, in the file and in the table. *)
Lemma C7_witness :
  let p1 := FileServer.Post 1000 (Some "A") (Some "") (Some "B") (Some [])
                            (Some "") (Some "") 1000 None in
  let p2 := FileServer.Post 1001 (Some "C") (Some "Gear") (Some "D")
                            (Some ["/uploads/images-1001-5.png"])
                            (Some "/uploads/images-1001-5.png") (Some "") 1001 None in
  let p3 := FileServer.Post 1000 (Some "E") (Some "") (Some "F") (Some [])
                            (Some "") (Some "") 1000 None in
  let f := Some [p1; p2; p3] in
  let r (i : Z) (t : string) (at_ : Z) :=
    PgServer.Row i (Some t) (Some "") (Some "B") (strings []) (Some "") (Some "")
                 (Some at_) None in
  let d := PgServer.Db [r 1 "A" 1000; r 2 "C" 1001; r 3 "E" 1002]%Z 4 in
  Some (JStr "s3cret") = option_map JStr Sample.secret
  /\ Exists (fun q => FileServer.id q = 1000%Z) [p1; p2; p3]
  /\ FileServer.delete_post Sample.secret 1000 (Some (JStr "s3cret")) f
     = (Some [p2], Res 200 Success)
  /\ Forall (fun q => FileServer.id q <> 7%Z) [p1; p2; p3]
  /\ FileServer.delete_post Sample.secret 7 (Some (JStr "s3cret")) f
     = (f, Res 404 (Error "Post not found"))
  /\ Exists (fun q => PgServer.row_id q = 2%Z) (PgServer.table d)
  /\ PgServer.delete_post Sample.secret true 2 (Some (JStr "s3cret")) d
     = (PgServer.Db [r 1 "A" 1000; r 3 "E" 1002]%Z 4, Res 200 Success)
  /\ Forall (fun q => PgServer.row_id q <> 7%Z) (PgServer.table d)
  /\ PgServer.delete_post Sample.secret true 7 (Some (JStr "s3cret")) d
     = (d, Res 404 (Error "Post not found")).
Proof.
  intros p1 p2 p3 f r d.
  assert (Hf1 : Exists (fun q => FileServer.id q = 1000%Z) [p1; p2; p3])
    by (apply Exists_cons_hd; reflexivity).
  assert (Hf7 : Forall (fun q => FileServer.id q <> 7%Z) [p1; p2; p3])
    by (repeat constructor; discriminate).
  assert (Hd2 : Exists (fun q => PgServer.row_id q = 2%Z) (PgServer.table d))
    by (apply Exists_cons_tl, Exists_cons_hd; reflexivity).
  assert (Hd7 : Forall (fun q => PgServer.row_id q <> 7%Z) (PgServer.table d))
    by (repeat constructor; discriminate).
  split; [reflexivity|].
  split; [exact Hf1|].
  split; [apply (proj2 (proj1 (C7_delete_removes_exactly_that_id
                                 Sample.secret 1000 (Some (JStr "s3cret")) eq_refl)
                              f) Hf1)|].
  split; [exact Hf7|].
  split; [apply (proj1 (proj1 (C7_delete_removes_exactly_that_id
                                 Sample.secret 7 (Some (JStr "s3cret")) eq_refl)
                              f) Hf7)|].
  split; [exact Hd2|].
  split; [apply (proj1 (proj2 (proj2 (C7_delete_removes_exactly_that_id
                                        Sample.secret 2 (Some (JStr "s3cret")) eq_refl)
                                     d)) Hd2)|].
  split; [exact Hd7|].
  apply (proj1 (proj2 (C7_delete_removes_exactly_that_id
                         Sample.secret 7 (Some (JStr "s3cret")) eq_refl)
                      d) Hd7).
Defined.

(** C7 (as stated) fails in the database-backed revision: with the right
    secret, a delete whose statement the pool rejects is answered 500 by
    the handler's [catch], not 404, when no post has the id, and removes
    nothing when one has.  The pool rejects the statement when the database
    is unavailable, and when the id is one the id column cannot hold
    (3000000000 in a 32-bit integer column; what [Number] makes of abc or
    of 1.5). *)
Lemma C7_rejected_delete_is_500 :
  let r := PgServer.Row 1 (Some "A") (Some "") (Some "B") (strings []) (Some "")
                        (Some "") (Some 1000%Z) None in
  let d := PgServer.Db [r] 2 in
  Forall (fun q => PgServer.row_id q <> 3000000000%Z) (PgServer.table d)
  /\ PgServer.delete_post Sample.secret false 3000000000 (Some (JStr "s3cret")) d
     = (d, Res 500 (Error "Failed to delete post"))
  /\ Exists (fun q => PgServer.row_id q = 1%Z) (PgServer.table d)
  /\ PgServer.delete_post Sample.secret false 1 (Some (JStr "s3cret")) d
     = (d, Res 500 (Error "Failed to delete post")).
Proof.
  intros r d. split; [repeat constructor; discriminate|].
  split; [reflexivity|]. split; [apply Exists_cons_hd; reflexivity|reflexivity].
Qed.

Lemma StronglySorted_weaken {A : Type} (R R' : A -> A -> Prop) (l : list A) :
  (forall a b, R a b -> R' a b) -> StronglySorted R l -> StronglySorted R' l.
Proof.
  intros Himp. induction 1 as [|x l _ IH Hall]; constructor; [exact IH|].
  eapply Forall_impl; [|exact Hall]. apply Himp.
Qed.

Lemma mapDbPost_date (r : PgServer.row) (p : PgServer.post) :
  PgServer.mapDbPost r = Some p -> PgServer.date p = PgServer.created_at r.
Proof.
  unfold PgServer.mapDbPost.
  destruct (PgServer.url_or_first _ _); [|discriminate].
  now intros [= <-].
Qed.

Lemma created_at_desc_asym (a b : PgServer.row) :
  (0 < PgServer.created_at_desc a b -> PgServer.created_at_desc b a <= 0)%Z.
Proof.
  unfold PgServer.created_at_desc.
  destruct (PgServer.created_at a), (PgServer.created_at b); lia.
Qed.

Lemma created_at_desc_trans (a b c : PgServer.row) :
  (PgServer.created_at_desc a b <= 0 -> PgServer.created_at_desc b c <= 0 ->
   PgServer.created_at_desc a c <= 0)%Z.
Proof.
  unfold PgServer.created_at_desc.
  destruct (PgServer.created_at a), (PgServer.created_at b),
           (PgServer.created_at c); lia.
Qed.

Lemma map_mapDbPost_sorted (rows : list PgServer.row) :
  StronglySorted (fun a b => (PgServer.created_at_desc a b <= 0)%Z) rows ->
  forall ps, PgServer.map_mapDbPost rows = Some ps ->
             StronglySorted PgServer.newest_first ps.
Proof.
  induction 1 as [|r rows Hs IH Hall]; simpl; intros ps Hps.
  - injection Hps as <-. constructor.
  - destruct (PgServer.mapDbPost r) as [p|] eqn:Hp; [|discriminate].
    destruct (PgServer.map_mapDbPost rows) as [qs|] eqn:Hqs; [|discriminate].
    injection Hps as <-. constructor; [now apply IH|].
    apply Forall_forall. intros q Hq.
    apply (map_mapDbPost_In _ _ q Hqs) in Hq as (r' & Hin & Hr').
    rewrite Forall_forall in Hall. specialize (Hall r' Hin).
    unfold PgServer.newest_first.
    rewrite (mapDbPost_date _ _ Hp), (mapDbPost_date _ _ Hr').
    unfold PgServer.created_at_desc in Hall.
    destruct (PgServer.created_at r), (PgServer.created_at r'); try lia; exact I.
Qed.

Lemma mapDbPost_fields (r : PgServer.row) (p : PgServer.post) :
  PgServer.mapDbPost r = Some p ->
  PgServer.id p = PgServer.row_id r
  /\ PgServer.post_title p = PgServer.row_title r
  /\ PgServer.post_content p = PgServer.row_content r
  /\ PgServer.date p = PgServer.created_at r.
Proof.
  unfold PgServer.mapDbPost.
  destruct (PgServer.url_or_first _ _); [|discriminate].
  intros [= <-]. repeat split.
Qed.

Lemma map_mapDbPost_Forall2 (rows : list PgServer.row) :
  forall ps,
    PgServer.map_mapDbPost rows = Some ps ->
    Forall2 (fun r p => PgServer.mapDbPost r = Some p
                        /\ PgServer.id p = PgServer.row_id r
                        /\ PgServer.post_title p = PgServer.row_title r
                        /\ PgServer.post_content p = PgServer.row_content r
                        /\ PgServer.date p = PgServer.created_at r)
            rows ps.
Proof.
  induction rows as [|r rows IH]; simpl; intros ps Hps.
  - injection Hps as <-. constructor.
  - destruct (PgServer.mapDbPost r) as [p|] eqn:Hp; [|discriminate].
    destruct (PgServer.map_mapDbPost rows) as [qs|]; [|discriminate].
    injection Hps as <-. constructor; [|now apply IH].
    split; [exact Hp|now apply mapDbPost_fields].
Qed.

(** C6 -- Every successful list call returns all the stored posts, newest
    first: the creation times never increase along the array.  In the
    file-backed revision the array is a rearrangement of the posts the
    file holds (of none when there is no file); in the database-backed one
    it holds, for a rearrangement of the rows of the table, the post of
    each row in turn: what [mapDbPost] makes of it, with the row's id,
    title, content and creation time. *)
Theorem C6_list_is_newest_first :
  (forall f, exists ps,
      FileServer.get_posts f = Res 200 (Posts ps)
      /\ Permutation (match f with Some posts => posts | None => [] end) ps
      /\ StronglySorted (fun p q => (FileServer.date q <= FileServer.date p)%Z) ps)
  /\ (forall up d,
      status (PgServer.get_posts up d) = 200 ->
      exists rows ps,
        PgServer.get_posts up d = Res 200 (Posts ps)
        /\ Permutation (PgServer.table d) rows
        /\ Forall2 (fun r p => PgServer.mapDbPost r = Some p
                               /\ PgServer.id p = PgServer.row_id r
                               /\ PgServer.post_title p = PgServer.row_title r
                               /\ PgServer.post_content p = PgServer.row_content r
                               /\ PgServer.date p = PgServer.created_at r)
                   rows ps
        /\ StronglySorted PgServer.newest_first ps).
Proof.
  split.
  - intros f. eexists. split; [reflexivity|]. split.
    + destruct f as [posts|]; apply (sort_by_perm FileServer.newest_first).
    + apply (StronglySorted_weaken
               (fun a b => (FileServer.newest_first a b <= 0)%Z)).
      * unfold FileServer.newest_first. intros; lia.
      * apply sort_by_strongly_sorted; unfold FileServer.newest_first; intros; lia.
  - intros up d Hok. unfold PgServer.get_posts in *.
    destruct up; [|discriminate].
    destruct (PgServer.map_mapDbPost (PgServer.select_posts d)) as [ps|] eqn:Hps;
      [|discriminate].
    exists (PgServer.select_posts d), ps.
    split; [reflexivity|]. split; [apply sort_by_perm|].
    split; [now apply map_mapDbPost_Forall2|].
    apply (map_mapDbPost_sorted (PgServer.select_posts d)); [|exact Hps].
    apply sort_by_strongly_sorted.
    + apply created_at_desc_asym.
    + apply created_at_desc_trans.
Qed.

(** Three posts created at 1000, 2000 and 3000, in that order, in the
    table and in the file: the list has them as 3000, 2000, 1000. *)
Lemma C6_witness :
  let create (at_ : Z) (d : PgServer.database) :=
    fst (PgServer.post_posts Sample.secret at_ true Sample.create_AB d) in
  let d := create 3000%Z (create 2000%Z (create 1000%Z (PgServer.Db [] 1))) in
  let p (i at_ : Z) :=
    PgServer.Post i (Some "A") "" (Some "B") (strings []) (JStr "") "" (Some at_) None in
  let q (at_ : Z) :=
    FileServer.Post at_ (Some "A") (Some "") (Some "B") (Some []) (Some "") (Some "")
                    at_ None in
  let f := Some [q 1000; q 2000; q 3000]%Z in
  map PgServer.created_at (PgServer.table d) = [Some 1000; Some 2000; Some 3000]%Z
  /\ PgServer.get_posts true d = Res 200 (Posts [p 3 3000; p 2 2000; p 1 1000]%Z)
  /\ status (PgServer.get_posts true d) = 200
  /\ (exists rows ps,
        PgServer.get_posts true d = Res 200 (Posts ps)
        /\ Permutation (PgServer.table d) rows
        /\ Forall2 (fun r p => PgServer.mapDbPost r = Some p
                               /\ PgServer.id p = PgServer.row_id r
                               /\ PgServer.post_title p = PgServer.row_title r
                               /\ PgServer.post_content p = PgServer.row_content r
                               /\ PgServer.date p = PgServer.created_at r)
                   rows ps
        /\ StronglySorted PgServer.newest_first ps)
  /\ FileServer.get_posts f = Res 200 (Posts [q 3000; q 2000; q 1000]%Z)
  /\ exists ps,
       FileServer.get_posts f = Res 200 (Posts ps)
       /\ Permutation [q 1000; q 2000; q 3000]%Z ps
       /\ StronglySorted (fun a b => (FileServer.date b <= FileServer.date a)%Z) ps.
Proof.
  intros create d p q f.
  assert (H : status (PgServer.get_posts true d) = 200) by (vm_compute; reflexivity).
  split; [vm_compute; reflexivity|].
  split; [vm_compute; reflexivity|].
  split; [exact H|].
  split; [apply (proj2 C6_list_is_newest_first true d H)|].
  split; [vm_compute; reflexivity|].
  apply (proj1 C6_list_is_newest_first f).
Defined.

End ListAndDelete.

(* ================================================================== *)
(** * The first image                                                   *)
(* ================================================================== *)

Section FirstImage.
Import Js ImageStore Http Reply.

(** C1 -- In every reachable state of either revision, every post that a
    list, a create or an update returns has [imageUrl] equal to the first
    element of [images] when [images] is not empty, and equal to the empty
    string when it is. *)
Theorem C1_image_url_is_first_image :
  (forall pw w e p,
      FileServer.reachable pw w ->
      In p (posts_of (snd (FileServer.exec pw w e))) ->
      FileServer.first_image_rule p)
  /\ (forall pw w e p,
      PgServer.reachable pw w ->
      In p (posts_of (snd (PgServer.exec pw w e))) ->
      PgServer.first_image_rule p).
Proof.
  split; intros pw w e p.
  - apply file_returned_posts_rule.
  - apply pg_returned_posts_rule.
Qed.

(** The list call that follows a create with two images. *)
Lemma C1_witness :
  let w := fst (PgServer.exec Sample.secret PgServer.initial
                              (PgServer.PostPosts 1000 true Sample.create_with_images)) in
  let p := PgServer.Post 1 (Some "A") "Gear" (Some "B")
             (strings ["/uploads/images-1000-5.png"; "/uploads/images-1000-6.png"])
             (JStr "/uploads/images-1000-5.png") "" (Some 1000%Z) None in
  PgServer.reachable Sample.secret w
  /\ In p (posts_of (snd (PgServer.exec Sample.secret w (PgServer.GetPosts true))))
  /\ PgServer.first_image_rule p.
Proof.
  intros w p.
  assert (Hr : PgServer.reachable Sample.secret w)
    by (apply PgServer.reach_step, PgServer.reach_initial).
  assert (Hin : In p (posts_of (snd (PgServer.exec Sample.secret w
                                                   (PgServer.GetPosts true)))))
    by (vm_compute; left; reflexivity).
  split; [exact Hr|]. split; [exact Hin|].
  apply (proj2 C1_image_url_is_first_image Sample.secret w (PgServer.GetPosts true) p
               Hr Hin).
Defined.

End FirstImage.

(* ================================================================== *)
(** * The ids of new posts                                              *)
(* ================================================================== *)

Section NewIds.
Import Js ImageStore Http Reply.

Lemma truthy_str_set (o : option string) (s : string) :
  o = Some s -> s <> "" -> truthy_str o = true.
Proof.
  intros -> Hs. simpl. now destruct (String.eqb_spec s "").
Qed.

Lemma required_present (b : body) (t c : string) :
  title b = Some t -> t <> "" -> content b = Some c -> c <> "" ->
  missing_required b = false.
Proof.
  intros Ht Hnt Hc Hnc. unfold missing_required.
  now rewrite (truthy_str_set _ _ Ht Hnt), (truthy_str_set _ _ Hc Hnc).
Qed.


Lemma Forall_perm {A : Type} (P : A -> Prop) (l l' : list A) :
  Permutation l l' -> Forall P l -> Forall P l'.
Proof.
  intros Hp Hall. rewrite Forall_forall in *. intros x Hx.
  apply Hall. eapply Permutation_in; [apply Permutation_sym, Hp|exact Hx].
Qed.




End NewIds.

(* ================================================================== *)
(** * Updates                                                           *)
(* ================================================================== *)

Section Updates.
Import Js ImageStore Http Reply.

Lemma filter_unique_id (l : list PgServer.row) (x : PgServer.row) :
  NoDup (map PgServer.row_id l) -> In x l ->
  filter (fun r => (PgServer.row_id r =? PgServer.row_id x)%Z) l = [x].
Proof.
  induction l as [|y l IH]; simpl; intros Hnd Hin; [destruct Hin|].
  inversion Hnd as [|? ? Hny Hnd']; subst.
  destruct Hin as [->|Hin].
  - rewrite Z.eqb_refl. f_equal. apply filter_none.
    apply Forall_forall. intros r Hr.
    destruct (Z.eqb_spec (PgServer.row_id r) (PgServer.row_id x)) as [He|]; [|reflexivity].
    exfalso. apply Hny. rewrite <- He. now apply in_map.
  - destruct (Z.eqb_spec (PgServer.row_id y) (PgServer.row_id x)) as [He|].
    + exfalso. apply Hny. rewrite He. now apply in_map.
    + now apply IH.
Qed.

Lemma NoDup_map_filter {A B : Type} (f : A -> B) (keep : A -> bool) (l : list A) :
  NoDup (map f l) -> NoDup (map f (filter keep l)).
Proof.
  induction l as [|x l IH]; simpl; intros Hnd; [constructor|].
  inversion Hnd as [|? ? Hnx Hnd']; subst.
  destruct (keep x); simpl; [|now apply IH].
  constructor; [|now apply IH].
  intros Hin. apply Hnx. apply in_map_iff in Hin as (y & Hy & Hin).
  apply filter_In in Hin as [Hin _]. rewrite <- Hy. now apply in_map.
Qed.

Lemma filter_map_update (set : PgServer.row -> PgServer.row) (postId : Z)
    (rows : list PgServer.row) :
  (forall r, PgServer.row_id (set r) = PgServer.row_id r) ->
  filter (fun r => negb (PgServer.row_id r =? postId)%Z)
         (map (fun r => if (PgServer.row_id r =? postId)%Z then set r else r) rows)
  = filter (fun r => negb (PgServer.row_id r =? postId)%Z) rows.
Proof.
  intros Hset. induction rows as [|r rows IH]; simpl; [reflexivity|].
  destruct (Z.eqb_spec (PgServer.row_id r) postId) as [He|Hne]; simpl.
  - rewrite Hset, (proj2 (Z.eqb_eq _ _) He). simpl. exact IH.
  - rewrite (proj2 (Z.eqb_neq _ _) Hne). simpl. now rewrite IH.
Qed.

(** The ids of the rows of a reachable database are pairwise distinct. *)
Lemma pg_reachable_unique_ids (pw : option string) (w : PgServer.world) :
  PgServer.reachable pw w ->
  NoDup (map PgServer.row_id (PgServer.table (PgServer.db_of w))).
Proof.
  induction 1 as [|w e Hr IH].
  - constructor.
  - destruct (pg_reachable_rows pw w Hr) as (Hrule & Hids & _).
    destruct e as [up|db_now up req|now up1 up2 postId req|up postId password];
      cbn [PgServer.exec].
    + exact IH.
    + destruct (pg_post_posts_cases pw db_now up req (PgServer.db_of w))
        as [(s & m & He)|(-> & Hauth & Hval)].
      * rewrite He. exact IH.
      * rewrite (pg_post_posts_served pw db_now req _ Hauth Hval). simpl.
        rewrite map_app. simpl.
        apply NoDup_app; [exact IH | constructor; [intros []|constructor] |].
        intros i Hi [<-|[]].
        apply in_map_iff in Hi as (r & Hri & Hin).
        rewrite Forall_forall in Hids. specialize (Hids _ Hin). lia.
    + destruct (pg_put_post_cases pw now up1 up2 postId req (PgServer.db_of w) Hrule)
        as [(s & m & He)|(-> & -> & Hauth & Hval & ex & more & l & Hsel & Hi & Hu)].
      * rewrite He. exact IH.
      * rewrite (pg_put_post_served pw now postId req _ ex more l Hauth Hval Hsel Hi Hu).
        simpl. rewrite map_map.
        erewrite map_ext; [exact IH|].
        intros r. simpl. now destruct (PgServer.row_id r =? postId)%Z.
    + assert (Hd : NoDup (map PgServer.row_id
                (PgServer.table (fst (PgServer.delete_post pw up postId password
                                                           (PgServer.db_of w)))))).
      { unfold PgServer.delete_post.
        destruct (strict_neq_val _ _); [exact IH|].
        destruct up; [|exact IH]. simpl.
        destruct (map PgServer.row_id (filter _ _)); simpl;
          now apply NoDup_map_filter. }
      destruct (PgServer.delete_post _ _ _ _ _) as [d' r]. exact Hd.
Qed.

(** The database-backed revision: an update of an existing row (one the
    handlers wrote) with the configured secret, title and content set and
    both queries served answers 200 with a post whose text fields are the
    supplied ones, category and affiliate link defaulting to the empty
    string; whose images are the new paths when there are some, and the old
    post's images and [imageUrl] otherwise; whose [updatedAt] is the clock's
    reading; and whose id and creation time are the old ones.  Rows of
    other ids are not touched. *)
Lemma pg_update_overwrites (pw : option string) (now postId : Z) (req : request)
    (w : PgServer.world) (existing : PgServer.row) (t c : string) :
  PgServer.reachable pw w ->
  In existing (PgServer.table (PgServer.db_of w)) ->
  PgServer.row_id existing = postId ->
  adminPassword (req_body req) = pw ->
  title (req_body req) = Some t -> t <> "" ->
  content (req_body req) = Some c -> c <> "" ->
  let out := PgServer.put_post pw now true true postId req (PgServer.db_of w) in
  exists old p,
    PgServer.mapDbPost existing = Some old
    /\ snd out = Res 200 (SuccessPost p)
    /\ PgServer.post_title p = Some t
    /\ PgServer.post_category p = or_empty (category (req_body req))
    /\ PgServer.post_content p = Some c
    /\ PgServer.post_affiliateLink p = or_empty (affiliateLink (req_body req))
    /\ match image_urls (req_files req) with
       | first :: _ =>
         PgServer.images p = strings (image_urls (req_files req))
         /\ PgServer.imageUrl p = JStr first
       | [] =>
         PgServer.images p = PgServer.images old
         /\ PgServer.imageUrl p = PgServer.imageUrl old
       end
    /\ PgServer.updatedAt p = Some now
    /\ PgServer.id p = PgServer.id old
    /\ PgServer.date p = PgServer.date old
    /\ PgServer.posts_id_seq (fst out) = PgServer.posts_id_seq (PgServer.db_of w)
    /\ filter (fun r => negb (PgServer.row_id r =? postId)%Z) (PgServer.table (fst out))
       = filter (fun r => negb (PgServer.row_id r =? postId)%Z)
                (PgServer.table (PgServer.db_of w)).
Proof.
  intros Hr Hin Hid Hauth Ht Hnt Hc Hnc out.
  apply strict_neq_false in Hauth.
  pose proof (required_present _ _ _ Ht Hnt Hc Hnc) as Hval.
  destruct (pg_reachable_rows pw w Hr) as (Hrule & Hids & _).
  pose proof (pg_reachable_unique_ids pw w Hr) as Hnd.
  assert (Hsel : PgServer.select_post postId (PgServer.db_of w) = [existing]).
  { unfold PgServer.select_post. subst postId. now apply filter_unique_id. }
  rewrite Forall_forall in Hrule. destruct (Hrule _ Hin) as (l & Hi & Hu).
  subst out.
  rewrite (pg_put_post_served pw now postId req _ existing [] l Hauth Hval Hsel Hi Hu).
  rewrite (mapDbPost_row_rule existing l Hi Hu).
  do 2 eexists. split; [reflexivity|]. split; [reflexivity|].
  cbn [fst snd PgServer.post_title PgServer.post_category PgServer.post_content
       PgServer.post_affiliateLink PgServer.images PgServer.imageUrl
       PgServer.updatedAt PgServer.id PgServer.date PgServer.posts_id_seq
       PgServer.table].
  repeat split; auto.
  - destruct (image_urls (req_files req)); split; reflexivity.
  - apply filter_map_update. reflexivity.
Qed.


(** The file-backed revision, on the post [findIndex] finds: the same, but
    for the category and the affiliate link, which are stored as they came
    (see C4 below). *)
Lemma file_update_overwrites (pw : option string) (now postId : Z) (req : request)
    (f : FileServer.posts_file) (idx : nat) (existing : FileServer.post)
    (t c : string) :
  FileServer.findIndex postId (FileServer.readPosts f) = Some (idx, existing) ->
  adminPassword (req_body req) = pw ->
  title (req_body req) = Some t -> t <> "" ->
  content (req_body req) = Some c -> c <> "" ->
  let out := FileServer.put_post pw now postId req f in
  exists p,
    snd out = Res 200 (SuccessPost p)
    /\ fst out = Some (FileServer.assign idx p (FileServer.readPosts f))
    /\ FileServer.post_title p = Some t
    /\ FileServer.post_category p = category (req_body req)
    /\ FileServer.post_content p = Some c
    /\ FileServer.post_affiliateLink p = affiliateLink (req_body req)
    /\ match image_urls (req_files req) with
       | first :: _ =>
         FileServer.images p = Some (image_urls (req_files req))
         /\ FileServer.imageUrl p = Some first
       | [] =>
         FileServer.first_image_rule existing ->
         FileServer.images p = FileServer.images existing
         /\ FileServer.imageUrl p = FileServer.imageUrl existing
       end
    /\ FileServer.updatedAt p = Some now
    /\ FileServer.id p = FileServer.id existing
    /\ FileServer.date p = FileServer.date existing.
Proof.
  intros Hfind Hauth Ht Hnt Hc Hnc out. subst out.
  apply strict_neq_false in Hauth.
  pose proof (required_present _ _ _ Ht Hnt Hc Hnc) as Hval.
  unfold FileServer.put_post. rewrite Hauth, Hval, Hfind.
  eexists. split; [reflexivity|]. split; [reflexivity|].
  simpl. rewrite Ht, Hc. repeat split.
  destruct (image_urls (req_files req)) as [|u us]; [|split; reflexivity].
  intros (l & Hl & Hu). rewrite Hl, Hu. split; [reflexivity|].
  f_equal. unfold or_empty, truthy_str. rewrite first_or_empty_hd.
  destruct l as [|x l']; [reflexivity|].
  destruct (String.eqb_spec x ""); simpl; [subst x|]; reflexivity.
Qed.

(** C4 -- The claim holds of the database-backed revision
    ([pg_update_overwrites]) and, but for one point, of the file-backed one
    ([file_update_overwrites]).  The point: the file-backed PUT handler
    stores [category] and [affiliateLink] as they came, without the
    [|| ""] that its own POST handler and the database-backed PUT handler
    apply.  An update that sends neither field, on a post created with the
    category [Gear], leaves the file-backed post without a category and
    without an affiliate link, where the claim (and the other revision, on
    the same requests) has the empty string. *)
Theorem C4_file_update_forgets_the_defaults :
  let w1 := fst (FileServer.exec Sample.secret FileServer.initial
                   (FileServer.PostPosts 1000 1001 Sample.create_with_images)) in
  let d1 := fst (PgServer.post_posts Sample.secret 1000 true Sample.create_with_images
                                     (PgServer.Db [] 1)) in
  category (req_body Sample.update_New) = None
  /\ affiliateLink (req_body Sample.update_New) = None
  /\ (exists p,
        snd (FileServer.exec Sample.secret w1
                             (FileServer.PutPost 2000 1000 Sample.update_New))
        = Res 200 (SuccessPost p)
        /\ FileServer.post_category p = None
        /\ FileServer.post_affiliateLink p = None)
  /\ (exists q,
        snd (PgServer.put_post Sample.secret 2000 true true 1 Sample.update_New d1)
        = Res 200 (SuccessPost q)
        /\ PgServer.post_category q = ""
        /\ PgServer.post_affiliateLink q = "").
Proof.
  intros w1 d1. split; [reflexivity|]. split; [reflexivity|]. split.
  - eexists. split; [vm_compute; reflexivity|]. split; reflexivity.
  - eexists. split; [vm_compute; reflexivity|]. split; reflexivity.
Qed.

End Updates.

(* ================================================================== *)
(** * The image store                                                   *)
(* ================================================================== *)

Section ImageStoreFacts.
Import Js ImageStore Http Reply.

Lemma code_inj (c : ascii) (n : N) : (code c =? n)%N = true -> c = char n.
Proof.
  intros H. apply N.eqb_eq in H. unfold code, char in *.
  now rewrite <- H, ascii_N_embedding.
Qed.

Lemma length_list_ascii (s : string) :
  List.length (list_ascii_of_string s) = String.length s.
Proof.
  induction s as [|c s IH]; simpl; [reflexivity | now rewrite IH].
Qed.

Lemma substring_head (s : string) :
  forall (n m : nat) (c : ascii),
    nth_error (list_ascii_of_string s) n = Some c ->
    substring n (S m) s = String c (substring (S n) m s).
Proof.
  induction s as [|x s IH]; intros [|n] m c; simpl; try discriminate.
  - intros [= ->]. reflexivity.
  - intros H. rewrite (IH n m c H). reflexivity.
Qed.

(** Along the loop of [extname], a dot once marked is a dot of the path,
    lies before the marked end, and no dot or slash stands between the two.
    [pre] is the part of the path not yet visited. *)
Lemma extname_loop_dot (pre : list ascii) :
  forall (suf : list ascii) (st : scan),
    (forall e, end_ st = Some e -> matchedSlash st = false /\ List.length pre < e) ->
    (startDot st = None -> forall e k c,
        end_ st = Some e -> List.length pre <= k < e ->
        nth_error (pre ++ suf) k = Some c ->
        (code c =? 46)%N = false /\ (code c =? 47)%N = false) ->
    (forall sd, startDot st = Some sd ->
                nth_error (pre ++ suf) sd = Some "."%char
                /\ exists e, end_ st = Some e /\ sd < e
                   /\ forall k c, sd < k < e -> nth_error (pre ++ suf) k = Some c ->
                        (code c =? 46)%N = false /\ (code c =? 47)%N = false) ->
    let st' := extname_loop (rev pre) (List.length pre - 1) st in
    forall sd, startDot st' = Some sd ->
               nth_error (pre ++ suf) sd = Some "."%char
               /\ exists e, end_ st' = Some e /\ sd < e
                  /\ forall k c, sd < k < e -> nth_error (pre ++ suf) k = Some c ->
                       (code c =? 46)%N = false /\ (code c =? 47)%N = false.
Proof.
  induction pre as [|c pre IH] using rev_ind; intros suf st Hend Hrun Hdot.
  - simpl. exact Hdot.
  - rewrite rev_app_distr, length_app. simpl rev. simpl List.length.
    replace (List.length pre + 1 - 1) with (List.length pre) by lia.
    rewrite <- app_assoc. simpl app.
    rewrite length_app in Hend, Hrun. simpl in Hend, Hrun.
    rewrite <- app_assoc in Hdot, Hrun. simpl app in Hdot, Hrun.
    cbn [extname_loop]. rewrite <- Nat.sub_1_r.
    destruct st as [sdot spart e ms pds]. cbn [startDot end_ matchedSlash
      preDotState startPart] in *.
    assert (Hnth : nth_error (pre ++ c :: suf) (List.length pre) = Some c).
    { rewrite nth_error_app2 by lia. now rewrite Nat.sub_diag. }
    destruct (code c =? 47)%N eqn:Hslash.
    + destruct ms; cbn [negb].
      * destruct e as [e|]; [destruct (Hend e eq_refl); discriminate|].
        destruct sdot as [sd0|];
          [destruct (Hdot sd0 eq_refl) as (_ & e' & He' & _); discriminate|].
        apply IH; cbn [startDot end_ matchedSlash];
          [intros e' [=] | intros _ e' k c' [=] | intros sd [=]].
      * cbn [startDot end_]. exact Hdot.
    + destruct (code c =? 46)%N eqn:Hc.
      * pose proof (code_inj _ _ Hc) as Hc'.
        change (char 46) with "."%char in Hc'. subst c.
        destruct e as [e|]; destruct sdot as [sd0|];
          cbn [startDot end_ matchedSlash preDotState startPart].
        -- destruct (Hend e eq_refl) as [Hms Hlt].
           destruct (negb (pds =? 1)%Z);
             (apply IH; cbn [startDot end_ matchedSlash];
              [intros e' [= <-]; split; [exact Hms|lia]
              |intros [=]
              |exact Hdot]).
        -- destruct (Hend e eq_refl) as [Hms Hlt].
           apply IH; cbn [startDot end_ matchedSlash];
             [intros e' [= <-]; split; [exact Hms|lia] | intros [=] |].
           intros sd [= <-]. split; [exact Hnth|].
           exists e. split; [reflexivity|]. split; [lia|].
           intros k c Hk Hkc. apply (Hrun eq_refl e k c eq_refl); [lia|exact Hkc].
        -- destruct (Hdot sd0 eq_refl) as (_ & e' & He' & _). discriminate.
        -- apply IH; cbn [startDot end_ matchedSlash];
             [intros e' [= <-]; split; [reflexivity|lia] | intros [=] |].
           intros sd [= <-]. split; [exact Hnth|].
           exists (List.length pre + 1). split; [reflexivity|]. split; [lia|].
           intros k c Hk. lia.
      * destruct e as [e|]; destruct sdot as [sd0|];
          cbn [startDot end_ matchedSlash preDotState startPart].
        -- destruct (Hend e eq_refl) as [Hms Hlt].
           apply IH; cbn [startDot end_ matchedSlash];
             [intros e' [= <-]; split; [exact Hms|lia] | intros [=] | exact Hdot].
        -- destruct (Hend e eq_refl) as [Hms Hlt].
           apply IH; cbn [startDot end_ matchedSlash];
             [intros e' [= <-]; split; [exact Hms|lia] | | intros sd [=]].
           intros _ e' k c' [= <-] Hk Hkc.
           destruct (Nat.eq_dec k (List.length pre)) as [->|Hne].
           ++ rewrite Hnth in Hkc. injection Hkc as <-. auto.
           ++ apply (Hrun eq_refl e k c' eq_refl); [lia|exact Hkc].
        -- destruct (Hdot sd0 eq_refl) as (_ & e' & He' & _). discriminate.
        -- apply IH; cbn [startDot end_ matchedSlash];
             [intros e' [= <-]; split; [reflexivity|lia] | | intros sd [=]].
           intros _ e' k c' [= <-] Hk Hkc.
           assert (k = List.length pre) as -> by lia.
           rewrite Hnth in Hkc. injection Hkc as <-. auto.
Qed.

Lemma substring_chars (s : string) :
  forall (n m : nat) (c : ascii),
    In c (list_ascii_of_string (substring n m s)) ->
    exists k, n <= k < n + m /\ nth_error (list_ascii_of_string s) k = Some c.
Proof.
  induction s as [|x s IH]; intros [|n] [|m] c; simpl; try tauto.
  - intros [<-|Hin].
    + exists 0. split; [lia|reflexivity].
    + destruct (IH 0 m c Hin) as (k & Hk & Hnth).
      exists (S k). split; [lia|exact Hnth].
  - intros Hin. destruct (IH n 0 c Hin) as (k & Hk & Hnth). lia.
  - intros Hin. destruct (IH n (S m) c Hin) as (k & Hk & Hnth).
    exists (S k). split; [lia|exact Hnth].
Qed.

(** [path.extname] returns the empty string, or a dot followed by
    characters that are neither dots nor slashes. *)
Lemma extname_shape (path : string) :
  extname path = ""
  \/ exists t, extname path = String "." t
               /\ Forall (fun c => (code c =? 46)%N = false /\ (code c =? 47)%N = false)
                         (list_ascii_of_string t).
Proof.
  unfold extname.
  pose proof (extname_loop_dot (list_ascii_of_string path) [] scan0) as H.
  rewrite length_list_ascii, app_nil_r in H. cbv zeta in H.
  destruct (extname_loop _ _ scan0) as [sdot spart e ms pds].
  cbn [startDot end_ preDotState startPart] in *.
  destruct sdot as [sd|]; [|now left].
  destruct e as [e|]; [|now left].
  destruct (_ || _); [now left|]. right.
  destruct (H ltac:(discriminate) ltac:(discriminate) ltac:(discriminate) sd eq_refl)
    as (Hnth & e' & [= <-] & Hlt & Hplain).
  replace (e - sd) with (S (e - sd - 1)) by lia.
  rewrite (substring_head _ _ _ _ Hnth). eexists. split; [reflexivity|].
  apply Forall_forall. intros c Hc.
  apply substring_chars in Hc as (k & Hk & Hkc).
  apply (Hplain k c); [lia|exact Hkc].
Qed.

Lemma extname_stops (path : string) :
  extname path = "" \/ exists t, extname path = String "." t.
Proof.
  destruct (extname_shape path) as [H|(t & H & _)]; eauto.
Qed.

(** ** The loop on a run of characters that are neither dots nor slashes *)

Lemma loop_run_after_end (l : list ascii) :
  forall (rest : list ascii) (i sp e : nat) (ms : bool) (pds : Z),
    Forall (fun c => (code c =? 46)%N = false /\ (code c =? 47)%N = false) l ->
    extname_loop (l ++ rest) i (Scan None sp (Some e) ms pds)
    = extname_loop rest (i - List.length l) (Scan None sp (Some e) ms pds).
Proof.
  induction l as [|c l IH]; intros rest i sp e ms pds Hl; simpl app.
  - simpl. now rewrite Nat.sub_0_r.
  - inversion Hl as [|? ? [Hdot Hslash] Hl']; subst.
    cbn [extname_loop]. rewrite Hslash, Hdot.
    cbn [startDot end_ matchedSlash preDotState startPart].
    rewrite IH by exact Hl'. f_equal. simpl. lia.
Qed.

Lemma loop_run_before_end (l : list ascii) :
  forall (rest : list ascii) (i sp : nat) (ms : bool) (pds : Z),
    Forall (fun c => (code c =? 46)%N = false /\ (code c =? 47)%N = false) l ->
    l <> [] ->
    extname_loop (l ++ rest) i (Scan None sp None ms pds)
    = extname_loop rest (i - List.length l) (Scan None sp (Some (i + 1)) false pds).
Proof.
  intros rest i sp ms pds Hl Hne. destruct l as [|c l]; [contradiction|].
  inversion Hl as [|? ? [Hdot Hslash] Hl']; subst.
  simpl app. cbn [extname_loop]. rewrite Hslash, Hdot.
  cbn [startDot end_ matchedSlash preDotState startPart].
  rewrite loop_run_after_end by exact Hl'. f_equal. simpl. lia.
Qed.

Lemma loop_run_after_dot (l : list ascii) :
  forall (rest : list ascii) (i sd sp e : nat) (ms : bool) (pds : Z),
    Forall (fun c => (code c =? 46)%N = false /\ (code c =? 47)%N = false) l ->
    l <> [] ->
    extname_loop (l ++ rest) i (Scan (Some sd) sp (Some e) ms pds)
    = extname_loop rest (i - List.length l) (Scan (Some sd) sp (Some e) ms (-1)).
Proof.
  induction l as [|c l IH]; intros rest i sd sp e ms pds Hl Hne; [contradiction|].
  inversion Hl as [|? ? [Hdot Hslash] Hl']; subst.
  simpl app. cbn [extname_loop]. rewrite Hslash, Hdot.
  cbn [startDot end_ matchedSlash preDotState startPart].
  destruct l as [|c' l].
  - simpl. f_equal. lia.
  - rewrite IH by (try exact Hl'; discriminate). f_equal. simpl. lia.
Qed.

Lemma list_ascii_append (a b : string) :
  list_ascii_of_string (a ++ b) = (list_ascii_of_string a ++ list_ascii_of_string b)%list.
Proof.
  induction a as [|x a IH]; simpl; [reflexivity | now rewrite IH].
Qed.

Lemma substring_append (a b : string) :
  substring (String.length a) (String.length b) (a ++ b) = b.
Proof.
  induction a as [|x a IH]; simpl; [|exact IH].
  induction b as [|y b IHb]; simpl; [reflexivity | now rewrite IHb].
Qed.

(** A name without dot or slash has no extension. *)
Lemma extname_plain (p : string) :
  Forall (fun c => (code c =? 46)%N = false /\ (code c =? 47)%N = false)
         (list_ascii_of_string p) ->
  extname p = "".
Proof.
  intros Hp. unfold extname.
  destruct (list_ascii_of_string p) as [|c l] eqn:Hl.
  - destruct p; [reflexivity|discriminate].
  - rewrite <- Hl in *. clear Hl c l.
    rewrite <- (app_nil_r (rev (list_ascii_of_string p))).
    unfold scan0.
    destruct (rev (list_ascii_of_string p)) as [|c l] eqn:Hr.
    + reflexivity.
    + rewrite <- Hr. rewrite loop_run_before_end.
      * reflexivity.
      * apply Forall_forall. intros x Hx. apply in_rev in Hx.
        rewrite Forall_forall in Hp. auto.
      * rewrite Hr. discriminate.
Qed.

(** A dot and a run without dot or slash, put after a name without dot or
    slash, are the extension of the whole. *)
Lemma extname_append (p t : string) :
  Forall (fun c => (code c =? 46)%N = false /\ (code c =? 47)%N = false)
         (list_ascii_of_string p) ->
  p <> "" ->
  Forall (fun c => (code c =? 46)%N = false /\ (code c =? 47)%N = false)
         (list_ascii_of_string t) ->
  extname (p ++ String "." t) = String "." t.
Proof.
  intros Hp Hne Ht. unfold extname.
  rewrite list_ascii_append, length_append. simpl list_ascii_of_string.
  rewrite rev_app_distr. simpl rev. rewrite <- app_assoc. simpl app.
  simpl String.length.
  set (lp := list_ascii_of_string p) in *.
  set (lt := list_ascii_of_string t) in *.
  assert (Hlp : List.length lp = String.length p) by apply length_list_ascii.
  assert (Hlt : List.length lt = String.length t) by apply length_list_ascii.
  assert (Hrp : Forall (fun c => (code c =? 46)%N = false /\ (code c =? 47)%N = false)
                       (rev lp)).
  { apply Forall_forall. intros x Hx. apply in_rev in Hx.
    rewrite Forall_forall in Hp. auto. }
  assert (Hrt : Forall (fun c => (code c =? 46)%N = false /\ (code c =? 47)%N = false)
                       (rev lt)).
  { apply Forall_forall. intros x Hx. apply in_rev in Hx.
    rewrite Forall_forall in Ht. auto. }
  assert (Hrne : rev lp <> []).
  { intros H. apply (f_equal (@List.length ascii)) in H.
    rewrite length_rev, Hlp in H. destruct p; [contradiction|discriminate]. }
  assert (Hfinal :
    extname_loop (rev lt ++ "."%char :: rev lp)
                 (String.length p + S (String.length t) - 1) scan0
    = Scan (Some (String.length p)) 0
           (Some (String.length p + S (String.length t))) false (-1)).
  { unfold scan0.
    assert (Hcase : rev lt = [] \/ rev lt <> []).
    { destruct (rev lt); [now left | right; discriminate]. }
    destruct Hcase as [Hr|Hr].
    - assert (String.length t = 0) as ->.
      { rewrite <- Hlt, <- length_rev, Hr. reflexivity. }
      rewrite Hr. simpl app. cbn [extname_loop].
      change (code "." =? 47)%N with false. change (code "." =? 46)%N with true.
      cbn [startDot end_ matchedSlash preDotState startPart].
      rewrite <- (app_nil_r (rev lp)).
      rewrite loop_run_after_dot by assumption. simpl.
      f_equal; f_equal; lia.
    - rewrite loop_run_before_end by assumption.
      rewrite length_rev, Hlt. cbn [extname_loop].
      change (code "." =? 47)%N with false. change (code "." =? 46)%N with true.
      cbn [startDot end_ matchedSlash preDotState startPart].
      rewrite <- (app_nil_r (rev lp)).
      rewrite loop_run_after_dot by assumption. simpl.
      f_equal; f_equal; lia. }
  rewrite Hfinal. cbn [startDot end_ preDotState startPart].
  change ((-1 =? 0)%Z) with false. change ((-1 =? 1)%Z) with false. cbn [orb andb].
  replace (String.length p + S (String.length t) - String.length p)
    with (String.length (String "." t)) by (simpl; lia).
  apply substring_append.
Qed.

(** ** Decimal numerals *)

Lemma string_of_uint_digits (d : Decimal.uint) :
  Forall (fun c => digit_val c <> None)
         (list_ascii_of_string (NilEmpty.string_of_uint d)).
Proof.
  induction d; simpl; constructor; try exact IHd; discriminate.
Qed.

Lemma to_uint_nonnil (n : N) : N.to_uint n <> Decimal.Nil.
Proof.
  destruct n as [|p]; simpl; [discriminate|].
  apply DecimalPos.Unsigned.to_uint_nonnil.
Qed.

Lemma dec_NilEmpty (n : N) : dec n = NilEmpty.string_of_uint (N.to_uint n).
Proof.
  unfold dec, NilZero.string_of_uint.
  pose proof (to_uint_nonnil n). now destruct (N.to_uint n).
Qed.

Lemma dec_digits (n : N) :
  Forall (fun c => digit_val c <> None) (list_ascii_of_string (dec n)).
Proof. rewrite dec_NilEmpty. apply string_of_uint_digits. Qed.

Lemma dec_inj (a b : N) : dec a = dec b -> a = b.
Proof.
  rewrite !dec_NilEmpty. intros H.
  apply DecimalN.Unsigned.to_uint_inj.
  apply (f_equal NilEmpty.uint_of_string) in H.
  rewrite !NilEmpty.usu in H. now injection H.
Qed.

(** Two texts made of a run of digits and a rest that does not go on with
    a digit are equal only part by part. *)
Lemma digits_split (a1 : string) :
  forall (a2 b1 b2 : string),
    Forall (fun c => digit_val c <> None) (list_ascii_of_string a1) ->
    Forall (fun c => digit_val c <> None) (list_ascii_of_string a2) ->
    (b1 = "" \/ exists c r, b1 = String c r /\ digit_val c = None) ->
    (b2 = "" \/ exists c r, b2 = String c r /\ digit_val c = None) ->
    a1 ++ b1 = a2 ++ b2 -> a1 = a2 /\ b1 = b2.
Proof.
  induction a1 as [|x a1 IH]; intros [|y a2] b1 b2 H1 H2 Hb1 Hb2 He; simpl in *.
  - auto.
  - exfalso. apply Forall_inv in H2.
    destruct Hb1 as [Hb1|(c & r & Hb1 & Hc)]; rewrite Hb1 in He; [discriminate|].
    injection He as Hcy _. congruence.
  - exfalso. apply Forall_inv in H1.
    destruct Hb2 as [Hb2|(c & r & Hb2 & Hc)]; rewrite Hb2 in He; [discriminate|].
    injection He as Hcx _. congruence.
  - injection He as -> He.
    apply Forall_inv_tail in H1. apply Forall_inv_tail in H2.
    destruct (IH a2 b1 b2 H1 H2 Hb1 Hb2 He) as [-> ->]. auto.
Qed.

(** Two generated names are equal only if the clock, the random draw and
    the extension all agree. *)
Lemma filename_inj (field : string) (n1 r1 n2 r2 : N) (o1 o2 : string) :
  filename n1 r1 field o1 = filename n2 r2 field o2 ->
  n1 = n2 /\ r1 = r2 /\ extname o1 = extname o2.
Proof.
  unfold filename. intros H.
  apply append_inv_head in H. injection H as H.
  rewrite !append_assoc in H.
  assert (Hext : forall o, extname o = ""
                           \/ exists c r, extname o = String c r /\ digit_val c = None).
  { intros o. destruct (extname_stops o) as [->|[t ->]]; [now left|].
    right. exists "."%char, t. split; reflexivity. }
  apply digits_split in H as [Hn H]; try apply dec_digits.
  2,3: right; eexists "-"%char, _; split; reflexivity.
  injection H as H.
  apply digits_split in H as [Hr H]; try apply dec_digits; auto.
  apply dec_inj in Hn, Hr. auto.
Qed.


Lemma digit_plain (c : ascii) :
  digit_val c <> None -> (code c =? 46)%N = false /\ (code c =? 47)%N = false.
Proof.
  unfold digit_val. intros H.
  destruct (N.leb_spec 48 (code c)); simpl in H; [|contradiction].
  split; apply N.eqb_neq; lia.
Qed.

(** The generated name keeps the extension of the original name. *)
Lemma extname_filename (now rnd : N) (field orig : string) :
  Forall (fun c => (code c =? 46)%N = false /\ (code c =? 47)%N = false)
         (list_ascii_of_string field) ->
  extname (filename now rnd field orig) = extname orig.
Proof.
  intros Hfield. unfold filename.
  set (p := field ++ "-" ++ dec now ++ "-" ++ dec rnd).
  assert (Hp : Forall (fun c => (code c =? 46)%N = false /\ (code c =? 47)%N = false)
                      (list_ascii_of_string p)).
  { subst p. rewrite !list_ascii_append. simpl list_ascii_of_string.
    repeat (apply Forall_app; split); try exact Hfield;
      try (eapply Forall_impl; [|apply dec_digits]; apply digit_plain);
      repeat constructor. }
  assert (Hne : p <> "").
  { subst p. intros H. apply (f_equal String.length) in H.
    rewrite !length_append in H. simpl in H. lia. }
  replace (field ++ "-" ++ (dec now ++ "-" ++ dec rnd) ++ extname orig)
    with (p ++ extname orig) by (subst p; now rewrite !append_assoc).
  destruct (extname_shape orig) as [->|(t & -> & Ht)].
  - rewrite append_nil_r. now apply extname_plain.
  - now apply extname_append.
Qed.

(** C8 (as amended) -- For every uploaded file the image store generates a
    name derived from a timestamp component (the clock's reading) combined
    with a random component (the draw), preserving the original file name's
    extension -- it is the extension of the generated name as well -- such
    that two generated names collide only if their timestamp components,
    their random components and their extensions all coincide; and the
    paths recorded for a created post have the form
    [/uploads/<generated-name>], one per file, in both revisions. *)
Theorem C8_generated_names :
  (forall field n1 r1 o1 n2 r2 o2,
      filename n1 r1 field o1 = filename n2 r2 field o2 ->
      n1 = n2 /\ r1 = r2 /\ extname o1 = extname o2)
  /\ (forall now rnd orig,
      extname (filename now rnd "images" orig) = extname orig)
  /\ (forall parts,
      image_urls (Some (upload_array "images" parts))
      = map (fun p => "/uploads/"
                      ++ filename (part_now p) (part_rnd p) "images"
                                  (part_originalname p)) parts)
  /\ (forall pw req t c,
      adminPassword (req_body req) = pw ->
      title (req_body req) = Some t -> t <> "" ->
      content (req_body req) = Some c -> c <> "" ->
      (forall now_id now_date f, exists p,
          snd (FileServer.post_posts pw now_id now_date req f)
          = Res 200 (SuccessPost p)
          /\ FileServer.images p = Some (image_urls (req_files req)))
      /\ (forall db_now d, exists p,
          snd (PgServer.post_posts pw db_now true req d) = Res 200 (SuccessPost p)
          /\ PgServer.images p = strings (image_urls (req_files req)))).
Proof.
  split; [|split; [|split]].
  - intros. now apply filename_inj with (field := field).
  - intros. apply extname_filename. repeat constructor.
  - intros parts. unfold image_urls, upload_array, upload_url.
    rewrite map_map. reflexivity.
  - intros pw req t c Hauth Ht Hnt Hc Hnc.
    apply strict_neq_false in Hauth.
    pose proof (required_present _ _ _ Ht Hnt Hc Hnc) as Hval.
    split.
    + intros. unfold FileServer.post_posts. rewrite Hauth, Hval.
      eexists. split; reflexivity.
    + intros. rewrite (pg_post_posts_served pw db_now req d Hauth Hval).
      eexists. split; reflexivity.
Qed.

(** Two names that agree: the clock and the draw agree. *)
Lemma C8_witness :
  filename 1000 7 "images" "a.png" = filename 1000 7 "images" "b.png"
  /\ (1000 = 1000 /\ 7 = 7 /\ extname "a.png" = extname "b.png")%N.
Proof.
  assert (H : filename 1000 7 "images" "a.png" = filename 1000 7 "images" "b.png")
    by reflexivity.
  split; [exact H|].
  apply (proj1 C8_generated_names "images" 1000%N 7%N "a.png" 1000%N 7%N "b.png" H).
Defined.

(** C8 (as stated) fails: two files stored in the same millisecond, with
    the same random draw and the same extension, get the same name, and the
    second is written over the first. *)
Lemma C8_same_clock_same_draw_same_name :
  map file_filename
      (upload_array "images" [Part "a.png" 1000 7; Part "b.png" 1000 7])
  = ["images-1000-7.png"; "images-1000-7.png"]
  /\ image_urls (Some (upload_array "images"
                         [Part "a.png" 1000 7; Part "b.png" 1000 7]))
     = ["/uploads/images-1000-7.png"; "/uploads/images-1000-7.png"].
Proof.
  split; reflexivity.
Qed.

End ImageStoreFacts.

(* ================================================================== *)
(** * The normalisation of stored rows                                  *)
(* ================================================================== *)

Section Normalisation.
Import Js ImageStore Http Reply PgServer.

(** A native array is taken as it is. *)
Lemma normalize_array (l : list jsval) : normalize (JArr l) = JArr l.
Proof. reflexivity. Qed.

(** A text that is empty or white space only gives the empty list. *)
Lemma normalize_blank (s : string) : blank s = true -> normalize (JStr s) = JArr [].
Proof. intros H. unfold normalize, trim_nonempty. now rewrite H. Qed.

(** A text that [JSON.parse] refuses gives the empty list. *)
Lemma normalize_unparsable (s : string) :
  JSON_parse s = None -> normalize (JStr s) = JArr [].
Proof.
  intros H. unfold normalize. rewrite H. now destruct (trim_nonempty s).
Qed.

(** A text that [JSON.parse] reads gives what it reads. *)
Lemma normalize_parsed (s : string) (v : jsval) :
  blank s = false -> JSON_parse s = Some v -> normalize (JStr s) = v.
Proof.
  intros Hb Hp. unfold normalize, trim_nonempty. now rewrite Hb, Hp.
Qed.

(** An absent value, and any value that is neither an array nor a string,
    gives the empty list. *)
Lemma normalize_other (v : jsval) :
  (forall l, v <> JArr l) -> (forall s, v <> JStr s) -> normalize v = JArr [].
Proof.
  intros Ha Hs. destruct v; try reflexivity.
  - now destruct (Hs s).
  - now destruct (Ha l).
Qed.

Lemma code_bound (c : ascii) : (code c < 256)%N.
Proof. apply N_ascii_bounded. Qed.

Lemma blank_bracket (r : string) : blank (String "[" r) = false.
Proof.
  destruct r as [|c1 [|c2 r2]]; try reflexivity.
  cbn [blank]. change (code "[") with 91%N.
  pose proof (code_bound c1). pose proof (code_bound c2).
  cbn [N.leb N.eqb N.compare Pos.compare Pos.compare_cont andb orb Pos.eqb].
  repeat match goal with
         | |- context [(?a =? ?b)%N] =>
           replace (a =? b)%N with false by (symmetry; apply N.eqb_neq; lia)
         | |- context [(?a <=? ?b)%N] =>
           replace (a <=? b)%N with false by (symmetry; apply N.leb_gt; lia)
         end.
  reflexivity.
Qed.

(** The text of an array of strings gives that array. *)
Lemma normalize_text_of_strings (l : list string) :
  normalize (JStr (JSON_stringify (strings l))) = strings l.
Proof.
  unfold normalize, trim_nonempty. rewrite parse_stringify_strings.
  rewrite stringify_strings.
  change ("[" ++ join "," (map quote l) ++ "]")
    with (String "[" (join "," (map quote l) ++ "]")).
  now rewrite blank_bracket.
Qed.

(** A row that holds the array as JSON text (a column of type text, in
    place of jsonb) maps to the same post as the row that holds it
    natively. *)
Lemma mapDbPost_text_row (r : row) (l : list string) :
  mapDbPost (Row (row_id r) (row_title r) (row_category r) (row_content r)
                 (JStr (JSON_stringify (strings l))) (image_url r)
                 (affiliate_link r) (created_at r) (updated_at r))
  = mapDbPost (Row (row_id r) (row_title r) (row_category r) (row_content r)
                   (strings l) (image_url r)
                   (affiliate_link r) (created_at r) (updated_at r)).
Proof.
  unfold mapDbPost. cbn [row_images]. rewrite normalize_text_of_strings.
  reflexivity.
Qed.

(** The result is a list, unless the value is a text that parses to
    something else. *)
Lemma normalize_not_a_list (v : jsval) :
  (forall l, normalize v <> JArr l) ->
  exists s, v = JStr s /\ blank s = false
            /\ JSON_parse s = Some (normalize v).
Proof.
  intros H. destruct v; try (now destruct (H [])).
  - exists s. unfold normalize, trim_nonempty in *.
    destruct (blank s); simpl in *; [now destruct (H [])|].
    destruct (JSON_parse s); [auto | now destruct (H [])].
  - now destruct (H l).
Qed.

(** C5 -- The normalisation takes a native list as it is, parses a text,
    and maps an unparsable text, an empty or blank text and an absent value
    to the empty list ([normalize_array], [normalize_parsed],
    [normalize_unparsable], [normalize_blank], [normalize_other]).  But it
    does not always expose a list: a text that is valid JSON for something
    other than an array is parsed and passed on as it is.  On a row whose
    [images] is the text of an empty object, [mapDbPost] returns a post
    whose [images] is that object; the same object held natively gives the
    empty list; and on the text [null], when the row has no [image_url],
    [mapDbPost] throws on [images[0]]. *)
Theorem C5_parsed_text_is_not_checked_to_be_a_list :
  let row (imgs : jsval) (url : option string) :=
    Row 1 (Some "t") (Some "") (Some "c") imgs url (Some "") (Some 1000%Z) None in
  (exists p, mapDbPost (row (JStr "{}") (Some "/uploads/a.png")) = Some p
             /\ images p = JObj []
             /\ forall l, images p <> JArr l)
  /\ (exists p, mapDbPost (row (JObj []) (Some "/uploads/a.png")) = Some p
                /\ images p = JArr [])
  /\ (exists p, mapDbPost (row (JStr "null") (Some "/uploads/a.png")) = Some p
                /\ images p = JNull)
  /\ mapDbPost (row (JStr "null") None) = None.
Proof.
  intros row. repeat split.
  - eexists. split; [vm_compute; reflexivity|]. split; [reflexivity|]. discriminate.
  - eexists. split; [vm_compute; reflexivity|]. reflexivity.
  - eexists. split; [vm_compute; reflexivity|]. reflexivity.
Qed.

End Normalisation.

(* ================================================================== *)
(** * Further properties: errors and what they leave behind            *)
(* ================================================================== *)

Section Failures.
Import Js ImageStore Http Reply.

(** X1 -- An update of an id that no stored post has, sent with the
    configured secret and with title and content set, is answered 404 and
    changes nothing, in either revision (in the database-backed one, once
    the SELECT is served, whether or not the UPDATE would be). *)
Theorem X1_update_of_unknown_id_is_404
    (pw : option string) (req : request) (t c : string) (postId : Z) :
  adminPassword (req_body req) = pw ->
  title (req_body req) = Some t -> t <> "" ->
  content (req_body req) = Some c -> c <> "" ->
  (forall now f,
      Forall (fun p => FileServer.id p <> postId) (FileServer.readPosts f) ->
      FileServer.put_post pw now postId req f = (f, Res 404 (Error "Post not found")))
  /\ (forall now up2 d,
      Forall (fun r => PgServer.row_id r <> postId) (PgServer.table d) ->
      PgServer.put_post pw now true up2 postId req d
      = (d, Res 404 (Error "Post not found"))).
Proof.
  intros Hauth Ht Hnt Hc Hnc. apply strict_neq_false in Hauth.
  pose proof (required_present _ _ _ Ht Hnt Hc Hnc) as Hval.
  split.
  - intros now f Hno. unfold FileServer.put_post. rewrite Hauth, Hval.
    now rewrite (proj2 (findIndex_none postId _) Hno).
  - intros now up2 d Hno. unfold PgServer.put_post. rewrite Hauth, Hval.
    cbn [negb]. unfold PgServer.select_post. rewrite filter_none; [reflexivity|].
    eapply Forall_impl; [|exact Hno]. simpl. intros r Hr.
    now destruct (Z.eqb_spec (PgServer.row_id r) postId).
Qed.

(** An update of post 7 on a database that only holds post 1. *)
Lemma X1_witness :
  let d := fst (PgServer.post_posts Sample.secret 1000 true Sample.create_AB
                                    (PgServer.Db [] 1)) in
  Forall (fun r => PgServer.row_id r <> 7%Z) (PgServer.table d)
  /\ PgServer.put_post Sample.secret 2000 true true 7 Sample.update_New d
     = (d, Res 404 (Error "Post not found")).
Proof.
  intros d.
  assert (Hno : Forall (fun r => PgServer.row_id r <> 7%Z) (PgServer.table d))
    by (repeat constructor; simpl; discriminate).
  assert (Ht : "New" <> "") by discriminate.
  assert (Hc : "C" <> "") by discriminate.
  split; [exact Hno|].
  apply (proj2 (X1_update_of_unknown_id_is_404 Sample.secret Sample.update_New
                  "New" "C" 7%Z eq_refl eq_refl Ht eq_refl Hc) 2000%Z true d Hno).
Defined.

(** X2 -- In the database-backed revision a query that the pool rejects
    ends the request with 500 and the handler's fixed message, and the
    database is as it was: for the list; for a create, an update and a
    delete that passed the gate and the validation; and for an update
    whose SELECT found the row but whose UPDATE is rejected. *)
Theorem X2_rejected_query_is_500
    (pw : option string) (req : request) (t c : string) :
  adminPassword (req_body req) = pw ->
  title (req_body req) = Some t -> t <> "" ->
  content (req_body req) = Some c -> c <> "" ->
  (forall d, PgServer.get_posts false d = Res 500 (Error "Failed to fetch posts"))
  /\ (forall db_now d,
      PgServer.post_posts pw db_now false req d
      = (d, Res 500 (Error "Failed to create post")))
  /\ (forall now up2 postId d,
      PgServer.put_post pw now false up2 postId req d
      = (d, Res 500 (Error "Failed to update post")))
  /\ (forall now postId d,
      Exists (fun r => PgServer.row_id r = postId) (PgServer.table d) ->
      PgServer.put_post pw now true false postId req d
      = (d, Res 500 (Error "Failed to update post")))
  /\ (forall postId d,
      PgServer.delete_post pw false postId (option_map JStr pw) d
      = (d, Res 500 (Error "Failed to delete post"))).
Proof.
  intros Hauth Ht Hnt Hc Hnc. apply strict_neq_false in Hauth.
  pose proof (required_present _ _ _ Ht Hnt Hc Hnc) as Hval.
  repeat split.
  - intros. unfold PgServer.post_posts. now rewrite Hauth, Hval.
  - intros. unfold PgServer.put_post. now rewrite Hauth, Hval.
  - intros now postId d Hex. unfold PgServer.put_post. rewrite Hauth, Hval.
    cbn [negb].
    destruct (PgServer.select_post postId d) as [|existing more] eqn:Hsel.
    + exfalso. apply Exists_exists in Hex as (r & Hin & Hid).
      assert (H : In r (PgServer.select_post postId d)).
      { apply filter_In. split; [exact Hin|]. now rewrite Hid, Z.eqb_refl. }
      rewrite Hsel in H. destruct H.
    + destruct (image_urls (req_files req)); [|reflexivity].
      destruct (PgServer.url_or_first _ _); reflexivity.
  - intros. unfold PgServer.delete_post.
    now rewrite (proj2 (strict_neq_val_false _ _) eq_refl).
Qed.

(** A create while the database is away. *)
Lemma X2_witness :
  PgServer.post_posts Sample.secret 1000 false Sample.create_AB (PgServer.Db [] 1)
  = (PgServer.Db [] 1, Res 500 (Error "Failed to create post")).
Proof.
  assert (Ht : "A" <> "") by discriminate.
  assert (Hc : "B" <> "") by discriminate.
  apply (proj1 (proj2 (X2_rejected_query_is_500 Sample.secret Sample.create_AB
                         "A" "B" eq_refl eq_refl Ht eq_refl Hc))).
Defined.

Lemma pg_delete_404_keeps (pw : option string) (up : bool) (postId : Z)
    (password : option jsval) (d : PgServer.database) :
  status (snd (PgServer.delete_post pw up postId password d)) <> 200 ->
  fst (PgServer.delete_post pw up postId password d) = d.
Proof.
  unfold PgServer.delete_post, PgServer.delete_from_posts.
  destruct (strict_neq_val _ _); [reflexivity|].
  destruct up; [|reflexivity]. cbn [negb].
  destruct (filter (fun r => (PgServer.row_id r =? postId)%Z) (PgServer.table d))
    as [|r rows] eqn:Hhit; simpl; [intros _|intros H; now destruct H].
  rewrite filter_all; [destruct d; reflexivity|].
  apply Forall_forall. intros r Hr.
  destruct (Z.eqb_spec (PgServer.row_id r) postId) as [He|]; [|reflexivity].
  assert (H : In r (filter (fun r => (PgServer.row_id r =? postId)%Z)
                           (PgServer.table d))).
  { apply filter_In. split; [exact Hr|]. now rewrite He, Z.eqb_refl. }
  rewrite Hhit in H. destruct H.
Qed.

(** X3 -- A request that is not answered 200 has changed nothing: the file
    of the file-backed revision, in any state, and the database of the
    database-backed revision, in every reachable state, are exactly as
    they were before the request. *)
Theorem X3_only_a_200_changes_the_store :
  (forall pw w e,
      status (snd (FileServer.exec pw w e)) <> 200 ->
      FileServer.file_of (fst (FileServer.exec pw w e)) = FileServer.file_of w)
  /\ (forall pw w e,
      PgServer.reachable pw w ->
      status (snd (PgServer.exec pw w e)) <> 200 ->
      PgServer.db_of (fst (PgServer.exec pw w e)) = PgServer.db_of w).
Proof.
  split.
  - intros pw w [|now_id now_date req|now postId req|postId password];
      cbn [FileServer.exec].
    + reflexivity.
    + unfold FileServer.post_posts.
      destruct (strict_neq _ _); [reflexivity|].
      destruct (missing_required _); [reflexivity|].
      simpl. intros H. now destruct H.
    + unfold FileServer.put_post.
      destruct (strict_neq _ _); [reflexivity|].
      destruct (missing_required _); [reflexivity|].
      destruct (FileServer.findIndex _ _) as [[idx q]|]; [|reflexivity].
      simpl. intros H. now destruct H.
    + unfold FileServer.delete_post.
      destruct (strict_neq_val _ _); [reflexivity|].
      destruct (_ =? _)%nat; [reflexivity|].
      simpl. intros H. now destruct H.
  - intros pw w e Hr. destruct (pg_reachable_rows pw w Hr) as (Hrule & _ & _).
    destruct e as [up|db_now up req|now up1 up2 postId req|up postId password];
      cbn [PgServer.exec].
    + reflexivity.
    + destruct (pg_post_posts_cases pw db_now up req (PgServer.db_of w))
        as [(s & m & He)|(-> & Hauth & Hval)].
      * rewrite He. reflexivity.
      * rewrite (pg_post_posts_served pw db_now req _ Hauth Hval).
        simpl. intros H. now destruct H.
    + destruct (pg_put_post_cases pw now up1 up2 postId req (PgServer.db_of w) Hrule)
        as [(s & m & He)|(-> & -> & Hauth & Hval & ex & more & l & Hsel & Hi & Hu)].
      * rewrite He. reflexivity.
      * rewrite (pg_put_post_served pw now postId req _ ex more l Hauth Hval Hsel Hi Hu).
        simpl. intros H. now destruct H.
    + pose proof (pg_delete_404_keeps pw up postId password (PgServer.db_of w)) as H.
      destruct (PgServer.delete_post _ _ _ _ _) as [d' r]. exact H.
Qed.

(** A delete of an id that is not there, on a reachable database. *)
Lemma X3_witness :
  let w := fst (PgServer.exec Sample.secret PgServer.initial
                              (PgServer.PostPosts 1000 true Sample.create_AB)) in
  let e := PgServer.DeletePost true 7 (Some (JStr "s3cret")) in
  PgServer.reachable Sample.secret w
  /\ status (snd (PgServer.exec Sample.secret w e)) <> 200
  /\ PgServer.db_of (fst (PgServer.exec Sample.secret w e)) = PgServer.db_of w.
Proof.
  intros w e.
  assert (Hr : PgServer.reachable Sample.secret w)
    by (apply PgServer.reach_step, PgServer.reach_initial).
  assert (Hs : status (snd (PgServer.exec Sample.secret w e)) <> 200)
    by (vm_compute; discriminate).
  split; [exact Hr|]. split; [exact Hs|].
  apply (proj2 X3_only_a_200_changes_the_store Sample.secret w e Hr Hs).
Defined.

(** X4 -- In every reachable state of the database-backed revision a list
    call whose query is served is answered 200, with exactly one post per
    row of the table: [mapDbPost] never throws on the rows the handlers
    write. *)
Theorem X4_served_list_never_fails (pw : option string) (w : PgServer.world) :
  PgServer.reachable pw w ->
  exists ps,
    PgServer.get_posts true (PgServer.db_of w) = Res 200 (Posts ps)
    /\ List.length ps = List.length (PgServer.table (PgServer.db_of w)).
Proof.
  intros Hr. destruct (pg_reachable_rows pw w Hr) as (Hrule & _ & _).
  unfold PgServer.get_posts.
  assert (Hrule' : Forall PgServer.row_rule (PgServer.select_posts (PgServer.db_of w))).
  { apply (Forall_perm _ (PgServer.table (PgServer.db_of w))); [apply sort_by_perm|].
    exact Hrule. }
  destruct (map_mapDbPost_total _ Hrule') as [ps Hps]. rewrite Hps.
  exists ps. split; [reflexivity|].
  rewrite (Permutation_length (sort_by_perm PgServer.created_at_desc
                                 (PgServer.table (PgServer.db_of w)))).
  fold (PgServer.select_posts (PgServer.db_of w)).
  clear Hrule'. revert ps Hps.
  induction (PgServer.select_posts (PgServer.db_of w)) as [|r rows IH]; simpl;
    intros ps Hps.
  - now injection Hps as <-.
  - destruct (PgServer.mapDbPost r); [|discriminate].
    destruct (PgServer.map_mapDbPost rows) as [qs|]; [|discriminate].
    injection Hps as <-. simpl. f_equal. now apply IH.
Qed.

(** The list that follows two creates. *)
Lemma X4_witness :
  let w1 := fst (PgServer.exec Sample.secret PgServer.initial
                               (PgServer.PostPosts 1000 true Sample.create_AB)) in
  let w2 := fst (PgServer.exec Sample.secret w1
                               (PgServer.PostPosts 1001 true Sample.create_with_images)) in
  PgServer.reachable Sample.secret w2
  /\ exists ps,
       PgServer.get_posts true (PgServer.db_of w2) = Res 200 (Posts ps)
       /\ List.length ps = List.length (PgServer.table (PgServer.db_of w2)).
Proof.
  intros w1 w2.
  assert (Hr : PgServer.reachable Sample.secret w2)
    by (do 2 apply PgServer.reach_step; apply PgServer.reach_initial).
  split; [exact Hr|].
  apply (X4_served_list_never_fails Sample.secret w2 Hr).
Defined.

End Failures.

(* ================================================================== *)
(** * Further properties: the normaliser                               *)
(* ================================================================== *)

Section NormaliserEdges.
Import Js ImageStore Http Reply PgServer.

Lemma index0_TypeError (v : jsval) : index0 v = TypeError <-> v = JNull.
Proof.
  split; [|now intros ->].
  destruct v as [|b|d|s|l|kv]; simpl; try discriminate; [reflexivity| | |].
  - destruct (first_unit s); discriminate.
  - destruct l; discriminate.
  - destruct (lookup_last "0" kv); discriminate.
Qed.

Lemma url_or_first_None (url : option string) (imgs : jsval) :
  url_or_first url imgs = None <-> truthy_str url = false /\ imgs = JNull.
Proof.
  unfold url_or_first. split.
  - destruct (truthy_str url); [discriminate|].
    destruct (index0 imgs) eqn:Hi; try discriminate.
    intros _. split; [reflexivity|]. now apply index0_TypeError.
  - intros [-> ->]. reflexivity.
Qed.

Lemma normalize_null (v : jsval) :
  normalize v = JNull
  <-> exists s, v = JStr s /\ blank s = false /\ JSON_parse s = Some JNull.
Proof.
  split.
  - destruct v as [|b|d|s|l|kv]; simpl; try discriminate.
    unfold trim_nonempty. destruct (blank s) eqn:Hb; simpl; [discriminate|].
    destruct (JSON_parse s) as [p|] eqn:Hp; [|discriminate].
    intros ->. now exists s.
  - intros (s & -> & Hb & Hp). simpl. unfold trim_nonempty. now rewrite Hb, Hp.
Qed.

Lemma strip_prefix_head (p t r : string) :
  strip_prefix p t = Some r -> t = p ++ r.
Proof.
  revert t. induction p as [|a p IH]; intros t H.
  - simpl in H. now injection H as ->.
  - destruct t as [|b t]; [discriminate|]. simpl in H.
    destruct (Ascii.eqb a b) eqn:E; [|discriminate].
    apply Ascii.eqb_eq in E as ->. simpl. f_equal. now apply IH.
Qed.

(** A value reads as [null] exactly when the text, past the white space
    at its head, starts with the word. *)
Lemma parse_value_null (f : nat) (s r : string) :
  parse_value (S f) s = Some (JNull, r)
  <-> strip_prefix "null" (skip_ws s) = Some r.
Proof.
  rewrite parse_value_S. split.
  - destruct (skip_ws s) as [|c t]; [discriminate|].
    destruct (code c =? 91)%N.
    { destruct (strip_prefix "]" (skip_ws t)); [discriminate|].
      destruct (parse_elements f t) as [[l r']|]; discriminate. }
    destruct (code c =? 123)%N.
    { destruct (strip_prefix "}" (skip_ws t)); [discriminate|].
      destruct (parse_members f t) as [[kv r']|]; discriminate. }
    destruct (code c =? 34)%N.
    { destruct (parse_string_body t) as [[str r']|]; discriminate. }
    destruct (strip_prefix "null" (String c t)) as [r'|]; [congruence|].
    destruct (strip_prefix "true" (String c t)); [discriminate|].
    destruct (strip_prefix "false" (String c t)); [discriminate|].
    destruct (parse_number (String c t)) as [[d r']|]; discriminate.
  - intros H. pose proof (strip_prefix_head _ _ _ H) as Ht.
    rewrite Ht in *. simpl. reflexivity.
Qed.

Lemma JSON_parse_null (s : string) :
  JSON_parse s = Some JNull
  <-> exists r, strip_prefix "null" (skip_ws s) = Some r /\ skip_ws r = "".
Proof.
  unfold JSON_parse.
  replace (2 * String.length s + 2) with (S (2 * String.length s + 1)) by lia.
  split.
  - destruct (parse_value _ s) as [[v r]|] eqn:Hp; [|discriminate].
    destruct (skip_ws r) eqn:Hr; [|discriminate].
    intros [= ->]. exists r. split; [|exact Hr]. now apply parse_value_null in Hp.
  - intros (r & Hs & Hr). apply (parse_value_null (2 * String.length s + 1)) in Hs.
    now rewrite Hs, Hr.
Qed.

(** X5 -- [mapDbPost] throws on exactly one kind of row: [image_url] is
    null or the empty string, and [images] is a text that consists of the
    word null, with nothing but JSON white space before and after it
    ([images[0]] is then read from [null]).  Every other row is converted,
    its timestamps being instants, as a [row] has them. *)
Theorem X5_mapDbPost_throws_only_on_the_text_null (r : row) :
  mapDbPost r = None
  <-> truthy_str (image_url r) = false
      /\ exists s rest,
           row_images r = JStr s
           /\ strip_prefix "null" (skip_ws s) = Some rest
           /\ skip_ws rest = "".
Proof.
  assert (Hm : mapDbPost r = None
               <-> url_or_first (image_url r) (normalize (row_images r)) = None).
  { unfold mapDbPost.
    destruct (url_or_first (image_url r) (normalize (row_images r)));
      split; intros H; congruence. }
  rewrite Hm, url_or_first_None, normalize_null. split.
  - intros (Hu & s & Hs & Hb & Hp). split; [exact Hu|].
    apply JSON_parse_null in Hp as (rest & H1 & H2). now exists s, rest.
  - intros (Hu & s & rest & Hs & H1 & H2). split; [exact Hu|].
    exists s. split; [exact Hs|].
    assert (Hp : JSON_parse s = Some JNull)
      by (apply JSON_parse_null; now exists rest).
    split; [|exact Hp].
    destruct (blank s) eqn:Hb; [|reflexivity].
    rewrite (JSON_parse_blank s Hb) in Hp. discriminate.
Qed.

(** X6 -- What the handlers write is what the normaliser reads: the text
    [JSON.stringify] gives for a list of image paths parses back to that
    list, and [mapDbPost] turns a row that holds the text into the same
    post as a row that holds the array, whatever bytes the paths contain
    (quotation marks, backslashes, control characters). *)
Theorem X6_images_text_round_trip (l : list string) :
  JSON_parse (JSON_stringify (strings l)) = Some (strings l)
  /\ normalize (JStr (JSON_stringify (strings l))) = strings l
  /\ forall i t c cat url aff ca ua,
       mapDbPost (Row i t cat c (JStr (JSON_stringify (strings l))) url aff ca ua)
       = mapDbPost (Row i t cat c (strings l) url aff ca ua).
Proof.
  split; [apply parse_stringify_strings|].
  split; [apply normalize_text_of_strings|].
  intros. unfold mapDbPost. cbn [row_images].
  rewrite normalize_text_of_strings. reflexivity.
Qed.

(** X7 -- The test on [row.images.trim()] never changes the outcome: for
    every text, the normalised value is what [JSON.parse] gives, and the
    empty list when it throws, as it does on every blank text. *)
Theorem X7_trim_test_is_subsumed (s : string) :
  normalize (JStr s)
  = match JSON_parse s with Some parsed => parsed | None => JArr [] end.
Proof.
  simpl. unfold trim_nonempty.
  destruct (blank s) eqn:Hb; [|reflexivity].
  now rewrite (JSON_parse_blank s Hb).
Qed.

End NormaliserEdges.

(* ================================================================== *)
(** * Further properties: how the operations compose                   *)
(* ================================================================== *)

Section Composition.
Import Js ImageStore Http Reply.

Lemma negb_eqb_true (a b : Z) : negb (a =? b)%Z = true <-> a <> b.
Proof. destruct (Z.eqb_spec a b); simpl; split; congruence. Qed.

(** After a delete that passed the gate, no post of the file has the id. *)
Lemma file_delete_post_clears (pw : option string) (postId : Z)
    (f : FileServer.posts_file) :
  Forall (fun p => FileServer.id p <> postId)
         (FileServer.readPosts
            (fst (FileServer.delete_post pw postId (option_map JStr pw) f))).
Proof.
  unfold FileServer.delete_post.
  rewrite (proj2 (strict_neq_val_false _ _) eq_refl).
  destruct (_ =? _)%nat eqn:Hlen; simpl.
  - apply Nat.eqb_eq, filter_length_same in Hlen.
    eapply Forall_impl; [|exact Hlen]. simpl. intros p. apply negb_eqb_true.
  - apply Forall_forall. intros p Hp. apply filter_In in Hp as [_ Hp].
    now apply negb_eqb_true.
Qed.

Lemma file_delete_post_absent (pw : option string) (postId : Z)
    (f : FileServer.posts_file) :
  Forall (fun p => FileServer.id p <> postId) (FileServer.readPosts f) ->
  FileServer.delete_post pw postId (option_map JStr pw) f
  = (f, Res 404 (Error "Post not found")).
Proof.
  intros Hno. unfold FileServer.delete_post.
  rewrite (proj2 (strict_neq_val_false _ _) eq_refl).
  rewrite filter_all, Nat.eqb_refl; [reflexivity|].
  eapply Forall_impl; [|exact Hno]. simpl. intros p. apply negb_eqb_true.
Qed.

Lemma pg_delete_post_clears (pw : option string) (postId : Z) (d : PgServer.database) :
  Forall (fun r => PgServer.row_id r <> postId)
         (PgServer.table
            (fst (PgServer.delete_post pw true postId (option_map JStr pw) d))).
Proof.
  unfold PgServer.delete_post, PgServer.delete_from_posts.
  rewrite (proj2 (strict_neq_val_false _ _) eq_refl). cbn [negb].
  assert (H : Forall (fun r => PgServer.row_id r <> postId)
                (filter (fun r => negb (PgServer.row_id r =? postId)%Z)
                        (PgServer.table d))).
  { apply Forall_forall. intros r Hr. apply filter_In in Hr as [_ Hr].
    now apply negb_eqb_true. }
  destruct (map PgServer.row_id
                (filter (fun r => (PgServer.row_id r =? postId)%Z) (PgServer.table d)));
    exact H.
Qed.

Lemma pg_delete_post_absent (pw : option string) (postId : Z) (d : PgServer.database) :
  Forall (fun r => PgServer.row_id r <> postId) (PgServer.table d) ->
  PgServer.delete_post pw true postId (option_map JStr pw) d
  = (d, Res 404 (Error "Post not found")).
Proof.
  intros Hno. unfold PgServer.delete_post, PgServer.delete_from_posts.
  rewrite (proj2 (strict_neq_val_false _ _) eq_refl). cbn [negb].
  rewrite filter_none, filter_all.
  - destruct d; reflexivity.
  - eapply Forall_impl; [|exact Hno]. simpl. intros r. apply negb_eqb_true.
  - eapply Forall_impl; [|exact Hno]. simpl. intros r Hr.
    now destruct (Z.eqb_spec (PgServer.row_id r) postId).
Qed.

(** X8 -- A deleted id is gone.  After a delete that passed the gate (and,
    in the database-backed revision, was served), whatever it answered, a
    second delete of the same id and an update of it are both answered 404
    and change nothing. *)
Theorem X8_deleted_id_is_gone
    (pw : option string) (req : request) (t c : string) (postId : Z) :
  adminPassword (req_body req) = pw ->
  title (req_body req) = Some t -> t <> "" ->
  content (req_body req) = Some c -> c <> "" ->
  (forall f now,
      let f' := fst (FileServer.delete_post pw postId (option_map JStr pw) f) in
      FileServer.delete_post pw postId (option_map JStr pw) f'
      = (f', Res 404 (Error "Post not found"))
      /\ FileServer.put_post pw now postId req f'
         = (f', Res 404 (Error "Post not found")))
  /\ (forall d now up2,
      let d' := fst (PgServer.delete_post pw true postId (option_map JStr pw) d) in
      PgServer.delete_post pw true postId (option_map JStr pw) d'
      = (d', Res 404 (Error "Post not found"))
      /\ PgServer.put_post pw now true up2 postId req d'
         = (d', Res 404 (Error "Post not found"))).
Proof.
  intros Hauth Ht Hnt Hc Hnc. apply strict_neq_false in Hauth.
  pose proof (required_present _ _ _ Ht Hnt Hc Hnc) as Hval.
  split.
  - intros f now f'. pose proof (file_delete_post_clears pw postId f) as Hno.
    fold f' in Hno. split; [now apply file_delete_post_absent|].
    unfold FileServer.put_post. rewrite Hauth, Hval.
    now rewrite (proj2 (findIndex_none postId _) Hno).
  - intros d now up2 d'. pose proof (pg_delete_post_clears pw postId d) as Hno.
    fold d' in Hno. split; [now apply pg_delete_post_absent|].
    unfold PgServer.put_post. rewrite Hauth, Hval. cbn [negb].
    unfold PgServer.select_post. rewrite filter_none; [reflexivity|].
    eapply Forall_impl; [|exact Hno]. simpl. intros r Hr.
    now destruct (Z.eqb_spec (PgServer.row_id r) postId).
Qed.

(** Post 1 is created, deleted, and then updated. *)
Lemma X8_witness :
  let d1 := fst (PgServer.post_posts Sample.secret 1000 true Sample.create_AB
                                     (PgServer.Db [] 1)) in
  let d2 := fst (PgServer.delete_post Sample.secret true 1 (Some (JStr "s3cret")) d1) in
  PgServer.table d1 <> []
  /\ PgServer.delete_post Sample.secret true 1 (Some (JStr "s3cret")) d2
     = (d2, Res 404 (Error "Post not found"))
  /\ PgServer.put_post Sample.secret 2000 true true 1 Sample.update_New d2
     = (d2, Res 404 (Error "Post not found")).
Proof.
  intros d1 d2.
  assert (Ht : "New" <> "") by discriminate.
  assert (Hc : "C" <> "") by discriminate.
  split; [discriminate|].
  apply (proj2 (X8_deleted_id_is_gone Sample.secret Sample.update_New
                  "New" "C" 1%Z eq_refl eq_refl Ht eq_refl Hc) d1 2000%Z true).
Defined.

(** While the clock does not run backwards, no post of the file has an id
    above the time of the last request. *)
Lemma file_ids_before_clock (pw : option string) (w : FileServer.world) :
  FileServer.on_time pw w ->
  Forall (fun p => (FileServer.id p <= FileServer.clock w)%Z)
         (FileServer.readPosts (FileServer.file_of w)).
Proof.
  induction 1 as [|w e Hr IH Ht].
  - constructor.
  - destruct e as [|now_id now_date req|now postId req|postId password];
      cbn [FileServer.exec]; simpl in Ht.
    + exact IH.
    + unfold FileServer.post_posts.
      destruct (strict_neq _ _);
        [simpl; eapply Forall_impl; [|exact IH]; simpl; intros; lia|].
      destruct (missing_required _);
        [simpl; eapply Forall_impl; [|exact IH]; simpl; intros; lia|].
      simpl. apply Forall_app. split.
      * eapply Forall_impl; [|exact IH]. simpl. intros; lia.
      * constructor; [simpl; lia|constructor].
    + unfold FileServer.put_post.
      destruct (strict_neq _ _);
        [simpl; eapply Forall_impl; [|exact IH]; simpl; intros; lia|].
      destruct (missing_required _);
        [simpl; eapply Forall_impl; [|exact IH]; simpl; intros; lia|].
      destruct (FileServer.findIndex _ _) as [[idx q]|] eqn:Hf;
        [|simpl; eapply Forall_impl; [|exact IH]; simpl; intros; lia].
      simpl. apply findIndex_spec in Hf as [Hnth _]. apply nth_error_In in Hnth.
      apply assign_Forall.
      * simpl. rewrite Forall_forall in IH. specialize (IH _ Hnth). simpl in IH. lia.
      * eapply Forall_impl; [|exact IH]. simpl. intros; lia.
    + unfold FileServer.delete_post.
      destruct (strict_neq_val _ _); [exact IH|].
      destruct (_ =? _)%nat; [exact IH|].
      simpl. apply Forall_forall. intros p Hp. apply filter_In in Hp as [Hp _].
      rewrite Forall_forall in IH. now apply IH.
Qed.

Lemma filter_app_last {A : Type} (keep : A -> bool) (l : list A) (x : A) :
  Forall (fun y => keep y = true) l -> keep x = false ->
  filter keep (l ++ [x]) = l.
Proof.
  intros Hl Hx. rewrite filter_app, (filter_all _ _ Hl). simpl. rewrite Hx.
  apply app_nil_r.
Qed.

Lemma pg_delete_last (pw : option string) (rows : list PgServer.row)
    (x : PgServer.row) (seq : Z) :
  Forall (fun r => PgServer.row_id r <> PgServer.row_id x) rows ->
  PgServer.delete_post pw true (PgServer.row_id x) (option_map JStr pw)
                       (PgServer.Db (rows ++ [x]) seq)
  = (PgServer.Db rows seq, Res 200 Success).
Proof.
  intros Hno. unfold PgServer.delete_post, PgServer.delete_from_posts.
  rewrite (proj2 (strict_neq_val_false _ _) eq_refl).
  cbn [negb PgServer.table PgServer.posts_id_seq].
  rewrite (filter_app_last (fun r => negb (PgServer.row_id r =? PgServer.row_id x)%Z)).
  - rewrite filter_app, filter_none.
    + simpl. now rewrite Z.eqb_refl.
    + eapply Forall_impl; [|exact Hno]. simpl. intros r Hr.
      now destruct (Z.eqb_spec (PgServer.row_id r) (PgServer.row_id x)).
  - eapply Forall_impl; [|exact Hno]. simpl. intros r. apply negb_eqb_true.
  - simpl. now rewrite Z.eqb_refl.
Qed.

(** X9 -- Create, then delete what was created: the collection is back to
    what it was.  In the file-backed revision this holds when the create
    comes in a later millisecond than every request before it (the file
    then exists, holding the same posts); in the database-backed revision
    it holds in every reachable state, and only the sequence has moved
    on. *)
Theorem X9_create_then_delete_restores
    (pw : option string) (req : request) (t c : string) :
  adminPassword (req_body req) = pw ->
  title (req_body req) = Some t -> t <> "" ->
  content (req_body req) = Some c -> c <> "" ->
  (forall w now_id now_date,
      FileServer.on_time pw w ->
      (FileServer.clock w < now_id)%Z ->
      exists p f1,
        FileServer.post_posts pw now_id now_date req (FileServer.file_of w)
        = (f1, Res 200 (SuccessPost p))
        /\ FileServer.delete_post pw (FileServer.id p) (option_map JStr pw) f1
           = (FileServer.writePosts (FileServer.readPosts (FileServer.file_of w)),
              Res 200 Success))
  /\ (forall w db_now,
      PgServer.reachable pw w ->
      exists p d1,
        PgServer.post_posts pw db_now true req (PgServer.db_of w)
        = (d1, Res 200 (SuccessPost p))
        /\ PgServer.delete_post pw true (PgServer.id p) (option_map JStr pw) d1
           = (PgServer.Db (PgServer.table (PgServer.db_of w))
                          (PgServer.posts_id_seq (PgServer.db_of w) + 1),
              Res 200 Success)).
Proof.
  intros Hauth Ht Hnt Hc Hnc. apply strict_neq_false in Hauth.
  pose proof (required_present _ _ _ Ht Hnt Hc Hnc) as Hval.
  split.
  - intros w now_id now_date Hw Hlate.
    pose proof (file_ids_before_clock pw w Hw) as Hids.
    unfold FileServer.post_posts. rewrite Hauth, Hval.
    eexists. eexists. split; [reflexivity|].
    unfold FileServer.delete_post.
    rewrite (proj2 (strict_neq_val_false _ _) eq_refl).
    unfold FileServer.writePosts. cbv zeta. cbn [FileServer.id FileServer.readPosts].
    match goal with
    | |- context [filter ?k (?l ++ [?x])] =>
      assert (Hfil : filter k (l ++ [x]) = l)
    end.
    { apply filter_app_last.
      - eapply Forall_impl; [|exact Hids]. simpl. intros p Hp.
        apply negb_eqb_true. lia.
      - simpl. now rewrite Z.eqb_refl. }
    rewrite !Hfil, length_app. simpl.
    destruct (Nat.eqb_spec (List.length (FileServer.readPosts (FileServer.file_of w)))
                           (List.length (FileServer.readPosts (FileServer.file_of w)) + 1));
      [lia|reflexivity].
  - intros w db_now Hw.
    destruct (pg_reachable_rows pw w Hw) as (_ & Hids & _).
    rewrite (pg_post_posts_served pw db_now req _ Hauth Hval).
    eexists. eexists. split; [reflexivity|].
    cbn [PgServer.id]. apply (pg_delete_last pw).
    eapply Forall_impl; [|exact Hids]. simpl. intros r Hr. lia.
Qed.

(** A second post is created and deleted again. *)
Lemma X9_witness :
  let w := fst (PgServer.exec Sample.secret PgServer.initial
                              (PgServer.PostPosts 1000 true Sample.create_with_images)) in
  PgServer.reachable Sample.secret w
  /\ exists p d1,
       PgServer.post_posts Sample.secret 1001 true Sample.create_AB (PgServer.db_of w)
       = (d1, Res 200 (SuccessPost p))
       /\ PgServer.delete_post Sample.secret true (PgServer.id p)
                               (Some (JStr "s3cret")) d1
          = (PgServer.Db (PgServer.table (PgServer.db_of w))
                         (PgServer.posts_id_seq (PgServer.db_of w) + 1),
             Res 200 Success).
Proof.
  intros w.
  assert (Hr : PgServer.reachable Sample.secret w)
    by (apply PgServer.reach_step, PgServer.reach_initial).
  assert (Ht : "A" <> "") by discriminate.
  assert (Hc : "B" <> "") by discriminate.
  split; [exact Hr|].
  apply (proj2 (X9_create_then_delete_restores Sample.secret Sample.create_AB
                  "A" "B" eq_refl eq_refl Ht eq_refl Hc) w 1001%Z Hr).
Defined.

Lemma findIndex_first (postId : Z) (posts : list FileServer.post) (idx : nat)
    (q : FileServer.post) :
  FileServer.findIndex postId posts = Some (idx, q) ->
  forall j x, j < idx -> nth_error posts j = Some x -> FileServer.id x <> postId.
Proof.
  revert idx; induction posts as [|p r IH]; simpl; intros idx H; [discriminate|].
  destruct (Z.eqb_spec (FileServer.id p) postId) as [He|Hne].
  - injection H as <- <-. intros j x Hj. lia.
  - destruct (FileServer.findIndex postId r) as [[i q']|]; [|discriminate].
    injection H as <- <-. intros [|j] x Hj; simpl.
    + now intros [= <-].
    + apply (IH i eq_refl). lia.
Qed.

Lemma nth_error_assign_other (idx j : nat) (p : FileServer.post)
    (posts : list FileServer.post) :
  j <> idx -> nth_error (FileServer.assign idx p posts) j = nth_error posts j.
Proof.
  revert idx j; induction posts as [|x r IH]; intros [|i] [|j] Hne; simpl;
    try reflexivity; try congruence.
  apply IH. congruence.
Qed.

Lemma length_assign (idx : nat) (p : FileServer.post) (posts : list FileServer.post) :
  List.length (FileServer.assign idx p posts) = List.length posts.
Proof.
  revert idx; induction posts as [|x r IH]; intros [|i]; simpl; auto.
Qed.

(** X10 -- An update of the file-backed revision that is answered 200
    rewrites one post only: the first of the array that has the id.  Every
    other position of the array keeps its post, a later post with the same
    id included (a delete of that id removes them all), and the array
    keeps its length. *)
Theorem X10_file_update_rewrites_the_first_match
    (pw : option string) (now postId : Z) (req : request) (f : FileServer.posts_file) :
  let out := FileServer.put_post pw now postId req f in
  status (snd out) = 200 ->
  exists idx p,
    json (snd out) = SuccessPost p
    /\ FileServer.id p = postId
    /\ FileServer.updatedAt p = Some now
    /\ nth_error (FileServer.readPosts (fst out)) idx = Some p
    /\ (forall j q, j < idx -> nth_error (FileServer.readPosts f) j = Some q ->
                    FileServer.id q <> postId)
    /\ (forall j, j <> idx ->
                  nth_error (FileServer.readPosts (fst out)) j
                  = nth_error (FileServer.readPosts f) j)
    /\ List.length (FileServer.readPosts (fst out))
       = List.length (FileServer.readPosts f).
Proof.
  intros out. subst out. unfold FileServer.put_post.
  destruct (strict_neq _ _); [discriminate|].
  destruct (missing_required _); [discriminate|].
  destruct (FileServer.findIndex postId (FileServer.readPosts f)) as [[idx q]|] eqn:Hf;
    [|discriminate].
  intros _. cbn [fst snd json FileServer.writePosts FileServer.readPosts].
  pose proof (findIndex_first _ _ _ _ Hf) as Hfirst.
  apply findIndex_spec in Hf as [Hnth Hid].
  eexists idx, _. split; [reflexivity|].
  split; [exact Hid|]. split; [reflexivity|].
  split; [now apply (nth_error_assign _ _ q)|].
  split; [exact Hfirst|].
  split; [intros j Hj; now apply nth_error_assign_other|apply length_assign].
Qed.

(** Two posts created in the same millisecond share the id 1000; an update
    of that id rewrites the first and leaves the second. *)
Lemma X10_witness :
  let w1 := fst (FileServer.exec Sample.secret FileServer.initial
                   (FileServer.PostPosts 1000 1000 Sample.create_AB)) in
  let w2 := fst (FileServer.exec Sample.secret w1
                   (FileServer.PostPosts 1000 1000 Sample.create_with_images)) in
  let out := FileServer.put_post Sample.secret 2000 1000 Sample.update_New
                                 (FileServer.file_of w2) in
  status (snd out) = 200
  /\ nth_error (FileServer.readPosts (fst out)) 1
     = nth_error (FileServer.readPosts (FileServer.file_of w2)) 1
  /\ exists idx p,
       json (snd out) = SuccessPost p
       /\ FileServer.id p = 1000%Z
       /\ FileServer.updatedAt p = Some 2000%Z
       /\ nth_error (FileServer.readPosts (fst out)) idx = Some p
       /\ (forall j q, j < idx ->
                       nth_error (FileServer.readPosts (FileServer.file_of w2)) j = Some q ->
                       FileServer.id q <> 1000%Z)
       /\ (forall j, j <> idx ->
                     nth_error (FileServer.readPosts (fst out)) j
                     = nth_error (FileServer.readPosts (FileServer.file_of w2)) j)
       /\ List.length (FileServer.readPosts (fst out))
          = List.length (FileServer.readPosts (FileServer.file_of w2)).
Proof.
  intros w1 w2 out.
  assert (Hs : status (snd out) = 200) by reflexivity.
  split; [exact Hs|]. split; [reflexivity|].
  apply (X10_file_update_rewrites_the_first_match Sample.secret 2000%Z 1000%Z
           Sample.update_New (FileServer.file_of w2) Hs).
Defined.

End Composition.

(* ================================================================== *)
(** * Further properties: what every stored post looks like            *)
(* ================================================================== *)

Section StoredShape.
Import Js ImageStore Http Reply.

Lemma prefix_append (p s : string) : prefix p (p ++ s) = true.
Proof.
  induction p as [|a p IH]; simpl; [now destruct s|].
  destruct (ascii_dec a a); [exact IH|congruence].
Qed.

Lemma strings_inj (a b : list string) : strings a = strings b -> a = b.
Proof.
  unfold strings. intros [= H]. revert b H.
  induction a as [|x a IH]; intros [|y b]; simpl; try discriminate; [reflexivity|].
  intros [= -> H]. f_equal. now apply IH.
Qed.

Lemma image_urls_uploads (files : option (list file)) :
  Forall (fun u => prefix "/uploads/" u = true) (image_urls files).
Proof.
  unfold image_urls. apply Forall_forall. intros u Hu.
  apply in_map_iff in Hu as (f & <- & _). apply prefix_append.
Qed.

Lemma required_truthy (b : body) :
  missing_required b = false ->
  truthy_str (title b) = true /\ truthy_str (content b) = true.
Proof.
  unfold missing_required. intros H. apply Bool.orb_false_iff in H as [H1 H2].
  split; [now destruct (truthy_str (title b))|now destruct (truthy_str (content b))].
Qed.

Lemma file_post_posts_shape (pw : option string) (now_id now_date : Z)
    (req : request) (f : FileServer.posts_file) (p : FileServer.post) :
  In p (posts_of (snd (FileServer.post_posts pw now_id now_date req f))) ->
  truthy_str (FileServer.post_title p) = true
  /\ truthy_str (FileServer.post_content p) = true
  /\ exists l, FileServer.images p = Some l
               /\ Forall (fun u => prefix "/uploads/" u = true) l.
Proof.
  unfold FileServer.post_posts.
  destruct (strict_neq _ _); [simpl; tauto|].
  destruct (missing_required _) eqn:Hval; [simpl; tauto|].
  apply required_truthy in Hval as [Ht Hc].
  simpl. intros [<-|[]]. simpl. repeat split; [exact Ht|exact Hc|].
  eexists. split; [reflexivity|apply image_urls_uploads].
Qed.

Lemma file_put_post_shape (pw : option string) (now postId : Z)
    (req : request) (f : FileServer.posts_file) (p : FileServer.post) :
  Forall (fun q => truthy_str (FileServer.post_title q) = true
                   /\ truthy_str (FileServer.post_content q) = true
                   /\ exists l, FileServer.images q = Some l
                                /\ Forall (fun u => prefix "/uploads/" u = true) l)
         (FileServer.readPosts f) ->
  In p (posts_of (snd (FileServer.put_post pw now postId req f))) ->
  truthy_str (FileServer.post_title p) = true
  /\ truthy_str (FileServer.post_content p) = true
  /\ exists l, FileServer.images p = Some l
               /\ Forall (fun u => prefix "/uploads/" u = true) l.
Proof.
  intros Hall. unfold FileServer.put_post.
  destruct (strict_neq _ _); [simpl; tauto|].
  destruct (missing_required _) eqn:Hval; [simpl; tauto|].
  apply required_truthy in Hval as [Ht Hc].
  destruct (FileServer.findIndex postId (FileServer.readPosts f)) as [[idx q]|] eqn:Hf;
    [|simpl; tauto].
  apply findIndex_spec in Hf as [Hnth _]. apply nth_error_In in Hnth.
  rewrite Forall_forall in Hall. destruct (Hall _ Hnth) as (_ & _ & l & Hl & Hup).
  simpl. intros [<-|[]]. simpl. repeat split; [exact Ht|exact Hc|].
  eexists. split; [reflexivity|].
  pose proof (image_urls_uploads (req_files req)) as Hnew.
  destruct (image_urls (req_files req)); [now rewrite Hl|exact Hnew].
Qed.

Lemma file_reachable_shape (pw : option string) (w : FileServer.world) :
  FileServer.reachable pw w ->
  Forall (fun q => truthy_str (FileServer.post_title q) = true
                   /\ truthy_str (FileServer.post_content q) = true
                   /\ exists l, FileServer.images q = Some l
                                /\ Forall (fun u => prefix "/uploads/" u = true) l)
         (FileServer.readPosts (FileServer.file_of w)).
Proof.
  induction 1 as [|w e Hr IH].
  - constructor.
  - destruct e as [|now_id now_date req|now postId req|postId password];
      cbn [FileServer.exec].
    + exact IH.
    + pose proof (file_post_posts_shape pw now_id now_date req (FileServer.file_of w))
        as Hnew.
      unfold FileServer.post_posts in *.
      destruct (strict_neq _ _); [exact IH|].
      destruct (missing_required _); [exact IH|].
      simpl in *. apply Forall_app. split; [exact IH|].
      constructor; [|constructor]. apply Hnew. now left.
    + pose proof (fun p => file_put_post_shape pw now postId req (FileServer.file_of w)
                             p IH) as Hnew.
      unfold FileServer.put_post in *.
      destruct (strict_neq _ _); [exact IH|].
      destruct (missing_required _); [exact IH|].
      destruct (FileServer.findIndex _ _) as [[idx q]|]; [|exact IH].
      simpl in *. apply assign_Forall; [|exact IH]. apply Hnew. now left.
    + unfold FileServer.delete_post.
      destruct (strict_neq_val _ _); [exact IH|].
      destruct (_ =? _)%nat; [exact IH|].
      simpl. rewrite Forall_forall in *. intros x Hx.
      apply filter_In in Hx as [Hx _]. auto.
Qed.

Lemma pg_reachable_shape (pw : option string) (w : PgServer.world) :
  PgServer.reachable pw w ->
  Forall (fun r => truthy_str (PgServer.row_title r) = true
                   /\ truthy_str (PgServer.row_content r) = true
                   /\ exists l, PgServer.row_images r = strings l
                                /\ PgServer.image_url r
                                   = Some (match l with x :: _ => x | [] => "" end)
                                /\ Forall (fun u => prefix "/uploads/" u = true) l)
         (PgServer.table (PgServer.db_of w)).
Proof.
  induction 1 as [|w e Hr IH].
  - constructor.
  - pose proof (pg_reachable_rows pw w Hr) as (Hrule & _ & _).
    destruct e as [up|db_now up req|now up1 up2 postId req|up postId password];
      cbn [PgServer.exec].
    + exact IH.
    + destruct (pg_post_posts_cases pw db_now up req (PgServer.db_of w))
        as [(s & m & He)|(-> & Hauth & Hval)].
      * rewrite He. exact IH.
      * rewrite (pg_post_posts_served pw db_now req _ Hauth Hval). simpl.
        apply required_truthy in Hval as [Ht Hc].
        apply Forall_app. split; [exact IH|]. constructor; [|constructor].
        simpl. repeat split; [exact Ht|exact Hc|].
        eexists. split; [reflexivity|].
        split; [now rewrite first_or_empty_hd|apply image_urls_uploads].
    + destruct (pg_put_post_cases pw now up1 up2 postId req (PgServer.db_of w) Hrule)
        as [(s & m & He)|(-> & -> & Hauth & Hval & ex & more & l & Hsel & Hi & Hu)].
      * rewrite He. exact IH.
      * rewrite (pg_put_post_served pw now postId req _ ex more l Hauth Hval Hsel Hi Hu).
        simpl. apply required_truthy in Hval as [Ht Hc].
        assert (Hex : In ex (PgServer.table (PgServer.db_of w))).
        { assert (H : In ex (PgServer.select_post postId (PgServer.db_of w)))
            by (rewrite Hsel; now left).
          now apply filter_In in H. }
        rewrite Forall_forall in IH.
        destruct (IH _ Hex) as (_ & _ & l' & Hl' & _ & Hup).
        assert (Heq : l' = l).
        { apply strings_inj. now rewrite <- Hl', <- Hi. }
        subst l'.
        apply Forall_forall. intros r Hin.
        apply in_map_iff in Hin as (r0 & <- & Hin0).
        destruct (PgServer.row_id r0 =? postId)%Z; [|now apply IH].
        simpl. repeat split; [exact Ht|exact Hc|].
        eexists. split; [reflexivity|]. split; [reflexivity|].
        pose proof (image_urls_uploads (req_files req)) as Hnew.
        destruct (image_urls (req_files req)); [exact Hup|exact Hnew].
    + pose proof (pg_delete_post_table pw up postId password (PgServer.db_of w))
        as [_ Hsub].
      destruct (PgServer.delete_post _ _ _ _ _) as [d' r]. simpl in *.
      rewrite Forall_forall in *. auto.
Qed.

Lemma pg_mapDbPost_shape (r : PgServer.row) (p : PgServer.post) :
  (truthy_str (PgServer.row_title r) = true
   /\ truthy_str (PgServer.row_content r) = true
   /\ exists l, PgServer.row_images r = strings l
                /\ PgServer.image_url r
                   = Some (match l with x :: _ => x | [] => "" end)
                /\ Forall (fun u => prefix "/uploads/" u = true) l) ->
  PgServer.mapDbPost r = Some p ->
  truthy_str (PgServer.post_title p) = true
  /\ truthy_str (PgServer.post_content p) = true
  /\ exists l, PgServer.images p = strings l
               /\ Forall (fun u => prefix "/uploads/" u = true) l.
Proof.
  intros (Ht & Hc & l & Hl & Hu & Hup) Hp.
  rewrite (mapDbPost_row_rule r l Hl Hu) in Hp. injection Hp as <-. simpl.
  repeat split; [exact Ht|exact Hc|]. now exists l.
Qed.

(** X11 -- In every reachable state of either revision, every post that a
    response returns (in a list, after a create, after an update) has a
    title and a content that are not empty, and its images are a list of
    paths that each start with /uploads/. *)
Theorem X11_returned_posts_are_well_formed :
  (forall pw w e p,
      FileServer.reachable pw w ->
      In p (posts_of (snd (FileServer.exec pw w e))) ->
      truthy_str (FileServer.post_title p) = true
      /\ truthy_str (FileServer.post_content p) = true
      /\ exists l, FileServer.images p = Some l
                   /\ Forall (fun u => prefix "/uploads/" u = true) l)
  /\ (forall pw w e p,
      PgServer.reachable pw w ->
      In p (posts_of (snd (PgServer.exec pw w e))) ->
      truthy_str (PgServer.post_title p) = true
      /\ truthy_str (PgServer.post_content p) = true
      /\ exists l, PgServer.images p = strings l
                   /\ Forall (fun u => prefix "/uploads/" u = true) l).
Proof.
  split.
  - intros pw w e p Hr. pose proof (file_reachable_shape pw w Hr) as Hall.
    destruct e as [|now_id now_date req|now postId req|postId password];
      cbn [FileServer.exec].
    + simpl. intros Hin. apply sort_by_In in Hin.
      rewrite Forall_forall in Hall. now apply Hall.
    + pose proof (file_post_posts_shape pw now_id now_date req (FileServer.file_of w) p)
        as H.
      destruct (FileServer.post_posts _ _ _ _ _); exact H.
    + pose proof (file_put_post_shape pw now postId req (FileServer.file_of w) p Hall)
        as H.
      destruct (FileServer.put_post _ _ _ _ _); exact H.
    + unfold FileServer.delete_post. destruct (strict_neq_val _ _); [simpl; tauto|].
      destruct (_ =? _)%nat; simpl; tauto.
  - intros pw w e p Hr. pose proof (pg_reachable_shape pw w Hr) as Hall.
    pose proof (pg_reachable_rows pw w Hr) as (Hrule & _ & _).
    destruct e as [up|db_now up req|now up1 up2 postId req|up postId password].
    + cbn [PgServer.exec snd]. unfold PgServer.get_posts.
      destruct up; [|simpl; tauto].
      destruct (PgServer.map_mapDbPost _) as [ps|] eqn:Hps; [|simpl; tauto].
      simpl. intros Hin.
      apply (map_mapDbPost_In _ _ p Hps) in Hin as (r & Hin & Hp).
      apply sort_by_In in Hin. rewrite Forall_forall in Hall.
      exact (pg_mapDbPost_shape r p (Hall _ Hin) Hp).
    + intros Hin.
      pose proof (pg_reachable_shape pw _ (PgServer.reach_step pw w
                    (PgServer.PostPosts db_now up req) Hr)) as Hall'.
      revert Hin Hall'. cbn [PgServer.exec].
      destruct (pg_post_posts_cases pw db_now up req (PgServer.db_of w))
        as [(s & m & He)|(-> & Hauth & Hval)].
      * rewrite He. simpl. tauto.
      * rewrite (pg_post_posts_served pw db_now req _ Hauth Hval). simpl.
        intros [<-|[]] Hall'. apply Forall_app in Hall' as [_ Hnew].
        apply Forall_inv in Hnew. simpl in Hnew.
        destruct Hnew as (Ht & Hc & l & Hl & _ & Hup). simpl.
        repeat split; [exact Ht|exact Hc|]. now exists l.
    + intros Hin. revert Hin. cbn [PgServer.exec].
      destruct (pg_put_post_cases pw now up1 up2 postId req (PgServer.db_of w) Hrule)
        as [(s & m & He)|(-> & -> & Hauth & Hval & ex & more & l & Hsel & Hi & Hu)].
      * rewrite He. simpl. tauto.
      * rewrite (pg_put_post_served pw now postId req _ ex more l Hauth Hval Hsel Hi Hu).
        simpl. intros [<-|[]]. simpl.
        apply required_truthy in Hval as [Ht Hc].
        repeat split; [exact Ht|exact Hc|].
        eexists. split; [reflexivity|].
        assert (Hex : In ex (PgServer.table (PgServer.db_of w))).
        { assert (H : In ex (PgServer.select_post postId (PgServer.db_of w)))
            by (rewrite Hsel; now left).
          now apply filter_In in H. }
        rewrite Forall_forall in Hall.
        destruct (Hall _ Hex) as (_ & _ & l' & Hl' & _ & Hup).
        assert (Heq : l' = l).
        { apply strings_inj. now rewrite <- Hl', <- Hi. }
        subst l'.
        pose proof (image_urls_uploads (req_files req)) as Hnew.
        destruct (image_urls (req_files req)); [exact Hup|exact Hnew].
    + cbn [PgServer.exec]. unfold PgServer.delete_post.
      destruct (strict_neq_val _ _); [simpl; tauto|].
      destruct up; [|simpl; tauto]. simpl.
      destruct (map PgServer.row_id _); simpl; tauto.
Qed.

(** The list after a create with two images. *)
Lemma X11_witness :
  let w := fst (PgServer.exec Sample.secret PgServer.initial
                              (PgServer.PostPosts 1000 true Sample.create_with_images)) in
  let p := PgServer.Post 1 (Some "A") "Gear" (Some "B")
             (strings ["/uploads/images-1000-5.png"; "/uploads/images-1000-6.png"])
             (JStr "/uploads/images-1000-5.png") "" (Some 1000%Z) None in
  PgServer.reachable Sample.secret w
  /\ In p (posts_of (snd (PgServer.exec Sample.secret w (PgServer.GetPosts true))))
  /\ truthy_str (PgServer.post_title p) = true
  /\ truthy_str (PgServer.post_content p) = true
  /\ exists l, PgServer.images p = strings l
               /\ Forall (fun u => prefix "/uploads/" u = true) l.
Proof.
  intros w p.
  assert (Hr : PgServer.reachable Sample.secret w)
    by (apply PgServer.reach_step, PgServer.reach_initial).
  assert (Hin : In p (posts_of (snd (PgServer.exec Sample.secret w
                                                   (PgServer.GetPosts true)))))
    by (vm_compute; left; reflexivity).
  split; [exact Hr|]. split; [exact Hin|].
  apply (proj2 X11_returned_posts_are_well_formed Sample.secret w
               (PgServer.GetPosts true) p Hr Hin).
Defined.

End StoredShape.

(* ================================================================== *)
(** * Further properties: where an upload can land                     *)
(* ================================================================== *)

Section UploadNames.
Import Js ImageStore Http Reply.

Lemma Forall_list_ascii_append (P : ascii -> Prop) (a b : string) :
  Forall P (list_ascii_of_string a) -> Forall P (list_ascii_of_string b) ->
  Forall P (list_ascii_of_string (a ++ b)).
Proof.
  intros Ha Hb. rewrite list_ascii_append. apply Forall_app. now split.
Qed.

Lemma dec_no_slash (n : N) :
  Forall (fun c => (code c =? 47)%N = false) (list_ascii_of_string (dec n)).
Proof.
  eapply Forall_impl; [|apply dec_digits]. simpl. intros c Hc.
  now apply digit_plain.
Qed.

Lemma extname_no_slash (path : string) :
  Forall (fun c => (code c =? 47)%N = false) (list_ascii_of_string (extname path)).
Proof.
  destruct (extname_shape path) as [->|(t & -> & Ht)]; [constructor|].
  simpl. constructor; [reflexivity|].
  eapply Forall_impl; [|exact Ht]. simpl. now intros c [_ Hc].
Qed.

(** X12 -- Whatever the name the client gave a file, the name it is stored
    under has no slash in it: it is the word images, the clock, the draw,
    and an extension that is empty or one dot followed by characters that
    are neither a dot nor a slash.  Every path a handler builds for the
    files of a request is therefore /uploads/ followed by a single path
    segment. *)
Theorem X12_generated_names_are_one_segment :
  (forall now rnd orig,
      let name := filename now rnd "images" orig in
      Forall (fun c => (code c =? 47)%N = false) (list_ascii_of_string name)
      /\ (name = "images-" ++ dec now ++ "-" ++ dec rnd
          \/ exists t,
               name = "images-" ++ dec now ++ "-" ++ dec rnd ++ String "." t
               /\ Forall (fun c => (code c =? 46)%N = false /\ (code c =? 47)%N = false)
                         (list_ascii_of_string t)))
  /\ (forall parts u,
      In u (image_urls (Some (upload_array "images" parts))) ->
      exists name,
        u = "/uploads/" ++ name
        /\ Forall (fun c => (code c =? 47)%N = false) (list_ascii_of_string name)).
Proof.
  assert (Hname : forall now rnd orig,
             Forall (fun c => (code c =? 47)%N = false)
                    (list_ascii_of_string (filename now rnd "images" orig))).
  { intros. unfold filename.
    repeat apply Forall_list_ascii_append;
      try apply dec_no_slash; try apply extname_no_slash;
      repeat constructor. }
  split.
  - intros now rnd orig name. subst name. split; [apply Hname|].
    unfold filename.
    destruct (extname_shape orig) as [->|(t & -> & Ht)].
    + left. rewrite !append_assoc. now rewrite append_nil_r.
    + right. exists t. split; [|exact Ht]. now rewrite !append_assoc.
  - intros parts u Hu. unfold image_urls, upload_array in Hu.
    rewrite map_map in Hu. apply in_map_iff in Hu as (p & <- & _).
    eexists. split; [reflexivity|]. apply Hname.
Qed.

(** A file whose name the client gave as a path. *)
Lemma X12_witness :
  let u := "/uploads/images-1000-5.png" in
  In u (image_urls (Some (upload_array "images" [Part "../../x/a.png" 1000 5])))
  /\ exists name,
       u = "/uploads/" ++ name
       /\ Forall (fun c => (code c =? 47)%N = false) (list_ascii_of_string name).
Proof.
  intros u.
  assert (Hin : In u (image_urls (Some (upload_array "images"
                                          [Part "../../x/a.png" 1000 5]))))
    by (left; reflexivity).
  split; [exact Hin|].
  apply (proj2 X12_generated_names_are_one_segment
               [Part "../../x/a.png" 1000 5] u Hin).
Defined.

End UploadNames.

(* ================================================================== *)
(** * Further properties: rows and posts the handlers did not write    *)
(* ================================================================== *)

Section LegacyData.
Import Js ImageStore Http Reply.

Lemma url_or_first_array (url : option string) (l : list string) :
  PgServer.url_or_first url (strings l)
  = Some (JStr (if truthy_str url then or_empty url else first_or_empty l)).
Proof.
  unfold PgServer.url_or_first. destruct (truthy_str url); [reflexivity|].
  destruct l as [|x l]; simpl; [reflexivity|].
  destruct (negb (x =? "")); reflexivity.
Qed.

(** What an update does to a row whose [images] is an array of strings,
    whatever its [image_url], once it is let through and served. *)
Lemma pg_put_post_array_row (pw : option string) (now postId : Z) (req : request)
    (d : PgServer.database) (existing : PgServer.row) (more : list PgServer.row)
    (l : list string) :
  strict_neq (adminPassword (req_body req)) pw = false ->
  missing_required (req_body req) = false ->
  PgServer.select_post postId d = existing :: more ->
  PgServer.row_images existing = strings l ->
  let urls := image_urls (req_files req) in
  let final := match urls with _ :: _ => urls | [] => l end in
  let u := match urls with
           | first :: _ => first
           | [] => if truthy_str (PgServer.image_url existing)
                   then or_empty (PgServer.image_url existing)
                   else first_or_empty l
           end in
  exists p,
    snd (PgServer.put_post pw now true true postId req d) = Res 200 (SuccessPost p)
    /\ PgServer.images p = strings final
    /\ PgServer.imageUrl p = JStr (if truthy_str (Some u) then u else first_or_empty final).
Proof.
  intros Hauth Hval Hsel Hi urls final u.
  unfold PgServer.put_post. cbv zeta. rewrite Hauth, Hval, Hsel. cbn [negb].
  rewrite Hi. change (PgServer.normalize (strings l)) with (strings l).
  rewrite url_or_first_array. fold urls.
  assert (Hf : match urls with _ :: _ => strings urls | [] => strings l end
               = strings final) by (subst final; destruct urls; reflexivity).
  assert (Hg : match urls with
               | first :: _ => Some (JStr first)
               | [] => Some (JStr (if truthy_str (PgServer.image_url existing)
                                   then or_empty (PgServer.image_url existing)
                                   else first_or_empty l))
               end = Some (JStr u))
    by (subst u; destruct urls; reflexivity).
  rewrite Hf, Hg. cbn [PgServer.prepareValue].
  unfold PgServer.update_post. rewrite parse_stringify_strings.
  unfold PgServer.select_post in Hsel. rewrite Hsel. cbn [map].
  unfold PgServer.mapDbPost.
  cbn [PgServer.row_images PgServer.image_url].
  change (PgServer.normalize (strings final)) with (strings final).
  rewrite url_or_first_array.
  eexists. split; [reflexivity|]. split; [reflexivity|].
  cbn [PgServer.imageUrl]. f_equal.
  unfold or_empty. destruct (truthy_str (Some u)); reflexivity.
Qed.

Lemma first_or_empty_cons (x : string) (l : list string) :
  first_or_empty (x :: l) = x.
Proof. apply (first_or_empty_hd (x :: l)). Qed.

Lemma truthy_str_Some (s : string) : truthy_str (Some s) = false <-> s = "".
Proof.
  simpl. destruct (String.eqb_spec s ""); simpl; split; congruence.
Qed.

(** X13 -- An update re-derives [imageUrl] only when it has to.  With new
    files the post it answers with always obeys the rule of the data
    model.  Without new files it obeys the rule exactly when the stored
    [imageUrl] was missing or empty (it is then set from the stored
    images) or was already the first stored image: a stored [imageUrl]
    that disagrees with the images is kept as it is.  This holds of a post
    of the file whatever its keys, and of a row whose [images] is an array
    of strings. *)
Theorem X13_update_keeps_a_stale_image_url
    (pw : option string) (req : request) (t c : string) (now postId : Z) :
  adminPassword (req_body req) = pw ->
  title (req_body req) = Some t -> t <> "" ->
  content (req_body req) = Some c -> c <> "" ->
  (forall f idx existing,
      FileServer.findIndex postId (FileServer.readPosts f) = Some (idx, existing) ->
      exists p,
        snd (FileServer.put_post pw now postId req f) = Res 200 (SuccessPost p)
        /\ (FileServer.first_image_rule p
            <-> image_urls (req_files req) <> []
                \/ truthy_str (FileServer.imageUrl existing) = false
                \/ FileServer.imageUrl existing
                   = Some (match FileServer.images existing with
                           | Some (x :: _) => x
                           | _ => ""
                           end)))
  /\ (forall d existing more l,
      PgServer.select_post postId d = existing :: more ->
      PgServer.row_images existing = strings l ->
      exists p,
        snd (PgServer.put_post pw now true true postId req d) = Res 200 (SuccessPost p)
        /\ (PgServer.first_image_rule p
            <-> image_urls (req_files req) <> []
                \/ truthy_str (PgServer.image_url existing) = false
                \/ PgServer.image_url existing
                   = Some (match l with x :: _ => x | [] => "" end))).
Proof.
  intros Hauth Ht Hnt Hc Hnc. apply strict_neq_false in Hauth.
  pose proof (required_present _ _ _ Ht Hnt Hc Hnc) as Hval.
  split.
  - intros f idx existing Hf. unfold FileServer.put_post.
    rewrite Hauth, Hval, Hf. eexists. split; [reflexivity|].
    unfold FileServer.first_image_rule. cbn [FileServer.images FileServer.imageUrl].
    destruct (image_urls (req_files req)) as [|first rest].
    + destruct (FileServer.imageUrl existing) as [s|] eqn:Hu.
      * destruct (String.eqb_spec s "") as [->|Hs].
        -- simpl. split; [auto|]. intros _. eexists. split; [reflexivity|].
           destruct (FileServer.images existing) as [[|x l]|]; try reflexivity.
           now rewrite first_or_empty_cons.
        -- assert (Htr : truthy_str (Some s) = true).
           { simpl. now destruct (String.eqb_spec s ""). }
           rewrite Htr. unfold or_empty. rewrite Htr. split.
           ++ intros (l' & [= <-] & [= Hs']). right. right.
              destruct (FileServer.images existing) as [[|x l]|]; congruence.
           ++ intros [H|[H|H]]; [congruence|discriminate|].
              eexists. split; [reflexivity|].
              destruct (FileServer.images existing) as [[|x l]|]; congruence.
      * simpl. split; [auto|]. intros _. eexists. split; [reflexivity|].
        destruct (FileServer.images existing) as [[|x l]|]; try reflexivity.
        now rewrite first_or_empty_cons.
    + split; [intros _; left; discriminate|]. intros _.
      eexists. split; reflexivity.
  - intros d existing more l Hsel Hi.
    destruct (pg_put_post_array_row pw now postId req d existing more l
                Hauth Hval Hsel Hi) as (p & Hp & Himg & Hurl).
    exists p. split; [exact Hp|].
    unfold PgServer.first_image_rule. rewrite Himg, Hurl. clear Hp Himg Hurl.
    destruct (image_urls (req_files req)) as [|first rest].
    + destruct (PgServer.image_url existing) as [s|] eqn:Hu.
      * destruct (String.eqb_spec s "") as [->|Hs].
        -- cbn [truthy_str String.eqb negb]. split; [auto|]. intros _.
           destruct l as [|x l]; [reflexivity|]. rewrite first_or_empty_cons.
           simpl. destruct (x =? ""); reflexivity.
        -- assert (Htr : truthy_str (Some s) = true).
           { simpl. now destruct (String.eqb_spec s ""). }
           rewrite Htr. unfold or_empty. rewrite !Htr.
           destruct l as [|x l]; simpl.
           ++ split; [intros [= ->]; congruence|].
              intros [H|[H|H]]; congruence.
           ++ split; [intros [= ->]; auto|].
              intros [H|[H|H]]; congruence.
      * cbn [truthy_str]. split; [auto|]. intros _.
        destruct l as [|x l]; [reflexivity|]. rewrite first_or_empty_cons.
        simpl. destruct (x =? ""); reflexivity.
    + split; [intros _; left; discriminate|]. intros _.
      cbn [strings map]. rewrite first_or_empty_cons.
      simpl. destruct (first =? ""); reflexivity.
Qed.

(** A row whose [image_url] is not its first image: an update without new
    files answers with a post that breaks the rule. *)
Lemma X13_witness :
  let old := PgServer.Row 1 (Some "t") (Some "") (Some "c")
               (strings ["/uploads/a.png"]) (Some "/uploads/old.png")
               (Some "") (Some 1000%Z) None in
  let d := PgServer.Db [old] 2 in
  exists p,
    snd (PgServer.put_post Sample.secret 2000 true true 1 Sample.update_New d)
    = Res 200 (SuccessPost p)
    /\ ~ PgServer.first_image_rule p.
Proof.
  intros old d.
  assert (Ht : "New" <> "") by discriminate.
  assert (Hc : "C" <> "") by discriminate.
  destruct (proj2 (X13_update_keeps_a_stale_image_url Sample.secret Sample.update_New
                     "New" "C" 2000%Z 1%Z eq_refl eq_refl Ht eq_refl Hc)
                  d old [] ["/uploads/a.png"] eq_refl eq_refl) as (p & Hp & Hrule).
  exists p. split; [exact Hp|].
  intros H. apply Hrule in H. destruct H as [H|[H|H]].
  - now apply H.
  - discriminate H.
  - discriminate H.
Defined.

Lemma map_mapDbPost_None (rows : list PgServer.row) :
  PgServer.map_mapDbPost rows = None
  <-> Exists (fun r => PgServer.mapDbPost r = None) rows.
Proof.
  induction rows as [|r rows IH]; simpl.
  - split; [discriminate|]. intros H. inversion H.
  - destruct (PgServer.mapDbPost r) as [p|] eqn:Hp.
    + destruct (PgServer.map_mapDbPost rows) as [ps|].
      * split; [discriminate|]. intros H. inversion H as [? ? Hr|? ? Hr]; subst.
        -- congruence.
        -- apply IH in Hr. discriminate.
      * split; [|reflexivity]. intros _. apply Exists_cons_tl. now apply IH.
    + split; [|reflexivity]. intros _. now apply Exists_cons_hd.
Qed.

(** X14 -- One row is enough to fail the whole list: a served list call is
    answered 500 exactly when [mapDbPost] throws on some row of the table,
    and 200 exactly when it throws on none. *)
Theorem X14_one_bad_row_fails_the_list (d : PgServer.database) :
  (PgServer.get_posts true d = Res 500 (Error "Failed to fetch posts")
   <-> Exists (fun r => PgServer.mapDbPost r = None) (PgServer.table d))
  /\ (status (PgServer.get_posts true d) = 200
      <-> Forall (fun r => PgServer.mapDbPost r <> None) (PgServer.table d)).
Proof.
  assert (Hex : PgServer.map_mapDbPost (PgServer.select_posts d) = None
                <-> Exists (fun r => PgServer.mapDbPost r = None) (PgServer.table d)).
  { rewrite map_mapDbPost_None, !Exists_exists. unfold PgServer.select_posts.
    split; intros (r & Hin & Hr); exists r; (split; [|exact Hr]);
      now apply (sort_by_In PgServer.created_at_desc). }
  unfold PgServer.get_posts.
  destruct (PgServer.map_mapDbPost (PgServer.select_posts d)) as [ps|] eqn:Hps.
  - split.
    + split; [discriminate|]. intros H. apply Hex in H. discriminate.
    + split; [|reflexivity]. intros _. apply Forall_forall. intros r Hin Hr.
      assert (H : Exists (fun r => PgServer.mapDbPost r = None) (PgServer.table d))
        by (apply Exists_exists; eauto).
      apply Hex in H. discriminate.
  - split.
    + split; [|reflexivity]. intros _. now apply Hex.
    + split; [discriminate|]. intros Hall.
      destruct (proj1 Hex eq_refl) as [r rows Hr|r rows Hr]; exfalso.
      * apply Forall_inv in Hall. contradiction.
      * apply Exists_exists in Hr as (r' & Hin & Hr').
        apply Forall_inv_tail in Hall. rewrite Forall_forall in Hall.
        now apply (Hall r').
Qed.

Lemma pg_put_post_200 (pw : option string) (now : Z) (up1 up2 : bool) (postId : Z)
    (req : request) (d : PgServer.database) :
  status (snd (PgServer.put_post pw now up1 up2 postId req d)) = 200 ->
  exists p, json (snd (PgServer.put_post pw now up1 up2 postId req d)) = SuccessPost p.
Proof.
  unfold PgServer.put_post.
  destruct (strict_neq _ _); [discriminate|].
  destruct (missing_required _); [discriminate|].
  destruct up1; cbn [negb]; [|discriminate].
  destruct (PgServer.select_post postId d) as [|existing more]; [discriminate|].
  cbv zeta.
  destruct (image_urls (req_files req)) as [|first rest].
  - destruct (PgServer.url_or_first _ _) as [u|]; [|discriminate].
    destruct up2; [|discriminate].
    destruct (PgServer.update_post _ _ _ _ _ _ _ _ _) as [[d' rows]|]; [|discriminate].
    destruct rows as [|r rows]; [discriminate|].
    destruct (PgServer.mapDbPost r); [simpl; eauto|discriminate].
  - destruct up2; [|discriminate].
    destruct (PgServer.update_post _ _ _ _ _ _ _ _ _) as [[d' rows]|]; [|discriminate].
    destruct rows as [|r rows]; [discriminate|].
    destruct (PgServer.mapDbPost r); [simpl; eauto|discriminate].
Qed.

(** X15 -- The post an update answers with is the post the next list
    shows: in the file-backed revision in any state, in the
    database-backed revision in every reachable state. *)
Theorem X15_the_next_list_shows_the_update :
  (forall pw now postId req f,
      let out := FileServer.put_post pw now postId req f in
      status (snd out) = 200 ->
      exists p ps,
        json (snd out) = SuccessPost p
        /\ FileServer.get_posts (fst out) = Res 200 (Posts ps)
        /\ In p ps)
  /\ (forall pw w now up1 up2 postId req,
      PgServer.reachable pw w ->
      let out := PgServer.put_post pw now up1 up2 postId req (PgServer.db_of w) in
      status (snd out) = 200 ->
      exists p ps,
        json (snd out) = SuccessPost p
        /\ PgServer.get_posts true (fst out) = Res 200 (Posts ps)
        /\ In p ps).
Proof.
  split.
  - intros pw now postId req f out. subst out. unfold FileServer.put_post.
    destruct (strict_neq _ _); [discriminate|].
    destruct (missing_required _); [discriminate|].
    destruct (FileServer.findIndex postId (FileServer.readPosts f)) as [[idx q]|] eqn:Hf;
      [|discriminate].
    intros _. apply findIndex_spec in Hf as [Hnth _].
    eexists. eexists. split; [reflexivity|]. split; [reflexivity|].
    apply sort_by_In. cbn [fst FileServer.writePosts FileServer.readPosts].
    eapply nth_error_In. now apply (nth_error_assign _ _ q).
  - intros pw w now up1 up2 postId req Hw out Hs. subst out.
    destruct (pg_put_post_200 _ _ _ _ _ _ _ Hs) as [p0 Hp0].
    pose proof (pg_reachable_rows pw _ (PgServer.reach_step pw w
                  (PgServer.PutPost now up1 up2 postId req) Hw)) as (Hrule' & _ & _).
    destruct (pg_reachable_rows pw w Hw) as (Hrule & _ & _).
    revert Hrule' Hp0. clear Hs. cbn [PgServer.exec].
    destruct (pg_put_post_cases pw now up1 up2 postId req (PgServer.db_of w) Hrule)
      as [(s & m & He)|(-> & -> & Hauth & Hval & ex & more & l & Hsel & Hi & Hu)].
    + rewrite He. simpl. discriminate.
    + rewrite (pg_put_post_served pw now postId req _ ex more l Hauth Hval Hsel Hi Hu).
      cbn [fst snd json PgServer.db_of]. intros Hrule' _.
      match goal with
      | |- context [PgServer.get_posts true ?d'] => set (d1 := d') in *
      end.
      assert (Hrule'' : Forall PgServer.row_rule (PgServer.select_posts d1)).
      { eapply Forall_perm; [apply sort_by_perm|]. exact Hrule'. }
      destruct (map_mapDbPost_total _ Hrule'') as [ps Hps].
      eexists. exists ps. split; [reflexivity|].
      unfold PgServer.get_posts. rewrite Hps. split; [reflexivity|].
      apply (map_mapDbPost_In _ _ _ Hps).
      assert (Hex : In ex (PgServer.table (PgServer.db_of w))
                    /\ (PgServer.row_id ex =? postId)%Z = true).
      { assert (H : In ex (PgServer.select_post postId (PgServer.db_of w)))
          by (rewrite Hsel; now left).
        now apply filter_In in H. }
      destruct Hex as [Hin Hid].
      eexists. split.
      * apply sort_by_In. subst d1. cbn [PgServer.table]. apply in_map_iff.
        exists ex. split; [|exact Hin]. rewrite Hid. reflexivity.
      * erewrite mapDbPost_row_rule; [|reflexivity|reflexivity].
        cbn [PgServer.row_id PgServer.row_title PgServer.row_category
             PgServer.row_content PgServer.affiliate_link PgServer.created_at
             PgServer.updated_at].
        rewrite !or_empty_idem. reflexivity.
Qed.

(** Post 1 is created with two images, then updated. *)
Lemma X15_witness :
  let w := fst (PgServer.exec Sample.secret PgServer.initial
                              (PgServer.PostPosts 1000 true Sample.create_with_images)) in
  let out := PgServer.put_post Sample.secret 2000 true true 1 Sample.update_New
                               (PgServer.db_of w) in
  PgServer.reachable Sample.secret w
  /\ status (snd out) = 200
  /\ exists p ps,
       json (snd out) = SuccessPost p
       /\ PgServer.get_posts true (fst out) = Res 200 (Posts ps)
       /\ In p ps.
Proof.
  intros w out.
  assert (Hr : PgServer.reachable Sample.secret w)
    by (apply PgServer.reach_step, PgServer.reach_initial).
  assert (Hs : status (snd out) = 200) by reflexivity.
  split; [exact Hr|]. split; [exact Hs|].
  apply (proj2 X15_the_next_list_shows_the_update Sample.secret w 2000%Z true true
               1%Z Sample.update_New Hr Hs).
Defined.

End LegacyData.

(* ================================================================== *)
(** * Further properties: the list before and after a change           *)
(* ================================================================== *)

Section SortCommutes.

Context {A : Type} (cmp : A -> A -> Z).

Hypothesis cmp_asym : forall a b, (0 < cmp a b -> cmp b a <= 0)%Z.
Hypothesis cmp_trans :
  forall a b c, (cmp a b <= 0 -> cmp b c <= 0 -> cmp a c <= 0)%Z.

Lemma sort_insert_first (x : A) (l : list A) :
  Forall (fun z => (cmp x z <= 0)%Z) l -> sort_insert cmp x l = x :: l.
Proof.
  destruct l as [|y l]; [reflexivity|]. intros H. apply Forall_inv in H. simpl.
  destruct (Z.ltb_spec 0 (cmp x y)); [lia|reflexivity].
Qed.

Lemma filter_sort_insert (keep : A -> bool) (x : A) (l : list A) :
  StronglySorted (fun a b => (cmp a b <= 0)%Z) l ->
  filter keep (sort_insert cmp x l)
  = if keep x then sort_insert cmp x (filter keep l) else filter keep l.
Proof.
  induction 1 as [|y l Hs IH Hall]; simpl.
  - destruct (keep x); reflexivity.
  - destruct (Z.ltb_spec 0 (cmp x y)) as [Hlt|Hge]; simpl.
    + rewrite IH. destruct (keep y), (keep x); simpl; try reflexivity.
      destruct (Z.ltb_spec 0 (cmp x y)); [reflexivity|lia].
    + destruct (keep x) eqn:Hx; [|reflexivity].
      assert (Hfirst : Forall (fun z => (cmp x z <= 0)%Z) (y :: l)).
      { constructor; [exact Hge|]. eapply Forall_impl; [|exact Hall].
        simpl. intros z Hz. now apply (cmp_trans x y z). }
      symmetry. apply sort_insert_first.
      apply Forall_forall. intros z Hz.
      change (In z (filter keep (y :: l))) in Hz.
      apply filter_In in Hz as [Hz _]. rewrite Forall_forall in Hfirst. auto.
Qed.

(** Sorting what a filter keeps is filtering what was sorted. *)
Lemma sort_by_filter (keep : A -> bool) (l : list A) :
  sort_by cmp (filter keep l) = filter keep (sort_by cmp l).
Proof.
  induction l as [|x l IH]; [reflexivity|].
  change (sort_by cmp (x :: l)) with (sort_insert cmp x (sort_by cmp l)).
  rewrite filter_sort_insert by now apply sort_by_strongly_sorted.
  simpl. destruct (keep x); [|exact IH].
  change (sort_by cmp (x :: filter keep l))
    with (sort_insert cmp x (sort_by cmp (filter keep l))).
  now rewrite IH.
Qed.

End SortCommutes.

Section SortMap.

Context {A : Type} (cmp : A -> A -> Z) (f : A -> A).

Hypothesis cmp_f : forall a b, cmp (f a) (f b) = cmp a b.

(** Sorting commutes with a change that the comparator does not see. *)
Lemma sort_by_map (l : list A) : sort_by cmp (map f l) = map f (sort_by cmp l).
Proof.
  induction l as [|x l IH]; [reflexivity|].
  change (sort_by cmp (map f (x :: l)))
    with (sort_insert cmp (f x) (sort_by cmp (map f l))).
  change (sort_by cmp (x :: l)) with (sort_insert cmp x (sort_by cmp l)).
  rewrite IH. generalize (sort_by cmp l) as s. clear IH.
  induction s as [|y s IH]; simpl; [reflexivity|].
  rewrite cmp_f. destruct (0 <? cmp x y)%Z; simpl; [now rewrite IH|reflexivity].
Qed.

End SortMap.

Section ListsAfter.
Import Js ImageStore Http Reply.

Lemma mapDbPost_id (r : PgServer.row) (p : PgServer.post) :
  PgServer.mapDbPost r = Some p -> PgServer.id p = PgServer.row_id r.
Proof.
  unfold PgServer.mapDbPost. destruct (PgServer.url_or_first _ _); [|discriminate].
  now intros [= <-].
Qed.

Lemma map_mapDbPost_filter (postId : Z) (rows : list PgServer.row) :
  forall ps,
    PgServer.map_mapDbPost rows = Some ps ->
    PgServer.map_mapDbPost
      (filter (fun r => negb (PgServer.row_id r =? postId)%Z) rows)
    = Some (filter (fun p => negb (PgServer.id p =? postId)%Z) ps).
Proof.
  induction rows as [|r rows IH]; simpl; intros ps Hps.
  - now injection Hps as <-.
  - destruct (PgServer.mapDbPost r) as [p|] eqn:Hp; [|discriminate].
    destruct (PgServer.map_mapDbPost rows) as [qs|]; [|discriminate].
    injection Hps as <-. simpl. rewrite (mapDbPost_id r p Hp).
    destruct (negb (PgServer.row_id r =? postId)%Z); simpl.
    + now rewrite Hp, (IH qs eq_refl).
    + now apply IH.
Qed.

(** X16 -- After a delete that is answered 200, the list is the list as it
    was before without the posts of that id: in the same order in the
    file-backed revision, and with the same posts in the database-backed
    one (where the order of posts created at the same instant is the
    database's choice). *)
Theorem X16_the_list_after_a_delete :
  (forall pw postId password f,
      status (snd (FileServer.delete_post pw postId password f)) = 200 ->
      exists ps,
        FileServer.get_posts f = Res 200 (Posts ps)
        /\ FileServer.get_posts (fst (FileServer.delete_post pw postId password f))
           = Res 200 (Posts (filter (fun p => negb (FileServer.id p =? postId)%Z) ps)))
  /\ (forall pw up postId password d ps,
      status (snd (PgServer.delete_post pw up postId password d)) = 200 ->
      PgServer.get_posts true d = Res 200 (Posts ps) ->
      exists ps',
        PgServer.get_posts true (fst (PgServer.delete_post pw up postId password d))
        = Res 200 (Posts ps')
        /\ Permutation ps' (filter (fun p => negb (PgServer.id p =? postId)%Z) ps)).
Proof.
  split.
  - intros pw postId password f. unfold FileServer.delete_post.
    destruct (strict_neq_val _ _); [discriminate|].
    destruct (_ =? _)%nat; [discriminate|]. intros _.
    eexists. split; [reflexivity|]. unfold FileServer.get_posts. cbn [fst].
    unfold FileServer.writePosts. cbn [FileServer.readPosts].
    rewrite sort_by_filter; [reflexivity| |];
      unfold FileServer.newest_first; intros; lia.
  - intros pw up postId password d ps. unfold PgServer.delete_post.
    destruct (strict_neq_val _ _); [discriminate|].
    destruct up; cbn [negb]; [|discriminate].
    unfold PgServer.delete_from_posts.
    destruct (map PgServer.row_id _); [discriminate|]. intros _.
    unfold PgServer.get_posts.
    destruct (PgServer.map_mapDbPost (PgServer.select_posts d)) as [qs|] eqn:Hqs;
      [|discriminate].
    intros [= <-]. cbn [fst]. unfold PgServer.select_posts in *. cbn [PgServer.table].
    rewrite sort_by_filter;
      [|apply created_at_desc_asym|apply created_at_desc_trans].
    rewrite (map_mapDbPost_filter postId _ qs Hqs).
    eexists. split; [reflexivity|apply Permutation_refl].
Qed.

(** Two posts; the first is deleted. *)
Lemma X16_witness :
  let w1 := fst (PgServer.exec Sample.secret PgServer.initial
                               (PgServer.PostPosts 1000 true Sample.create_AB)) in
  let w2 := fst (PgServer.exec Sample.secret w1
                               (PgServer.PostPosts 1001 true Sample.create_with_images)) in
  let d := PgServer.db_of w2 in
  let ps := posts_of (PgServer.get_posts true d) in
  List.length ps = 2
  /\ exists ps',
       PgServer.get_posts true
         (fst (PgServer.delete_post Sample.secret true 1 (Some (JStr "s3cret")) d))
       = Res 200 (Posts ps')
       /\ Permutation ps' (filter (fun p => negb (PgServer.id p =? 1)%Z) ps).
Proof.
  intros w1 w2 d ps. split; [reflexivity|].
  apply (proj2 X16_the_list_after_a_delete Sample.secret true 1%Z
               (Some (JStr "s3cret")) d ps); reflexivity.
Defined.


Lemma map_mapDbPost_update (postId : Z) (f : PgServer.row -> PgServer.row)
    (p : PgServer.post) (rows : list PgServer.row) :
  (forall r, In r rows -> (PgServer.row_id r =? postId)%Z = true ->
             PgServer.mapDbPost (f r) = Some p) ->
  (forall r, (PgServer.row_id r =? postId)%Z = false -> f r = r) ->
  forall ps,
    PgServer.map_mapDbPost rows = Some ps ->
    PgServer.map_mapDbPost (map f rows)
    = Some (map (fun q => if (PgServer.id q =? postId)%Z then p else q) ps).
Proof.
  intros Hset Hkeep.
  induction rows as [|r rows IH]; simpl; intros ps Hps.
  - now injection Hps as <-.
  - destruct (PgServer.mapDbPost r) as [q|] eqn:Hq; [|discriminate].
    destruct (PgServer.map_mapDbPost rows) as [qs|]; [|discriminate].
    injection Hps as <-. simpl. rewrite (mapDbPost_id r q Hq).
    rewrite (IH (fun r' H => Hset r' (or_intror H)) qs eq_refl).
    destruct (PgServer.row_id r =? postId)%Z eqn:Hhit.
    + now rewrite (Hset r (or_introl eq_refl) Hhit).
    + now rewrite (Hkeep r Hhit), Hq.
Qed.

(** X17 -- In every reachable state of the database-backed revision, the
    list after an update that is answered 200 holds the posts of the list
    before it, with the post of that id replaced by the one the update
    answered with; that post has the id and the creation date of the one
    it replaces. *)
Theorem X17_the_list_after_an_update
    (pw : option string) (w : PgServer.world) (now : Z) (up1 up2 : bool) (postId : Z)
    (req : request) (ps : list PgServer.post) :
  PgServer.reachable pw w ->
  let out := PgServer.put_post pw now up1 up2 postId req (PgServer.db_of w) in
  status (snd out) = 200 ->
  PgServer.get_posts true (PgServer.db_of w) = Res 200 (Posts ps) ->
  exists p old ps',
    json (snd out) = SuccessPost p
    /\ In old ps /\ PgServer.id old = postId
    /\ PgServer.id p = postId /\ PgServer.date p = PgServer.date old
    /\ PgServer.get_posts true (fst out) = Res 200 (Posts ps')
    /\ Permutation ps' (map (fun q => if (PgServer.id q =? postId)%Z then p else q) ps).
Proof.
  intros Hw out Hs Hget. subst out.
  destruct (pg_put_post_200 _ _ _ _ _ _ _ Hs) as [p0 Hp0].
  destruct (pg_reachable_rows pw w Hw) as (Hrule & _ & _).
  pose proof (pg_reachable_unique_ids pw w Hw) as Hnodup.
  revert Hp0. clear Hs.
  destruct (pg_put_post_cases pw now up1 up2 postId req (PgServer.db_of w) Hrule)
    as [(s & m & He)|(-> & -> & Hauth & Hval & ex & more & l & Hsel & Hi & Hu)].
  { rewrite He. simpl. discriminate. }
  rewrite (pg_put_post_served pw now postId req _ ex more l Hauth Hval Hsel Hi Hu).
  cbn [fst snd json]. intros _.
  assert (Hex : In ex (PgServer.table (PgServer.db_of w))
                /\ (PgServer.row_id ex =? postId)%Z = true).
  { assert (H : In ex (PgServer.select_post postId (PgServer.db_of w)))
      by (rewrite Hsel; now left).
    now apply filter_In in H. }
  destruct Hex as [Hin Hid]. apply Z.eqb_eq in Hid.
  unfold PgServer.get_posts in Hget.
  destruct (PgServer.map_mapDbPost (PgServer.select_posts (PgServer.db_of w)))
    as [qs|] eqn:Hqs; [|discriminate].
  injection Hget as <-.
  match goal with
  | |- context [PgServer.Db (map ?f _) _] => set (f_ := f)
  end.
  match goal with
  | |- context [SuccessPost ?q] => set (p := q)
  end.
  assert (Hp : PgServer.mapDbPost (f_ ex) = Some p).
  { subst f_ p. cbv beta. rewrite (proj2 (Z.eqb_eq _ _) Hid).
    erewrite mapDbPost_row_rule; [|reflexivity|reflexivity].
    cbn [PgServer.row_id PgServer.row_title PgServer.row_category
         PgServer.row_content PgServer.affiliate_link PgServer.created_at
         PgServer.updated_at].
    rewrite !or_empty_idem. reflexivity. }
  destruct (PgServer.mapDbPost ex) as [old|] eqn:Hold.
  2:{ destruct (mapDbPost_rule ex) as (q & Hq & _); [|congruence].
      rewrite Forall_forall in Hrule. now apply Hrule. }
  exists p, old. eexists. split; [reflexivity|].
  split.
  { apply (map_mapDbPost_In _ _ old Hqs). exists ex. split; [|exact Hold].
    now apply sort_by_In. }
  split; [now rewrite (mapDbPost_id _ _ Hold)|].
  split; [exact Hid|].
  split; [now rewrite (mapDbPost_date _ _ Hold)|].
  unfold PgServer.get_posts, PgServer.select_posts in *. cbn [PgServer.table].
  rewrite (sort_by_map PgServer.created_at_desc).
  2:{ intros a b. unfold PgServer.created_at_desc. subst f_. cbv beta.
      destruct (PgServer.row_id a =? postId)%Z, (PgServer.row_id b =? postId)%Z;
        reflexivity. }
  rewrite (map_mapDbPost_update postId f_ p _) with (ps := qs); [| | |exact Hqs].
  - split; [reflexivity|apply Permutation_refl].
  - intros r Hr Hhit. apply sort_by_In in Hr. apply Z.eqb_eq in Hhit.
    assert (r = ex) as ->; [|exact Hp].
    pose proof (filter_unique_id _ ex Hnodup Hin) as Hf.
    assert (Hrin : In r (filter (fun r0 => (PgServer.row_id r0 =? PgServer.row_id ex)%Z)
                                (PgServer.table (PgServer.db_of w)))).
    { apply filter_In. split; [exact Hr|]. apply Z.eqb_eq. congruence. }
    rewrite Hf in Hrin. destruct Hrin as [<-|[]]. reflexivity.
  - intros r Hhit. subst f_. cbv beta. now rewrite Hhit.
Qed.

(** Two posts; the first is updated. *)
Lemma X17_witness :
  let w1 := fst (PgServer.exec Sample.secret PgServer.initial
                               (PgServer.PostPosts 1000 true Sample.create_AB)) in
  let w2 := fst (PgServer.exec Sample.secret w1
                               (PgServer.PostPosts 1001 true Sample.create_with_images)) in
  let ps := posts_of (PgServer.get_posts true (PgServer.db_of w2)) in
  let out := PgServer.put_post Sample.secret 2000 true true 1 Sample.update_New
                               (PgServer.db_of w2) in
  PgServer.reachable Sample.secret w2
  /\ status (snd out) = 200
  /\ exists p old ps',
       json (snd out) = SuccessPost p
       /\ In old ps /\ PgServer.id old = 1%Z
       /\ PgServer.id p = 1%Z /\ PgServer.date p = PgServer.date old
       /\ PgServer.get_posts true (fst out) = Res 200 (Posts ps')
       /\ Permutation ps' (map (fun q => if (PgServer.id q =? 1)%Z then p else q) ps).
Proof.
  intros w1 w2 ps out.
  assert (Hr : PgServer.reachable Sample.secret w2)
    by (do 2 apply PgServer.reach_step; apply PgServer.reach_initial).
  assert (Hs : status (snd out) = 200) by reflexivity.
  split; [exact Hr|]. split; [exact Hs|].
  apply (X17_the_list_after_an_update Sample.secret w2 2000%Z true true 1%Z
           Sample.update_New ps Hr Hs eq_refl).
Defined.


Lemma map_mapDbPost_perm (rows rows' : list PgServer.row) :
  Permutation rows rows' ->
  forall ps,
    PgServer.map_mapDbPost rows = Some ps ->
    exists ps', PgServer.map_mapDbPost rows' = Some ps' /\ Permutation ps ps'.
Proof.
  induction 1 as [|r l l' Hperm IH|a b l|l l' l'' H1 IH1 H2 IH2]; intros ps Hps.
  - exists ps. split; [exact Hps|apply Permutation_refl].
  - simpl in *. destruct (PgServer.mapDbPost r) as [q|]; [|discriminate].
    destruct (PgServer.map_mapDbPost l) as [qs|]; [|discriminate].
    injection Hps as <-. destruct (IH qs eq_refl) as (qs' & -> & Hqs).
    exists (q :: qs'). split; [reflexivity|now apply perm_skip].
  - simpl in *. destruct (PgServer.mapDbPost b) as [qb|]; [|discriminate].
    destruct (PgServer.mapDbPost a) as [qa|]; [|discriminate].
    destruct (PgServer.map_mapDbPost l) as [qs|]; [|discriminate].
    injection Hps as <-. exists (qa :: qb :: qs). split; [reflexivity|apply perm_swap].
  - destruct (IH1 ps Hps) as (ps1 & Hps1 & Hp1).
    destruct (IH2 ps1 Hps1) as (ps2 & Hps2 & Hp2).
    exists ps2. split; [exact Hps2|]. now apply (perm_trans Hp1).
Qed.

Lemma pg_post_posts_200 (pw : option string) (db_now : Z) (up : bool) (req : request)
    (d : PgServer.database) :
  status (snd (PgServer.post_posts pw db_now up req d)) = 200 ->
  up = true
  /\ strict_neq (adminPassword (req_body req)) pw = false
  /\ missing_required (req_body req) = false.
Proof.
  unfold PgServer.post_posts.
  destruct (strict_neq _ _); [discriminate|].
  destruct (missing_required _); [discriminate|].
  destruct up; [auto|discriminate].
Qed.

(** X19 -- After a create that is answered 200, the list holds the post
    the create answered with and the posts of the list as it was before,
    and nothing else. *)
Theorem X19_the_list_after_a_create :
  (forall pw now_id now_date req f,
      let out := FileServer.post_posts pw now_id now_date req f in
      status (snd out) = 200 ->
      exists p ps ps',
        json (snd out) = SuccessPost p
        /\ FileServer.get_posts f = Res 200 (Posts ps)
        /\ FileServer.get_posts (fst out) = Res 200 (Posts ps')
        /\ Permutation ps' (p :: ps))
  /\ (forall pw db_now up req d ps,
      let out := PgServer.post_posts pw db_now up req d in
      status (snd out) = 200 ->
      PgServer.get_posts true d = Res 200 (Posts ps) ->
      exists p ps',
        json (snd out) = SuccessPost p
        /\ PgServer.get_posts true (fst out) = Res 200 (Posts ps')
        /\ Permutation ps' (p :: ps)).
Proof.
  split.
  - intros pw now_id now_date req f out. subst out. unfold FileServer.post_posts.
    destruct (strict_neq _ _); [discriminate|].
    destruct (missing_required _); [discriminate|]. intros _.
    eexists. eexists. eexists. split; [reflexivity|]. split; [reflexivity|].
    split; [reflexivity|]. cbn [fst].
    change (FileServer.readPosts (FileServer.writePosts ?x)) with x.
    eapply perm_trans; [apply Permutation_sym, sort_by_perm|].
    eapply perm_trans; [apply Permutation_app_comm|]. simpl.
    apply perm_skip, sort_by_perm.
  - intros pw db_now up req d ps out Hs Hget. subst out.
    destruct (pg_post_posts_200 _ _ _ _ _ Hs) as (-> & Hauth & Hval).
    rewrite (pg_post_posts_served pw db_now req d Hauth Hval). cbn [fst snd json].
    unfold PgServer.get_posts in *.
    destruct (PgServer.map_mapDbPost (PgServer.select_posts d)) as [qs|] eqn:Hqs;
      [|discriminate].
    injection Hget as <-.
    match goal with
    | |- context [PgServer.Db (_ ++ [?r0]) _] => set (r := r0)
    end.
    match goal with
    | |- context [SuccessPost ?q] => set (p := q)
    end.
    assert (Hp : PgServer.mapDbPost r = Some p).
    { subst r p. erewrite mapDbPost_row_rule;
        [|reflexivity|simpl; now rewrite first_or_empty_hd].
      cbn [PgServer.row_id PgServer.row_title PgServer.row_category
           PgServer.row_content PgServer.affiliate_link PgServer.created_at
           PgServer.updated_at].
      rewrite !or_empty_idem, first_or_empty_hd. reflexivity. }
    assert (Hperm : Permutation (r :: PgServer.select_posts d)
                      (PgServer.select_posts
                         (PgServer.Db (PgServer.table d ++ [r])
                                      (PgServer.posts_id_seq d + 1)))).
    { unfold PgServer.select_posts. cbn [PgServer.table].
      eapply perm_trans; [|apply sort_by_perm].
      eapply perm_trans; [|apply Permutation_app_comm]. simpl.
      apply perm_skip, Permutation_sym, sort_by_perm. }
    destruct (map_mapDbPost_perm _ _ Hperm (p :: qs)) as (ps' & Hps' & Hpp).
    { simpl. now rewrite Hp, Hqs. }
    exists p, ps'. split; [reflexivity|]. rewrite Hps'.
    split; [reflexivity|now apply Permutation_sym].
Qed.

(** A second post is created. *)
Lemma X19_witness :
  let w := fst (PgServer.exec Sample.secret PgServer.initial
                              (PgServer.PostPosts 1000 true Sample.create_AB)) in
  let d := PgServer.db_of w in
  let ps := posts_of (PgServer.get_posts true d) in
  let out := PgServer.post_posts Sample.secret 1001 true Sample.create_with_images d in
  status (snd out) = 200
  /\ exists p ps',
       json (snd out) = SuccessPost p
       /\ PgServer.get_posts true (fst out) = Res 200 (Posts ps')
       /\ Permutation ps' (p :: ps).
Proof.
  intros w d ps out.
  assert (Hs : status (snd out) = 200) by reflexivity.
  split; [exact Hs|].
  apply (proj2 X19_the_list_after_a_create Sample.secret 1001%Z true
               Sample.create_with_images d ps Hs eq_refl).
Defined.

End ListsAfter.

(* ================================================================== *)
(** * Further properties: one update after another                     *)
(* ================================================================== *)

Section LastWrite.
Import Js ImageStore Http Reply.

Lemma findIndex_assign (postId : Z) (posts : list FileServer.post) (idx : nat)
    (q p : FileServer.post) :
  FileServer.findIndex postId posts = Some (idx, q) ->
  FileServer.id p = postId ->
  FileServer.findIndex postId (FileServer.assign idx p posts) = Some (idx, p).
Proof.
  intros Hf Hp. revert idx Hf.
  induction posts as [|x r IH]; simpl; intros idx Hf; [discriminate|].
  destruct (Z.eqb_spec (FileServer.id x) postId) as [He|Hne].
  - injection Hf as <- <-. simpl. now rewrite Hp, Z.eqb_refl.
  - destruct (FileServer.findIndex postId r) as [[i q']|]; [|discriminate].
    injection Hf as <- <-. simpl.
    destruct (Z.eqb_spec (FileServer.id x) postId); [contradiction|].
    now rewrite (IH i eq_refl).
Qed.

Lemma assign_assign (idx : nat) (a b : FileServer.post) (posts : list FileServer.post) :
  FileServer.assign idx a (FileServer.assign idx b posts) = FileServer.assign idx a posts.
Proof.
  revert idx; induction posts as [|x r IH]; intros [|i]; simpl; try reflexivity.
  now rewrite IH.
Qed.

Lemma filter_hit_map (postId : Z) (f : PgServer.row -> PgServer.row)
    (rows : list PgServer.row) :
  (forall r, PgServer.row_id (f r) = PgServer.row_id r) ->
  filter (fun r => (PgServer.row_id r =? postId)%Z) (map f rows)
  = map f (filter (fun r => (PgServer.row_id r =? postId)%Z) rows).
Proof.
  intros Hid. induction rows as [|r rows IH]; simpl; [reflexivity|].
  rewrite Hid. destruct (PgServer.row_id r =? postId)%Z; simpl; now rewrite IH.
Qed.

(** X18 -- The last update wins.  An update that passes the gate and the
    validation leaves the same store, and answers with the same post,
    whether or not another update of the same id came just before it,
    provided it carries new files or the earlier one carried none (an
    earlier update's files would otherwise stay). *)
Theorem X18_the_last_update_wins
    (pw : option string) (req1 req2 : request) (t c : string) (now1 now2 postId : Z) :
  adminPassword (req_body req2) = pw ->
  title (req_body req2) = Some t -> t <> "" ->
  content (req_body req2) = Some c -> c <> "" ->
  image_urls (req_files req2) <> [] \/ image_urls (req_files req1) = [] ->
  (forall f,
      FileServer.put_post pw now2 postId req2
        (fst (FileServer.put_post pw now1 postId req1 f))
      = FileServer.put_post pw now2 postId req2 f)
  /\ (forall w up1 up2,
      PgServer.reachable pw w ->
      PgServer.put_post pw now2 true true postId req2
        (fst (PgServer.put_post pw now1 up1 up2 postId req1 (PgServer.db_of w)))
      = PgServer.put_post pw now2 true true postId req2 (PgServer.db_of w)).
Proof.
  intros Hauth Ht Hnt Hc Hnc Hfiles. apply strict_neq_false in Hauth.
  pose proof (required_present _ _ _ Ht Hnt Hc Hnc) as Hval.
  split.
  - intros f. unfold FileServer.put_post at 2.
    destruct (strict_neq (adminPassword (req_body req1)) pw); [reflexivity|].
    destruct (missing_required (req_body req1)); [reflexivity|].
    destruct (FileServer.findIndex postId (FileServer.readPosts f))
      as [[idx q]|] eqn:Hf; [|reflexivity].
    cbn [fst]. unfold FileServer.put_post. rewrite Hauth, Hval, Hf.
    change (FileServer.readPosts (FileServer.writePosts ?x)) with x.
    pose proof (findIndex_spec _ _ _ _ Hf) as [_ Hid].
    erewrite findIndex_assign; [|exact Hf|exact Hid].
    cbn [FileServer.id FileServer.date FileServer.images FileServer.imageUrl].
    rewrite assign_assign.
    destruct (image_urls (req_files req2)) as [|u2 us2]; [|reflexivity].
    destruct Hfiles as [Hfiles|Hfiles]; [congruence|]. rewrite Hfiles.
    assert (Hu : (if truthy_str
                       (Some (if truthy_str (FileServer.imageUrl q)
                              then or_empty (FileServer.imageUrl q)
                              else match FileServer.images q with
                                   | Some l => first_or_empty l
                                   | None => ""
                                   end))
                  then or_empty
                         (Some (if truthy_str (FileServer.imageUrl q)
                                then or_empty (FileServer.imageUrl q)
                                else match FileServer.images q with
                                     | Some l => first_or_empty l
                                     | None => ""
                                     end))
                  else first_or_empty
                         match FileServer.images q with Some l => l | None => [] end)
                 = (if truthy_str (FileServer.imageUrl q)
                    then or_empty (FileServer.imageUrl q)
                    else match FileServer.images q with
                         | Some l => first_or_empty l
                         | None => ""
                         end)).
    { destruct (truthy_str (FileServer.imageUrl q)) eqn:Hq.
      - rewrite or_empty_idem. unfold or_empty at 1. rewrite Hq.
        destruct (FileServer.imageUrl q) as [s|]; [|discriminate].
        simpl in Hq. simpl. now rewrite Hq.
      - destruct (FileServer.images q) as [l|]; [|reflexivity].
        destruct (truthy_str (Some (first_or_empty l))) eqn:Hl.
        + unfold or_empty. now rewrite Hl.
        + apply truthy_str_Some in Hl. now rewrite Hl. }
    rewrite Hu. reflexivity.
  - intros w up1 up2 Hw.
    destruct (pg_reachable_rows pw w Hw) as (Hrule & _ & _).
    destruct (pg_put_post_cases pw now1 up1 up2 postId req1 (PgServer.db_of w) Hrule)
      as [(s & m & He)|(-> & -> & Hauth1 & Hval1 & ex & more & l & Hsel & Hi & Hu)].
    { now rewrite He. }
    rewrite (pg_put_post_served pw now1 postId req1 _ ex more l Hauth1 Hval1 Hsel Hi Hu).
    cbn [fst].
    match goal with
    | |- context [PgServer.Db (map ?f _) _] => set (f1 := f)
    end.
    assert (Hid1 : forall r, PgServer.row_id (f1 r) = PgServer.row_id r).
    { intros r. subst f1. cbv beta. now destruct (PgServer.row_id r =? postId)%Z. }
    assert (Hhit : (PgServer.row_id ex =? postId)%Z = true).
    { assert (H : In ex (PgServer.select_post postId (PgServer.db_of w)))
        by (rewrite Hsel; now left).
      now apply filter_In in H. }
    assert (Hsel1 : PgServer.select_post postId
                      (PgServer.Db (map f1 (PgServer.table (PgServer.db_of w)))
                                   (PgServer.posts_id_seq (PgServer.db_of w)))
                    = f1 ex :: map f1 more).
    { unfold PgServer.select_post in *. cbn [PgServer.table].
      now rewrite (filter_hit_map postId f1 _ Hid1), Hsel. }
    set (l1 := match image_urls (req_files req1) with
               | _ :: _ => image_urls (req_files req1)
               | [] => l
               end) in *.
    assert (Hi1 : PgServer.row_images (f1 ex) = strings l1)
      by (subst f1; cbv beta; now rewrite Hhit).
    assert (Hu1 : PgServer.image_url (f1 ex)
                  = Some (match l1 with x :: _ => x | [] => "" end))
      by (subst f1; cbv beta; now rewrite Hhit).
    rewrite (pg_put_post_served pw now2 postId req2 _ (f1 ex) (map f1 more) l1
               Hauth Hval Hsel1 Hi1 Hu1).
    rewrite (pg_put_post_served pw now2 postId req2 _ ex more l Hauth Hval Hsel Hi Hu).
    cbn [PgServer.table PgServer.posts_id_seq].
    assert (Hl : match image_urls (req_files req2) with
                 | _ :: _ => image_urls (req_files req2)
                 | [] => l1
                 end
                 = match image_urls (req_files req2) with
                   | _ :: _ => image_urls (req_files req2)
                   | [] => l
                   end).
    { destruct (image_urls (req_files req2)); [|reflexivity].
      destruct Hfiles as [Hfiles|Hfiles]; [congruence|].
      subst l1. now rewrite Hfiles. }
    rewrite Hl, map_map. f_equal.
    + f_equal. apply map_ext. intros r. subst f1. cbv beta.
      destruct (PgServer.row_id r =? postId)%Z eqn:Hr; cbn [PgServer.row_id]; rewrite Hr;
        reflexivity.
    + subst f1. cbv beta. rewrite Hhit. reflexivity.
Qed.

(** Post 1 is updated twice without new files. *)
Lemma X18_witness :
  let w := fst (PgServer.exec Sample.secret PgServer.initial
                              (PgServer.PostPosts 1000 true Sample.create_with_images)) in
  PgServer.reachable Sample.secret w
  /\ PgServer.put_post Sample.secret 3000 true true 1 Sample.update_New
       (fst (PgServer.put_post Sample.secret 2000 true true 1 Sample.update_New
                               (PgServer.db_of w)))
     = PgServer.put_post Sample.secret 3000 true true 1 Sample.update_New
                         (PgServer.db_of w).
Proof.
  intros w.
  assert (Hr : PgServer.reachable Sample.secret w)
    by (apply PgServer.reach_step, PgServer.reach_initial).
  assert (Ht : "New" <> "") by discriminate.
  assert (Hc : "C" <> "") by discriminate.
  assert (Hf : image_urls (req_files Sample.update_New) <> []
               \/ image_urls (req_files Sample.update_New) = [])
    by (right; reflexivity).
  split; [exact Hr|].
  apply (proj2 (X18_the_last_update_wins Sample.secret Sample.update_New
                  Sample.update_New "New" "C" 2000%Z 3000%Z 1%Z
                  eq_refl eq_refl Ht eq_refl Hc Hf) w true true Hr).
Defined.

End LastWrite.

(* ================================================================== *)
(** * Further properties: the password of a DELETE request             *)
(* ================================================================== *)

Section DeletePassword.
Import Js ImageStore Http Reply DeleteBody.

Lemma body_text_shape (s : string) :
  body_text s = String "{" (quote "adminPassword" ++ ":" ++ quote s ++ "}").
Proof.
  reflexivity.
Qed.

Lemma JSON_parse_body_text (s : string) :
  JSON_parse (body_text s) = Some (JObj [("adminPassword", JStr s)]).
Proof.
  unfold JSON_parse. rewrite body_text_shape.
  set (rest := quote "adminPassword" ++ ":" ++ quote s ++ "}").
  replace (2 * String.length (String "{" rest) + 2)
    with (S (S (S (2 * String.length rest + 1)))) by (simpl; lia).
  rewrite parse_value_S.
  change (skip_ws (String "{" rest)) with (String "{" rest).
  cbv iota beta. change (code "{" =? 91)%N with false.
  change (code "{" =? 123)%N with true. cbv iota.
  assert (Hrest : rest = quot ++ (quote_body "adminPassword"
                                    ++ quot ++ ":" ++ quote s ++ "}")).
  { subst rest. unfold quote. now rewrite !append_assoc. }
  assert (Hskip : skip_ws rest = rest) by (rewrite Hrest; reflexivity).
  assert (Hclose : strip_prefix "}" rest = None) by (rewrite Hrest; reflexivity).
  rewrite Hskip, Hclose, parse_members_S, Hskip.
  assert (Hopen : strip_prefix quot rest
                  = Some (quote_body "adminPassword" ++ quot ++ ":" ++ quote s ++ "}"))
    by (rewrite Hrest; reflexivity).
  rewrite Hopen, parse_quote_body.
  change (strip_prefix ":" (skip_ws (":" ++ quote s ++ "}")))
    with (Some (quote s ++ "}")).
  cbv iota beta. rewrite parse_value_quote.
  reflexivity.
Qed.

(** X20 -- The password typed into the admin page reaches the gate of
    DELETE as it was typed, whatever characters it holds, as long as the
    body the page sends is within the limit of [express.json]: the body is
    then accepted, and the handler reads from it a string equal to the
    password.  A body above the limit is answered before it reaches the
    handler.  The gate answers 401 exactly when the configured secret is
    not the string it is given. *)
Theorem X20_typed_password_reaches_the_gate (s : string) :
  ((N.of_nat (String.length (body_text s)) <= limit)%N ->
   option_map adminPassword_of (express_json (body_text s)) = Some (Some (JStr s)))
  /\ ((limit < N.of_nat (String.length (body_text s)))%N ->
      express_json (body_text s) = None)
  /\ (forall pw postId f,
         snd (FileServer.delete_post pw postId (Some (JStr s)) f)
         = Res 401 (Error "Unauthorized") <-> pw <> Some s)
  /\ (forall pw up postId d,
         snd (PgServer.delete_post pw up postId (Some (JStr s)) d)
         = Res 401 (Error "Unauthorized") <-> pw <> Some s).
Proof.
  split; [|split; [|split]].
  - intros Hlen. unfold express_json.
    destruct (N.ltb_spec limit (N.of_nat (String.length (body_text s)))) as [Hgt|_];
      [lia|].
    assert (Hbom : strip_prefix bom (body_text s) = None) by reflexivity.
    rewrite Hbom. cbv zeta iota.
    rewrite JSON_parse_body_text, body_text_shape. reflexivity.
  - intros Hlen. unfold express_json.
    destruct (N.ltb_spec limit (N.of_nat (String.length (body_text s)))) as [_|Hle];
      [reflexivity|lia].
  - intros pw postId f. unfold FileServer.delete_post.
    destruct (strict_neq_val (Some (JStr s)) pw) eqn:Hg.
    + apply strict_neq_val_true in Hg. split; [intros _|reflexivity].
      intros ->. now apply Hg.
    + apply strict_neq_val_false in Hg. split.
      * destruct (_ =? _)%nat; discriminate.
      * intros H. exfalso. apply H. destruct pw; simpl in Hg; congruence.
  - intros pw up postId d. unfold PgServer.delete_post.
    destruct (strict_neq_val (Some (JStr s)) pw) eqn:Hg.
    + apply strict_neq_val_true in Hg. split; [intros _|reflexivity].
      intros ->. now apply Hg.
    + apply strict_neq_val_false in Hg. split.
      * destruct up; cbn [negb]; [|discriminate].
        unfold PgServer.delete_from_posts.
        destruct (map PgServer.row_id _); discriminate.
      * intros H. exfalso. apply H. destruct pw; simpl in Hg; congruence.
Qed.

(** A password that holds a quotation mark and a backslash. *)
Lemma X20_witness :
  let s := String "p" (String (char 34) (String bslash "w")) in
  (N.of_nat (String.length (body_text s)) <= limit)%N
  /\ option_map adminPassword_of (express_json (body_text s)) = Some (Some (JStr s)).
Proof.
  intros s.
  assert (Hlen : (N.of_nat (String.length (body_text s)) <= limit)%N)
    by (vm_compute; discriminate).
  split; [exact Hlen|].
  apply (proj1 (X20_typed_password_reaches_the_gate s) Hlen).
Defined.

End DeletePassword.
